(** * Memory firewall agent: constraint parsing and request evaluation

    A shallow embedding of [agent/policy.py], [agent/orchestrator.py],
    [agent/memmachine_client.py] and the endpoints of [app.py] (with the
    part of [agent/neo4j_client.py] that they call), followed by the
    properties of the specification that were checked against it and by
    further properties of the code.

    Conventions of the embedding.
    - A Python [str] is a [string]; one [ascii] stands for one code point,
      so the texts covered are those of code points 0..255 (Latin-1).
      Character classes ([str.isspace], [\s], [\w], [\d], [str.lower])
      are the ones CPython uses on that range.
    - A Python [int] is a [Z]; a Python [float] is a binary64 value, a
      [spec_float] at precision 53 and maximal exponent 1024, with
      conversions from text and to text rounded as CPython rounds them.
      The interpreter's optional limit on the number of digits of a
      converted integer is not part of the embedding.
    - A value of type [Any] (what a JSON document can hold) is a [pyval];
      a [Dict[str, Any]] is a [gmap string pyval].
    - A call that can raise returns a [result]; the graph store is threaded
      explicitly as a state.
    - [uuid4()] and [datetime.utcnow()] are inputs of the functions that
      call them. *)

From Stdlib Require Import ZArith Ascii String DecimalString.
From Corelib Require Import SpecFloat.
From stdpp Require Import base option list gmap strings.

#[local] Set Warnings "-register-all".
#[local] Open Scope string_scope.
#[local] Open Scope Z_scope.

(** ** Python runtime: exceptions, characters, strings *)

Module Py.

Inductive exn :=
| TypeError
| ValueError
| AttributeError
| OverflowError
| StoreError (msg : string).

Inductive result (A : Type) :=
| Ok (a : A)
| Raise (e : exn).
Arguments Ok {A} a.
Arguments Raise {A} e.

#[export] Instance result_ret : MRet result := fun A a => Ok a.
#[export] Instance result_bind : MBind result := fun A B f m =>
  match m with
  | Ok a => f a
  | Raise e => Raise e
  end.

#[export] Instance result_fmap : FMap result := fun A B f m =>
  match m with
  | Ok a => Ok (f a)
  | Raise e => Raise e
  end.

(** [for x in xs: body] over a loop state, stopping at the first exception. *)
Fixpoint for_each {A S : Type} (body : A -> S -> result S) (xs : list A) (s : S)
  : result S :=
  match xs with
  | [] => Ok s
  | x :: xs' => s' ← body x s; for_each body xs' s'
  end.

(** *** Character classes *)

Definition code (c : ascii) : N := N_of_ascii c.

Definition between (lo hi : N) (c : ascii) : bool :=
  ((lo <=? code c) && (code c <=? hi))%N.

(** [str.isspace] and the regular expression class [\s]. *)
Definition is_space (c : ascii) : bool :=
  between 9 13 c || between 28 32 c || (code c =? 133)%N || (code c =? 160)%N.

(** The regular expression class [\d] (equal to [[0-9]] on this range). *)
Definition is_digit (c : ascii) : bool := between 48 57 c.

(** The regular expression class [\w]: alphanumeric or underscore. *)
Definition is_word (c : ascii) : bool :=
  between 48 57 c || between 65 90 c || between 97 122 c || (code c =? 95)%N
  || (code c =? 170)%N || (code c =? 178)%N || (code c =? 179)%N
  || (code c =? 181)%N || (code c =? 185)%N || (code c =? 186)%N
  || between 188 190 c || between 192 214 c || between 216 246 c
  || between 248 255 c.

(** [str.lower] on one character. *)
Definition lower_char (c : ascii) : ascii :=
  if between 65 90 c || (between 192 222 c && negb (code c =? 215)%N)
  then ascii_of_N (code c + 32)
  else c.

Definition is_char (a c : ascii) : bool := Ascii.eqb a c.

(** *** Strings *)

Fixpoint lower (s : string) : string :=
  match s with
  | "" => ""
  | String c s' => String (lower_char c) (lower s')
  end.

Fixpoint lstrip (s : string) : string :=
  match s with
  | "" => ""
  | String c s' => if is_space c then lstrip s' else s
  end.

Fixpoint rstrip (s : string) : string :=
  match s with
  | "" => ""
  | String c s' =>
      match rstrip s' with
      | "" => if is_space c then "" else String c ""
      | r => String c r
      end
  end.

Definition strip (s : string) : string := rstrip (lstrip s).

(** [re.sub(r"\s+", " ", s)]: every maximal run of white space becomes one
    space.  [in_run] tells that the previous character was white space. *)
Fixpoint sub_spaces (in_run : bool) (s : string) : string :=
  match s with
  | "" => ""
  | String c s' =>
      if is_space c
      then if in_run then sub_spaces true s' else String " " (sub_spaces true s')
      else String c (sub_spaces false s')
  end.

Fixpoint startswith (w s : string) : bool :=
  match w, s with
  | "", _ => true
  | String a w', String b s' => is_char a b && startswith w' s'
  | String _ _, "" => false
  end.

(** [w in s] for strings. *)
Fixpoint contains (w s : string) : bool :=
  startswith w s ||
  match s with
  | "" => false
  | String _ s' => contains w s'
  end.

(** [any(w in t for w in ws)]. *)
Definition any_in (ws : list string) (t : string) : bool :=
  existsb (fun w => contains w t) ws.

(** No character of the string is white space. *)
Fixpoint no_space (s : string) : bool :=
  match s with
  | "" => true
  | String c s' => negb (is_space c) && no_space s'
  end.

(** [s.replace(c, "")] for a one-character [c]. *)
Fixpoint remove_char (a : ascii) (s : string) : string :=
  match s with
  | "" => ""
  | String c s' => if is_char a c then remove_char a s' else String c (remove_char a s')
  end.

(** [s[:n]]. *)
Fixpoint str_take (n : nat) (s : string) : string :=
  match n, s with
  | S n', String c s' => String c (str_take n' s')
  | _, _ => ""
  end.

(** [str(z)] and [f"{z}"] for an [int]. *)
Definition str_of_Z (z : Z) : string := NilZero.string_of_int (Z.to_int z).

(** *** Regular expressions

    The fragment of [re] that the program's patterns use, with the
    semantics of CPython's backtracking matcher: alternatives are tried
    left to right, [?] and bounded or unbounded repetition are greedy, and
    [re.search] returns the match at the leftmost start position. *)

Inductive regex :=
| Eps
| Cls (p : ascii -> bool)                        (* one character of a class *)
| Cat (r1 r2 : regex)
| Alt (r1 r2 : regex)                            (* r1|r2 *)
| Opt (r : regex)                                (* (?:r)? *)
| Rep (p : ascii -> bool) (lo : nat) (hi : option nat)  (* p{lo,hi}, p*, p+ *)
| Grp (i : nat) (r : regex)                      (* capturing group number i *)
| WordB.                                         (* \b *)

Definition Chr (a : ascii) : regex := Cls (is_char a).

Fixpoint Lit (s : string) : regex :=
  match s with
  | "" => Eps
  | String c s' => Cat (Chr c) (Lit s')
  end.

Definition Seq (rs : list regex) : regex := foldr Cat Eps rs.

(** The groups of a match object: [m.group(i)] is [m !! i]. *)
Abbreviation groups := (gmap nat string).

Definition word_before (prev : option ascii) : bool :=
  match prev with
  | Some c => is_word c
  | None => false
  end.

Definition word_after (s : string) : bool :=
  match s with
  | String c _ => is_word c
  | "" => false
  end.

Section Matcher.
Context {R : Type}.

(** The continuation receives the character before the current position,
    the rest of the text and the groups set so far. *)
Definition cont := option ascii -> string -> groups -> option R.

(** Greedy repetition of a character class: take one more character while
    allowed, and give back characters one at a time when the rest of the
    pattern fails. *)
Fixpoint rep (p : ascii -> bool) (lo : nat) (hi : option nat)
    (prev : option ascii) (s : string) (gs : groups) (k : cont) : option R :=
  let stop := match lo with O => k prev s gs | S _ => None end in
  match hi with
  | Some O => stop
  | _ =>
      match s with
      | String c s' =>
          if p c
          then match rep p (Nat.pred lo) (Nat.pred <$> hi) (Some c) s' gs k with
               | Some r => Some r
               | None => stop
               end
          else stop
      | "" => stop
      end
  end.

Fixpoint rmatch (r : regex) (prev : option ascii) (s : string) (gs : groups)
    (k : cont) : option R :=
  match r with
  | Eps => k prev s gs
  | Cls p =>
      match s with
      | String c s' => if p c then k (Some c) s' gs else None
      | "" => None
      end
  | Cat r1 r2 =>
      rmatch r1 prev s gs (fun prev' s' gs' => rmatch r2 prev' s' gs' k)
  | Alt r1 r2 =>
      match rmatch r1 prev s gs k with
      | Some x => Some x
      | None => rmatch r2 prev s gs k
      end
  | Opt r1 =>
      match rmatch r1 prev s gs k with
      | Some x => Some x
      | None => k prev s gs
      end
  | Rep p lo hi => rep p lo hi prev s gs k
  | Grp i r1 =>
      rmatch r1 prev s gs (fun prev' s' gs' =>
        k prev' s' (<[i := str_take (String.length s - String.length s') s]> gs'))
  | WordB =>
      if xorb (word_before prev) (word_after s) then k prev s gs else None
  end.
End Matcher.

(** [re.search(r, s)], started with [prev] as the character before [s]:
    the groups of the leftmost match, or [None]. *)
Fixpoint search_from (r : regex) (prev : option ascii) (s : string) : option groups :=
  match rmatch r prev s ∅ (fun _ _ gs => Some gs) with
  | Some gs => Some gs
  | None =>
      match s with
      | String c s' => search_from r (Some c) s'
      | "" => None
      end
  end.

Definition re_search (r : regex) (s : string) : option groups :=
  search_from r None s.

(** [m.group(i)] for a group that takes part in every match of its pattern,
    as the groups read by the program do. *)
Definition group (m : groups) (i : nat) : string := default "" (m !! i).

(** *** Numbers: [int], [float], and their conversions from text *)

Abbreviation float := spec_float.

(** The value of a string of decimal digits. *)
Definition digit_value (c : ascii) : Z := Z.of_N (code c) - 48.

Fixpoint decimal_from (acc : Z) (s : string) : Z :=
  match s with
  | "" => acc
  | String c s' => decimal_from (10 * acc + digit_value c) s'
  end.

Definition decimal_value (s : string) : Z := decimal_from 0 s.

(** The longest prefix of characters of a class, and the rest. *)
Fixpoint span (p : ascii -> bool) (s : string) : string * string :=
  match s with
  | String c s' =>
      if p c then let '(a, b) := span p s' in (String c a, b) else ("", s)
  | "" => ("", "")
  end.

(** The white space that [int] and [float] remove around their argument. *)
Definition is_number_space (c : ascii) : bool :=
  is_space c && negb (between 28 31 c).

Fixpoint number_lstrip (s : string) : string :=
  match s with
  | "" => ""
  | String c s' => if is_number_space c then number_lstrip s' else s
  end.

Fixpoint number_rstrip (s : string) : string :=
  match s with
  | "" => ""
  | String c s' =>
      match number_rstrip s' with
      | "" => if is_number_space c then "" else String c ""
      | r => String c r
      end
  end.

(** An underscore in a numeric literal stands between two digits. *)
Fixpoint underscores_ok (prev : option ascii) (s : string) : bool :=
  match s with
  | "" => true
  | String c s' =>
      if is_char "_" c
      then match prev, s' with
           | Some a, String b _ => is_digit a && is_digit b && underscores_ok (Some c) s'
           | _, _ => false
           end
      else underscores_ok (Some c) s'
  end.

Definition split_sign (s : string) : bool * string :=
  match s with
  | String "-" r => (true, r)
  | String "+" r => (false, r)
  | _ => (false, s)
  end.

Definition all_digits (s : string) : bool :=
  match span is_digit s with
  | (String _ _, "") => true
  | _ => false
  end.

(** [int(s)] for a string, in base 10. *)
Definition int_of_str (s : string) : result Z :=
  let '(neg, body) := split_sign (number_rstrip (number_lstrip s)) in
  let ds := remove_char "_" body in
  if underscores_ok None body && all_digits ds
  then Ok (if neg then - decimal_value ds else decimal_value ds)
  else Raise ValueError.

Definition b64_round (neg : bool) (m e : Z) (l : location) : float :=
  binary_round_aux 53 1024 neg m e l.

(** The binary64 value nearest to [m * 10 ^ e10] (ties to even), for [m >= 0]. *)
Definition float_of_decimal (neg : bool) (m e10 : Z) : float :=
  if m =? 0 then S754_zero neg
  else if 0 <=? e10
       then binary_normalize 53 1024 (if neg then - (m * 10 ^ e10) else m * 10 ^ e10) 0 neg
  else let '(q, e, l) := SFdiv_core_binary 53 1024 m 0 (10 ^ (- e10)) 0 in
       b64_round neg q e l.

(** The exponent part of a float literal: nothing, or [e], a sign and digits. *)
Definition exponent_of_str (s : string) : option Z :=
  match s with
  | "" => Some 0
  | String "e" r =>
      let '(neg, ds) := split_sign r in
      if all_digits ds
      then Some (if neg then - decimal_value ds else decimal_value ds)
      else None
  | _ => None
  end.

(** [float(s)] for a string. *)
Definition float_of_str (s : string) : result float :=
  let '(neg, body) := split_sign (lower (number_rstrip (number_lstrip s))) in
  if String.eqb body "inf" || String.eqb body "infinity" then Ok (S754_infinity neg)
  else if String.eqb body "nan" then Ok S754_nan
  else if negb (underscores_ok None body) then Raise ValueError
  else
    let '(ip, r1) := span is_digit (remove_char "_" body) in
    let '(fp, r2) := match r1 with
                     | String "." r => span is_digit r
                     | _ => ("", r1)
                     end in
    match ip ++ fp, exponent_of_str r2 with
    | String _ _ as ds, Some e =>
        Ok (float_of_decimal neg (decimal_value ds) (e - Z.of_nat (String.length fp)))
    | _, _ => Raise ValueError
    end.

(** [float(z)] for an [int]. *)
Definition float_of_Z (z : Z) : result float :=
  match binary_normalize 53 1024 z 0 false with
  | S754_infinity _ => Raise OverflowError
  | f => Ok f
  end.

(** [int(f)] for a [float]: truncation towards zero. *)
Definition Z_of_float (f : float) : result Z :=
  match f with
  | S754_zero _ => Ok 0
  | S754_infinity _ => Raise OverflowError
  | S754_nan => Raise ValueError
  | S754_finite neg m e =>
      let a := if 0 <=? e then Z.pos m * 2 ^ e else Z.pos m / 2 ^ (- e) in
      Ok (if neg then - a else a)
  end.

(** [f1 > f2] on floats. *)
Definition float_gt (f1 f2 : float) : bool := SFltb f2 f1.

(** [m * 2 ^ e] rounded to the nearest integer, ties to even. *)
Definition round_half_even (m e : Z) : Z :=
  if 0 <=? e then m * 2 ^ e
  else
    let p := 2 ^ (- e) in
    let q := m / p in
    match 2 * (m mod p) ?= p with
    | Lt => q
    | Gt => q + 1
    | Eq => if Z.even q then q else q + 1
    end.

Fixpoint zeros (n : nat) : string :=
  match n with
  | O => ""
  | S n' => String "0" (zeros n')
  end.

(** The decimal digits of [n >= 0] with the point placed [d] digits from the
    right. *)
Definition fixed_digits (d : nat) (n : Z) : string :=
  let ds := str_of_Z n in
  let ds := zeros (S d - String.length ds) ++ ds in
  let k := (String.length ds - d)%nat in
  match d with
  | O => ds
  | S _ => str_take k ds ++ "." ++ String.substring k d ds
  end.

(** [f"{x:.<d>f}"] for a [float]. *)
Definition format_fixed (d : nat) (x : float) : string :=
  match x with
  | S754_nan => "nan"
  | S754_infinity neg => if neg then "-inf" else "inf"
  | S754_zero neg => (if neg then "-" else "") ++ fixed_digits d 0
  | S754_finite neg m e =>
      (if neg then "-" else "")
      ++ fixed_digits d (round_half_even (Z.pos m * 10 ^ Z.of_nat d) e)
  end.

(** *** Values of type [Any] *)

Inductive pyval :=
| VNone
| VBool (b : bool)
| VInt (z : Z)
| VFloat (f : float)
| VStr (s : string)
| VList (l : list pyval)
| VDict (d : gmap string pyval).

Abbreviation dict := (gmap string pyval).

(** Truth value of an object. *)
Definition truthy (v : pyval) : bool :=
  match v with
  | VNone => false
  | VBool b => b
  | VInt z => negb (z =? 0)
  | VFloat f => negb (SFeqb f (S754_zero false))
  | VStr s => negb (String.eqb s "")
  | VList l => match l with [] => false | _ => true end
  | VDict d => negb (bool_decide (d = ∅))
  end.

(** [a or b]. *)
Definition py_or (a b : pyval) : pyval := if truthy a then a else b.

(** [d.get(k)] and [d.get(k, dflt)] on a dictionary. *)
Definition dict_get (d : dict) (k : string) (dflt : pyval) : pyval :=
  default dflt (d !! k).

(** [v.get(k, dflt)] on an arbitrary object: only dictionaries have [get]. *)
Definition py_get (v : pyval) (k : string) (dflt : pyval) : result pyval :=
  match v with
  | VDict d => Ok (dict_get d k dflt)
  | _ => Raise AttributeError
  end.

(** [v == s] for a string constant [s]. *)
Definition eq_str (v : pyval) (s : string) : bool :=
  match v with
  | VStr t => String.eqb t s
  | _ => false
  end.

(** [int(v)]. *)
Definition py_int (v : pyval) : result Z :=
  match v with
  | VBool b => Ok (if b then 1 else 0)
  | VInt z => Ok z
  | VFloat f => Z_of_float f
  | VStr s => int_of_str s
  | VNone | VList _ | VDict _ => Raise TypeError
  end.

(** [float(v)]. *)
Definition py_float (v : pyval) : result float :=
  match v with
  | VBool b => float_of_Z (if b then 1 else 0)
  | VInt z => float_of_Z z
  | VFloat f => Ok f
  | VStr s => float_of_str s
  | VNone | VList _ | VDict _ => Raise TypeError
  end.

(** *** Further operations on strings and values *)

(** [s.rstrip(a)] for a one-character [a]. *)
Fixpoint rstrip_char (a : ascii) (s : string) : string :=
  match s with
  | "" => ""
  | String c s' =>
      match rstrip_char a s' with
      | "" => if is_char a c then "" else String c ""
      | r => String c r
      end
  end.

Definition Z_of_bool (b : bool) : Z := if b then 1 else 0.

(** [f == z] for a float and an integer: the two values are compared exactly,
    without rounding the integer. *)
Definition float_eq_Z (f : float) (z : Z) : bool :=
  match f with
  | S754_zero _ => z =? 0
  | S754_finite neg m e =>
      let a := if neg then Z.neg m else Z.pos m in
      if 0 <=? e then a * 2 ^ e =? z else a =? z * 2 ^ (- e)
  | S754_infinity _ | S754_nan => false
  end.

(** [a == b] on values of distinct origin (no two of them are one object):
    numbers compare by value across [bool], [int] and [float], a NaN is equal
    to nothing, lists compare item by item and dictionaries key by key. *)
Fixpoint py_eq (a b : pyval) {struct a} : bool :=
  match a, b with
  | VNone, VNone => true
  | VBool x, VBool y => Z_of_bool x =? Z_of_bool y
  | VBool x, VInt z | VInt z, VBool x => Z_of_bool x =? z
  | VBool x, VFloat f | VFloat f, VBool x => float_eq_Z f (Z_of_bool x)
  | VInt x, VInt y => x =? y
  | VInt z, VFloat f | VFloat f, VInt z => float_eq_Z f z
  | VFloat f, VFloat g => SFeqb f g
  | VStr s, VStr t => String.eqb s t
  | VList l, VList k =>
      (fix items (l k : list pyval) {struct l} : bool :=
         match l, k with
         | [], [] => true
         | x :: l', y :: k' => py_eq x y && items l' k'
         | _, _ => false
         end) l k
  | VDict d, VDict e =>
      (size d =? size e)%nat
      && map_fold (fun k v acc =>
                     acc && match e !! k with Some w => py_eq v w | None => false end)
           true d
  | _, _ => false
  end.

(** The items that [for x in v] visits, for a value as a JSON document holds
    it: the items of a list, the characters of a string, the keys of a
    dictionary (in the order in which the map enumerates them).  The other
    values are not iterable. *)
Definition py_iter (v : pyval) : result (list pyval) :=
  match v with
  | VList l => Ok l
  | VStr s => Ok ((fun c => VStr (String c "")) <$> list_ascii_of_string s)
  | VDict d => Ok (VStr <$> (map_to_list d).*1)
  | VNone | VBool _ | VInt _ | VFloat _ => Raise TypeError
  end.

End Py.
Import Py.

(** ** agent/policy.py *)

Module policy.

Definition NO_MEETINGS_AFTER_HOUR : string := "NO_MEETINGS_AFTER_HOUR".
Definition BUDGET_CAP : string := "BUDGET_CAP".
Definition NO_SHARING_WITH_EXTERNALS : string := "NO_SHARING_WITH_EXTERNALS".

Definition HARD : string := "HARD".
Definition SOFT : string := "SOFT".

Record ParsedConstraint := {
  id : string;
  type : string;
  severity : string;
  text : string;
  params : dict;
}.

Definition _normalize (s : string) : string :=
  sub_spaces false (lower (strip s)).

(** [a\.?m\.?|p\.?m\.?] *)
Definition meridiem_re : regex :=
  Alt (Seq [Chr "a"; Opt (Chr "."); Chr "m"; Opt (Chr ".")])
      (Seq [Chr "p"; Opt (Chr "."); Chr "m"; Opt (Chr ".")]).

(** [\bafter\s+(\d{1,2})\s*(a\.?m\.?|p\.?m\.?)\b] *)
Definition after_meridiem_re : regex :=
  Seq [WordB; Lit "after"; Rep is_space 1 None;
       Grp 1 (Rep is_digit 1 (Some 2%nat));
       Rep is_space 0 None;
       Grp 2 meridiem_re; WordB].

(** [\bafter\s+(\d{1,2})(?::\d{2})?\b] *)
Definition after_bare_re : regex :=
  Seq [WordB; Lit "after"; Rep is_space 1 None;
       Grp 1 (Rep is_digit 1 (Some 2%nat));
       Opt (Cat (Chr ":") (Rep is_digit 2 (Some 2%nat)));
       WordB].

(** The two assignments [if ampm == "pm" and h != 12: h += 12] and
    [if ampm == "am" and h == 12: h = 0], in sequence. *)
Definition meridiem_hour (h : Z) (ampm : string) : Z :=
  let h := if String.eqb ampm "pm" && negb (h =? 12) then h + 12 else h in
  if String.eqb ampm "am" && (h =? 12) then 0 else h.

(** [0 <= h <= 23] *)
Definition is_hour (h : Z) : bool := (0 <=? h) && (h <=? 23).

(** First [if m:] block: the hour of an after-qualified meridiem time, when
    the block returns.  [int(m.group(1))] is the decimal value of the group,
    which is one or two digits in every match ([time_groups_read] below). *)
Definition after_meridiem_hour (t : string) : option Z :=
  match re_search after_meridiem_re t with
  | Some m =>
      let h := decimal_value (group m 1) in
      let ampm := remove_char "." (group m 2) in
      let h := meridiem_hour h ampm in
      if is_hour h then Some h else None
  | None => None
  end.

(** Second [if m2:] block: the hour of an after-qualified bare time. *)
Definition after_bare_hour (t : string) : option Z :=
  match re_search after_bare_re t with
  | Some m2 =>
      let h := decimal_value (group m2 1) in
      if is_hour h then Some h else None
  | None => None
  end.

Definition _parse_time_to_hour (text : string) : option Z :=
  let t := _normalize text in
  match after_meridiem_hour t with
  | Some h => Some h
  | None => after_bare_hour t
  end.

(** [[0-9][0-9,]*(?:\.[0-9]+)?] *)
Definition number_re : regex :=
  Seq [Cls is_digit;
       Rep (fun c => is_digit c || is_char "," c) 0 None;
       Opt (Cat (Chr ".") (Rep is_digit 1 None))].

(** [\$\s*([0-9][0-9,]*(?:\.[0-9]+)?)] *)
Definition dollar_re : regex :=
  Seq [Chr "$"; Rep is_space 0 None; Grp 1 number_re].

(** [\b(?:cap|max(?:imum)?)\s*[:=]?\s*([0-9][0-9,]*(?:\.[0-9]+)?)\b] *)
Definition labelled_re : regex :=
  Seq [WordB;
       Alt (Lit "cap") (Cat (Lit "max") (Opt (Lit "imum")));
       Rep is_space 0 None;
       Opt (Cls (fun c => is_char ":" c || is_char "=" c));
       Rep is_space 0 None;
       Grp 1 number_re; WordB].

(** [float(s)] for a string [s] of digits with an optional fraction, which is
    what [m.group(1).replace(",", "")] is after a match of [number_re]
    ([number_re_text] and [float_of_str_number] below). *)
Definition float_of_number (s : string) : float :=
  let '(ip, r) := span is_digit s in
  let fp := match r with String "." f => f | _ => "" end in
  float_of_decimal false (decimal_value (ip ++ fp)) (- Z.of_nat (String.length fp)).

Definition _parse_money_amount (text : string) : option float :=
  let t := _normalize text in
  match re_search dollar_re t with
  | Some m => Some (float_of_number (remove_char "," (group m 1)))
  | None =>
      match re_search labelled_re t with
      | Some m2 => Some (float_of_number (remove_char "," (group m2 1)))
      | None => None
      end
  end.

Definition time_error : string := "Could not parse the time. Example: 'No meetings after 9pm'.".
Definition amount_error : string := "Could not parse the amount. Example: 'Budget cap $1000'.".

(** The message is one string with two line feeds (code point 10) in it. *)
Definition unrecognized_error : string :=
  "Unrecognized constraint. Supported examples:" ++ String "010" ""
  ++ "1) No meetings after 9pm" ++ String "010" ""
  ++ "2) Budget cap $1000" ++ String "010" ""
  ++ "3) Never share datasets with external contractors".

(** The three recognition conditions, on the normalized text. *)
Definition meeting_trigger (t : string) : bool :=
  (contains "meeting" t || contains "call" t) && contains "after" t.

Definition budget_trigger (t : string) : bool :=
  (contains "budget" t && contains "cap" t)
  || (contains "max" t && contains "budget" t)
  || contains "budget cap" t
  || (contains "spend" t && contains "max" t).

Definition sharing_trigger (t : string) : bool :=
  let share_words := any_in ["share"; "send"; "export"; "give"; "forward"] t in
  let data_words := any_in ["dataset"; "data"; "file"; "files"] t in
  let ext_words := any_in ["contractor"; "external"; "third party"; "3rd party"; "vendor"] t in
  share_words && data_words && ext_words.

(** [uuid_hex] is [uuid4().hex]. *)
Definition parse_constraint (user_text : string) (uuid_hex : string)
  : option ParsedConstraint * option string :=
  let raw := strip user_text in
  let t := _normalize raw in
  let fresh_id := "c-" ++ str_take 8 uuid_hex in
  if meeting_trigger t then
    match _parse_time_to_hour t with
    | None => (None, Some time_error)
    | Some hour =>
        (Some {| id := fresh_id; type := NO_MEETINGS_AFTER_HOUR; severity := HARD;
                 text := raw; params := {[ "hour" := VInt hour ]} |}, None)
    end
  else if budget_trigger t then
    match _parse_money_amount t with
    | None => (None, Some amount_error)
    | Some amt =>
        (Some {| id := fresh_id; type := BUDGET_CAP; severity := HARD;
                 text := raw; params := {[ "max_amount" := VFloat amt ]} |}, None)
    end
  else if sharing_trigger t then
    let banned_party := if contains "contractor" t then "contractor" else "external" in
    (Some {| id := fresh_id; type := NO_SHARING_WITH_EXTERNALS; severity := HARD;
             text := raw; params := {[ "banned_party" := VStr banned_party ]} |}, None)
  else (None, Some unrecognized_error).

End policy.

(** ** agent/neo4j_client.py: the operations the evaluator calls *)

Module neo4j_client.

Record ActionPayload := {
  id : string;
  type : string;
  text : string;
  ts : option string;
}.

(** The client object, as a state [G] of the graph store with the three
    methods [evaluate_request] uses.  Each can raise. *)
Class Neo4jClient (G : Type) := {
  record_action : string -> ActionPayload -> G -> result G;
  record_violation : string -> pyval -> string -> G -> result G;
  explain_violations : string -> string -> G -> result (list dict);
}.

(** *** A property graph with the effect of the Cypher statements

    The nodes and relationships that [record_action], [record_violation] and
    [explain_violations] read or write, with [MERGE] as insertion of what is
    absent and [MATCH] as lookup by the [id] property.  [params] holds the
    value that [params_json] encodes.  The rows of a query come in the order
    in which the maps enumerate their keys. *)

Record ConstraintNode := {
  c_type : string;
  c_severity : string;
  c_text : string;
  c_params : dict;
}.

Record ActionNode := {
  a_type : string;
  a_text : string;
  a_ts : option string;
}.

Record graph := {
  users : gset string;
  constraint_nodes : gmap string ConstraintNode;
  action_nodes : gmap string ActionNode;
  time_windows : gmap string (Z * Z);               (* startHour, endHour *)
  resources : gmap string (string * string);        (* kind, name *)
  has_constraint : gset (string * string);          (* (u)-[:HAS_CONSTRAINT]->(c) *)
  requested : gset (string * string);               (* (u)-[:REQUESTED]->(a) *)
  violates : gmap (string * string) string;         (* (a)-[:VIOLATES {reason}]->(c) *)
  requires_timewindow : gset (string * string);     (* (c)-[:REQUIRES_TIMEWINDOW]->(tw) *)
  bans_resource : gset (string * string);           (* (c)-[:BANS_RESOURCE]->(r) *)
}.

Definition graph_record_action (user_id : string) (action : ActionPayload) (g : graph)
  : graph :=
  let old_ts := match action_nodes g !! id action with
                | Some a => a_ts a
                | None => None
                end in
  let node := {| a_type := type action; a_text := text action;
                 a_ts := match ts action with Some t => Some t | None => old_ts end |} in
  {| users := users g ∪ {[ user_id ]};
     constraint_nodes := constraint_nodes g;
     action_nodes := <[ id action := node ]> (action_nodes g);
     time_windows := time_windows g;
     resources := resources g;
     has_constraint := has_constraint g;
     requested := requested g ∪ {[ (user_id, id action) ]};
     violates := violates g;
     requires_timewindow := requires_timewindow g;
     bans_resource := bans_resource g |}.

Definition graph_record_violation (action_id : string) (constraint_id : pyval)
    (reason : string) (g : graph) : graph :=
  match constraint_id with
  | VStr cid =>
      if bool_decide (is_Some (action_nodes g !! action_id))
         && bool_decide (is_Some (constraint_nodes g !! cid))
      then
        {| users := users g;
           constraint_nodes := constraint_nodes g;
           action_nodes := action_nodes g;
           time_windows := time_windows g;
           resources := resources g;
           has_constraint := has_constraint g;
           requested := requested g;
           violates := <[ (action_id, cid) := reason ]> (violates g);
           requires_timewindow := requires_timewindow g;
           bans_resource := bans_resource g |}
      else g
  | _ => g
  end.

(** The nodes an [OPTIONAL MATCH] binds: those linked to [cid], or one null. *)
Definition optional_match {V : Type} (edges : gset (string * string))
    (nodes : gmap string V) (cid : string) : list (option V) :=
  match omap (fun e => if String.eqb e.1 cid then nodes !! e.2 else None) (elements edges) with
  | [] => [None]
  | vs => Some <$> vs
  end.

Definition explain_row (cid : string) (c : ConstraintNode)
    (tw : option (Z * Z)) (r : option (string * string)) : dict :=
  {[ "constraint_id" := VStr cid;
     "type" := VStr (c_type c);
     "severity" := VStr (c_severity c);
     "text" := VStr (c_text c);
     "params" := VDict (c_params c);
     "time_window" :=
       match tw with
       | Some (s, e) => VDict {[ "startHour" := VInt s; "endHour" := VInt e ]}
       | None => VNone
       end;
     "banned_resource" :=
       match r with
       | Some (k, n) => VDict {[ "kind" := VStr k; "name" := VStr n ]}
       | None => VNone
       end ]}.

Definition graph_explain_violations (user_id action_id : string) (g : graph)
  : list dict :=
  '(cid, c) ← map_to_list (constraint_nodes g);
  if bool_decide ((user_id, cid) ∈ has_constraint g)
     && bool_decide (user_id ∈ users g)
     && bool_decide (is_Some (action_nodes g !! action_id))
     && bool_decide (is_Some (violates g !! (action_id, cid)))
  then
    tw ← optional_match (requires_timewindow g) (time_windows g) cid;
    r ← optional_match (bans_resource g) (resources g) cid;
    [explain_row cid c tw r]
  else [].

#[export] Instance graph_client : Neo4jClient graph := {
  record_action u a g := Ok (graph_record_action u a g);
  record_violation a c r g := Ok (graph_record_violation a c r g);
  explain_violations u a g := Ok (graph_explain_violations u a g);
}.

End neo4j_client.

(** ** agent/orchestrator.py *)

Module orchestrator.
Import neo4j_client.

Definition SCHEDULE_MEETING : string := "SCHEDULE_MEETING".
Definition SHARE_DATA : string := "SHARE_DATA".
Definition SPEND_MONEY : string := "SPEND_MONEY".
Definition UNKNOWN : string := "UNKNOWN".

Record Decision := {
  ok : bool;
  action_id : string;
  action_type : string;
  message : string;
  violations : list dict;
  alternatives : list string;
}.

Definition _norm (s : string) : string :=
  sub_spaces false (lower (strip s)).

Definition meeting_words : list string := ["meeting"; "call"; "schedule"; "book"; "invite"].
Definition share_words : list string := ["share"; "send"; "export"; "forward"; "upload"].
Definition data_words : list string := ["dataset"; "data"; "file"; "files"; "csv"].
Definition spend_words : list string := ["buy"; "purchase"; "spend"; "pay"; "order"].
Definition external_words : list string :=
  ["contractor"; "external"; "third party"; "3rd party"; "vendor"].

Definition classify_action (user_request : string) : string :=
  let t := _norm user_request in
  if any_in meeting_words t then SCHEDULE_MEETING
  else if any_in share_words t && any_in data_words t then SHARE_DATA
  else if any_in spend_words t || contains "$" t then SPEND_MONEY
  else UNKNOWN.

(** [\b(\d{1,2})(?::(\d{2}))?\s*(a\.?m\.?|p\.?m\.?)\b] *)
Definition meridiem_time_re : regex :=
  Seq [WordB;
       Grp 1 (Rep is_digit 1 (Some 2%nat));
       Opt (Cat (Chr ":") (Grp 2 (Rep is_digit 2 (Some 2%nat))));
       Rep is_space 0 None;
       Grp 3 policy.meridiem_re; WordB].

(** [\b(\d{1,2})(?::\d{2})\b] *)
Definition clock_time_re : regex :=
  Seq [WordB;
       Grp 1 (Rep is_digit 1 (Some 2%nat));
       Cat (Chr ":") (Rep is_digit 2 (Some 2%nat));
       WordB].

(** First [if m:] block of [_parse_time_to_hour]. *)
Definition meridiem_time_hour (t : string) : option Z :=
  match re_search meridiem_time_re t with
  | Some m =>
      let h := decimal_value (group m 1) in
      let ampm := remove_char "." (group m 3) in
      let h := policy.meridiem_hour h ampm in
      if policy.is_hour h then Some h else None
  | None => None
  end.

(** Second [if m2:] block of [_parse_time_to_hour]. *)
Definition clock_time_hour (t : string) : option Z :=
  match re_search clock_time_re t with
  | Some m2 =>
      let h := decimal_value (group m2 1) in
      if policy.is_hour h then Some h else None
  | None => None
  end.

Definition _parse_time_to_hour (text : string) : option Z :=
  let t := _norm text in
  match meridiem_time_hour t with
  | Some h => Some h
  | None => clock_time_hour t
  end.

Definition _parse_amount (text : string) : option float :=
  let t := _norm text in
  match re_search policy.dollar_re t with
  | Some m => Some (policy.float_of_number (remove_char "," (group m 1)))
  | None => None
  end.

Definition _mentions_external_party (text : string) : bool :=
  any_in external_words (_norm text).

Definition _alternatives_for_meeting (max_hour : Z) : list string :=
  let safe_hour := Z.min max_hour 20 in
  [ "Schedule it at " ++ str_of_Z safe_hour ++ ":00 (8pm) instead of after "
      ++ str_of_Z max_hour ++ ":00.";
    "Schedule it tomorrow at 8:00pm.";
    "If it must be late, ask for an explicit exception/override first." ].

Definition _alternatives_for_sharing : list string :=
  [ "Share a redacted/synthetic dataset instead of the full customer dataset.";
    "Share only aggregated metrics or schema, not raw records.";
    "Route the request through an approved internal channel or get written approval." ].

Definition _alternatives_for_budget (max_amount : float) : list string :=
  [ "Reduce scope to stay within the $" ++ format_fixed 0 max_amount ++ " budget cap.";
    "Request approval to increase budget (one-time exception).";
    "Split the purchase into phases or use a lower-cost alternative." ].

(** One entry of [normalized_constraints]: the dictionary literal with the
    keys "id", "type", "severity", "params" and "text". *)
Record normalized := {
  n_id : pyval;
  n_type : pyval;
  n_severity : pyval;
  n_params : pyval;
  n_text : pyval;
}.

Definition normalize_constraint (c : dict) : normalized :=
  let cid := py_or (py_or (dict_get c "constraint_id" VNone) (dict_get c "id" VNone))
                   (dict_get c "constraintId" VNone) in
  {| n_id := cid;
     n_type := dict_get c "type" VNone;
     n_severity := dict_get c "severity" (VStr "HARD");
     n_params := py_or (dict_get c "params" (VDict ∅)) (VDict ∅);
     n_text := dict_get c "text" (VStr "") |}.

(** The state of the three checks: [violations] and [alternatives]. *)
Abbreviation findings := (list (pyval * string) * list string)%type.

Definition meeting_reason (req_hour max_hour : Z) : string :=
  "Requested meeting at " ++ str_of_Z req_hour
  ++ ":00 exceeds allowed end hour " ++ str_of_Z max_hour ++ ":00".

Definition sharing_reason : string :=
  "Request involves external/contractor sharing, which is prohibited".

Definition budget_reason (amt cap : float) : string :=
  "Requested spend $" ++ format_fixed 2 amt
  ++ " exceeds budget cap $" ++ format_fixed 2 cap.

(** [int(c["params"].get("hour", 21))] *)
Definition max_hour_of (c : normalized) : result Z :=
  v ← py_get (n_params c) "hour" (VInt 21); py_int v.

(** [float(c["params"].get("max_amount", 0))] *)
Definition cap_of (c : normalized) : result float :=
  v ← py_get (n_params c) "max_amount" (VInt 0); py_float v.

(** Body of the loop of check A. *)
Definition meeting_body (req_hour : option Z) (c : normalized) (st : findings)
  : result findings :=
  if eq_str (n_type c) policy.NO_MEETINGS_AFTER_HOUR then
    max_hour ← max_hour_of c;
    match req_hour with
    | Some h =>
        if h >? max_hour
        then Ok ((st.1 ++ [(n_id c, meeting_reason h max_hour)])%list,
                 (st.2 ++ _alternatives_for_meeting max_hour)%list)
        else Ok st
    | None => Ok st
    end
  else Ok st.

(** Body of the loop of check B. *)
Definition sharing_body (c : normalized) (st : findings) : result findings :=
  if eq_str (n_type c) policy.NO_SHARING_WITH_EXTERNALS
  then Ok ((st.1 ++ [(n_id c, sharing_reason)])%list,
           (st.2 ++ _alternatives_for_sharing)%list)
  else Ok st.

(** Body of the loop of check C. *)
Definition budget_body (amt : option float) (c : normalized) (st : findings)
  : result findings :=
  if eq_str (n_type c) policy.BUDGET_CAP then
    cap ← cap_of c;
    match amt with
    | Some a =>
        if float_gt cap (S754_zero false) && float_gt a cap
        then Ok ((st.1 ++ [(n_id c, budget_reason a cap)])%list,
                 (st.2 ++ _alternatives_for_budget cap)%list)
        else Ok st
    | None => Ok st
    end
  else Ok st.

(** Checks A, B and C in sequence, from empty lists. *)
Definition run_checks (action_type user_request : string) (ncs : list normalized)
  : result findings :=
  st ← (if String.eqb action_type SCHEDULE_MEETING
        then for_each (meeting_body (_parse_time_to_hour user_request)) ncs ([], [])
        else Ok ([], []));
  st ← (if String.eqb action_type SHARE_DATA
        then if _mentions_external_party user_request
             then for_each sharing_body ncs st
             else Ok st
        else Ok st);
  if String.eqb action_type SPEND_MONEY
  then for_each (budget_body (_parse_amount user_request)) ncs st
  else Ok st.

(** The loop that deduplicates [alternatives], on the pair of [uniq_alts]
    and [seen]. *)
Definition dedup_step (st : list string * gset string) (a : string)
  : list string * gset string :=
  if decide (a ∈ st.2) then st else ((st.1 ++ [a])%list, st.2 ∪ {[a]}).

Definition dedup_alternatives (alts : list string) : list string :=
  (foldl dedup_step ([], ∅) alts).1.

Definition blocked_message : string :=
  "Blocked: request violates one or more persistent constraints.".
Definition approved_message : string :=
  "Approved: no constraint violations detected.".

(** [uuid_hex] is [uuid4().hex] and [now] is
    [datetime.utcnow().isoformat(timespec="seconds")]; [neo] is the state of
    the graph store.  The state is returned with the decision. *)
Definition evaluate_request `{Neo4jClient G}
    (user_id user_request : string) (constraints : list dict)
    (uuid_hex now : string) (neo : G) : result (Decision * G) :=
  let action_type := classify_action user_request in
  let action_id := "a-" ++ str_take 10 uuid_hex in
  neo ← record_action user_id
          {| id := action_id; type := action_type; text := user_request;
             ts := Some (now ++ "Z") |} neo;
  let normalized_constraints := map normalize_constraint constraints in
  '(violations, alternatives) ← run_checks action_type user_request normalized_constraints;
  match violations with
  | _ :: _ =>
      neo ← for_each (fun '(cid, reason) g => record_violation action_id cid reason g)
                     violations neo;
      explain ← explain_violations user_id action_id neo;
      let uniq_alts := dedup_alternatives alternatives in
      Ok ({| ok := false; action_id := action_id; action_type := action_type;
             message := blocked_message;
             violations := explain;
             alternatives := list.take 5 uniq_alts |}, neo)
  | [] =>
      Ok ({| ok := true; action_id := action_id; action_type := action_type;
             message := approved_message;
             violations := [];
             alternatives := [] |}, neo)
  end.

End orchestrator.

(** ** agent/memmachine_client.py *)

Module memmachine_client.

Record MemMachineClient := {
  endpoint : string;
  api_key : string;
  namespace : string;
}.

Definition default_namespace : string := "memory_firewall_demo".

(** [__init__].  The path of the fallback file, which the namespace and the
    working directory determine, is not a field: the content of that file is
    part of the state of the functions below. *)
Definition new (endpoint api_key namespace : string) : MemMachineClient :=
  {| endpoint := rstrip_char "/" endpoint;
     api_key := api_key;
     namespace := if String.eqb namespace "" then default_namespace else namespace |}.

Definition _enabled (self : MemMachineClient) : bool :=
  negb (String.eqb (endpoint self) "") && negb (String.eqb (api_key self) "").

(** *** Fallback local store

    The state is the JSON document that the fallback file holds, or [None]
    when the file does not exist.  [json.dump] followed by [json.load] gives
    the document back, so writing stores the value and reading returns it. *)

Definition _read_local (self : MemMachineClient) (file : option pyval) : pyval :=
  match file with
  | None => VDict {[ "namespace" := VStr (namespace self); "users" := VDict ∅ ]}
  | Some data => data
  end.

Definition _write_local (data : pyval) : option pyval := Some data.

(** [[x for x in items if x.get("id") != cid]] *)
Fixpoint keep_others (cid : pyval) (items : list pyval) : result (list pyval) :=
  match items with
  | [] => Ok []
  | x :: items' =>
      v ← py_get x "id" VNone;
      rest ← keep_others cid items';
      Ok (if py_eq v cid then rest else x :: rest)
  end.

(** [data.setdefault("users", {})] and [users.setdefault(user_id, [])] return
    the value of the key, or the default they insert; the entry of the user
    is then replaced in [users], which is the object that [data] holds. *)
Definition _store_local (self : MemMachineClient) (user_id : string)
    (constraint_dict : dict) (file : option pyval) : result (option pyval) :=
  match _read_local self file with
  | VDict data =>
      match dict_get data "users" (VDict ∅) with
      | VDict users =>
          let items := dict_get users user_id (VList []) in
          let cid := dict_get constraint_dict "id" VNone in
          xs ← py_iter items;
          kept ← keep_others cid xs;
          let items := (kept ++ [VDict constraint_dict])%list in
          let users := <[ user_id := VList items ]> users in
          Ok (_write_local (VDict (<[ "users" := VDict users ]> data)))
      | _ => Raise AttributeError
      end
  | _ => Raise AttributeError
  end.

Definition _list_local (self : MemMachineClient) (user_id : string)
    (file : option pyval) : result pyval :=
  users ← py_get (_read_local self file) "users" (VDict ∅);
  py_get users user_id (VList []).

(** *** Remote MemMachine

    The HTTP calls of [requests] act on the state [R] of the remote service
    and can raise; a response has a status, a body, and the document that
    [r.json()] reads from the body (or the exception it raises). *)

Record Response := {
  status_code : Z;
  text : string;
  json : result pyval;
}.

Class Requests (R : Type) := {
  post : string -> dict -> pyval -> R -> result (Response * R);   (* url, headers, json *)
  get : string -> dict -> dict -> R -> result (Response * R);     (* url, headers, params *)
}.

Definition _headers (self : MemMachineClient) : dict :=
  {[ "Authorization" := VStr ("Bearer " ++ api_key self);
     "Content-Type" := VStr "application/json" ]}.

(** [RuntimeError(msg)] is [StoreError msg]. *)
Definition store_failed (r : Response) : exn :=
  StoreError ("MemMachine store failed (" ++ str_of_Z (status_code r) ++ "): " ++ text r).

Definition list_failed (r : Response) : exn :=
  StoreError ("MemMachine list failed (" ++ str_of_Z (status_code r) ++ "): " ++ text r).

Definition _store_remote `{Requests R} (self : MemMachineClient) (user_id : string)
    (constraint_dict : dict) (remote : R) : result R :=
  let url := endpoint self ++ "/memories" in
  let payload :=
    VDict {[ "namespace" := VStr (namespace self);
             "user_id" := VStr user_id;
             "type" := VStr "policy_constraint";
             "content" := VDict constraint_dict ]} in
  '(r, remote) ← post url (_headers self) payload remote;
  if status_code r >=? 300 then Raise (store_failed r) else Ok remote.

Definition _list_remote `{Requests R} (self : MemMachineClient) (user_id : string)
    (remote : R) : result (pyval * R) :=
  let url := endpoint self ++ "/memories" in
  let params : dict :=
    {[ "namespace" := VStr (namespace self);
       "user_id" := VStr user_id;
       "type" := VStr "policy_constraint" ]} in
  '(r, remote) ← get url (_headers self) params remote;
  if status_code r >=? 300 then Raise (list_failed r)
  else
    data ← json r;
    items ← py_get data "items" (VList []);
    its ← py_iter items;
    contents ← mapM (fun it => py_get it "content" (VDict ∅)) its;
    Ok (VList contents, remote).

(** *** Public API

    The state of the client is the fallback file together with the remote
    service. *)

Definition store_constraint `{Requests R} (self : MemMachineClient) (user_id : string)
    (constraint_dict : dict) (st : option pyval * R) : result (option pyval * R) :=
  if _enabled self
  then remote ← _store_remote self user_id constraint_dict st.2; Ok (st.1, remote)
  else file ← _store_local self user_id constraint_dict st.1; Ok (file, st.2).

Definition list_constraints `{Requests R} (self : MemMachineClient) (user_id : string)
    (st : option pyval * R) : result (pyval * (option pyval * R)) :=
  if _enabled self
  then '(items, remote) ← _list_remote self user_id st.2; Ok (items, (st.1, remote))
  else items ← _list_local self user_id st.1; Ok (items, st).

End memmachine_client.

(** ** agent/neo4j_client.py: the operation the endpoints call *)

Module neo4j_mirror.

Record ConstraintPayload := {
  id : string;
  type : string;
  severity : string;
  text : string;
  params : dict;
}.

(** The client object with the method that [add_constraint] uses, on the
    state [G] of the graph store. *)
Class Neo4jMirror (G : Type) := {
  upsert_constraint : string -> ConstraintPayload -> G -> result G;
}.

End neo4j_mirror.

(** ** app.py *)

Module app.
Import neo4j_client neo4j_mirror memmachine_client orchestrator.

(** The settings read from the environment when the module is loaded. *)
Record Settings := {
  NEO4J_URI : string;
  MEMMACHINE_ENDPOINT : string;
  MEMMACHINE_API_KEY : string;
  MEMMACHINE_NAMESPACE : string;
  USER_ID : string;
}.

Definition mem (env : Settings) : MemMachineClient :=
  new (MEMMACHINE_ENDPOINT env) (MEMMACHINE_API_KEY env) (MEMMACHINE_NAMESPACE env).

(** What a call of an endpoint gives: the value it returns with the state of
    the stores, the [HTTPException] it raises, or another exception. *)
Inductive reply (A : Type) :=
| Returned (a : A)
| HTTPException (status_code : Z) (detail : string)
| Uncaught (e : exn).
Arguments Returned {A} a.
Arguments HTTPException {A} status_code detail.
Arguments Uncaught {A} e.

Definition health (env : Settings) : dict :=
  {[ "ok" := VBool true;
     "neo4j_uri" := VStr (NEO4J_URI env);
     "memmachine_enabled" :=
       VBool (negb (String.eqb (MEMMACHINE_ENDPOINT env) "")
              && negb (String.eqb (MEMMACHINE_API_KEY env) ""));
     "namespace" := VStr (MEMMACHINE_NAMESPACE env);
     "user_id" := VStr (USER_ID env) ]}.

(** The dictionary built from a parsed constraint, for the memory and for the
    answer. *)
Definition constraint_dict (parsed : policy.ParsedConstraint) : dict :=
  {[ "id" := VStr (policy.id parsed);
     "type" := VStr (policy.type parsed);
     "severity" := VStr (policy.severity parsed);
     "text" := VStr (policy.text parsed);
     "params" := VDict (policy.params parsed) ]}.

Definition constraint_payload (parsed : policy.ParsedConstraint) : ConstraintPayload :=
  {| neo4j_mirror.id := policy.id parsed;
     neo4j_mirror.type := policy.type parsed;
     neo4j_mirror.severity := policy.severity parsed;
     neo4j_mirror.text := policy.text parsed;
     neo4j_mirror.params := policy.params parsed |}.

Section Endpoints.
Context `{Requests R} `{Neo4jClient G} `{Neo4jMirror G}.

(** The state of the application: the memory and the graph store. *)
Definition stores : Type := (option pyval * R) * G.

(** [uuid_hex] is the [uuid4().hex] that [parse_constraint] draws. *)
Definition add_constraint (env : Settings) (text uuid_hex : string) (st : stores)
  : reply (dict * stores) :=
  let '(parsed, err) := policy.parse_constraint text uuid_hex in
  if match err with Some e => negb (String.eqb e "") | None => false end
  then HTTPException 400 (default "" err)
  else
    match parsed with
    | None => Uncaught AttributeError
    | Some parsed =>
        match store_constraint (mem env) (USER_ID env) (constraint_dict parsed) st.1 with
        | Raise e => Uncaught e
        | Ok m =>
            match upsert_constraint (USER_ID env) (constraint_payload parsed) st.2 with
            | Raise e => Uncaught e
            | Ok neo =>
                Returned ({[ "ok" := VBool true;
                             "constraint" := VDict (constraint_dict parsed) ]}, (m, neo))
            end
        end
    end.

(** The items of [constraints] when each is a dictionary. *)
Definition as_dicts (items : list pyval) : option (list dict) :=
  mapM (fun c => match c with VDict d => Some d | _ => None end) items.

(** The call of [evaluate_request] with what the memory returned.  When that
    is not a list of dictionaries, the action is recorded and the loop over
    [constraints] then raises: at a value that is not iterable, or at an
    item without [get]. *)
Definition evaluate_stored (user_id user_request : string) (constraints : pyval)
    (uuid_hex now : string) (neo : G) : result (Decision * G) :=
  let recorded :=
    record_action user_id
      {| neo4j_client.id := "a-" ++ str_take 10 uuid_hex;
         neo4j_client.type := classify_action user_request;
         neo4j_client.text := user_request;
         neo4j_client.ts := Some (now ++ "Z") |} neo in
  match py_iter constraints with
  | Ok items =>
      match as_dicts items with
      | Some cs => evaluate_request user_id user_request cs uuid_hex now neo
      | None => _ ← recorded; Raise AttributeError
      end
  | Raise e => _ ← recorded; Raise e
  end.

Definition decision_dict (decision : Decision) : dict :=
  {[ "ok" := VBool (ok decision);
     "action_id" := VStr (action_id decision);
     "action_type" := VStr (action_type decision);
     "message" := VStr (message decision);
     "violations" := VList (VDict <$> violations decision);
     "alternatives" := VList (VStr <$> alternatives decision) ]}.

(** [uuid_hex] and [now] are the inputs of [evaluate_request]. *)
Definition process_request (env : Settings) (text uuid_hex now : string) (st : stores)
  : reply (dict * stores) :=
  match list_constraints (mem env) (USER_ID env) st.1 with
  | Raise e => Uncaught e
  | Ok (constraints, m) =>
      match evaluate_stored (USER_ID env) text constraints uuid_hex now st.2 with
      | Raise e => Uncaught e
      | Ok (decision, neo) => Returned (decision_dict decision, (m, neo))
      end
  end.

End Endpoints.

End app.

(** ** Definitions used to state the properties *)

Module spec.
Import neo4j_client orchestrator.

(** *** The language of a pattern

    The texts a pattern can consume, word boundaries left aside, and the
    group numbers it sets.  Used to say what a group of a match holds. *)

Fixpoint all_in (p : ascii -> bool) (w : string) : bool :=
  match w with
  | "" => true
  | String c w' => p c && all_in p w'
  end.

Fixpoint lang (r : regex) (w : string) : Prop :=
  match r with
  | Eps => w = ""
  | Cls p => ∃ c, w = String c "" ∧ p c = true
  | Cat r1 r2 => ∃ w1 w2, w = w1 ++ w2 ∧ lang r1 w1 ∧ lang r2 w2
  | Alt r1 r2 => lang r1 w ∨ lang r2 w
  | Opt r1 => lang r1 w ∨ w = ""
  | Rep p lo hi =>
      all_in p w = true ∧ (lo ≤ String.length w)%nat
      ∧ ∀ n, hi = Some n → (String.length w ≤ n)%nat
  | Grp _ r1 => lang r1 w
  | WordB => w = ""
  end.

Fixpoint group_ids (r : regex) : list nat :=
  match r with
  | Cat r1 r2 | Alt r1 r2 => group_ids r1 ++ group_ids r2
  | Opt r1 => group_ids r1
  | Grp i r1 => i :: group_ids r1
  | _ => []
  end.

(** A group at the top of a pattern holds the text the pattern consumed. *)
Definition captured (r : regex) (w : string) (gs : groups) : Prop :=
  match r with
  | Grp i _ => gs !! i = Some w
  | _ => True
  end.

(** [\d{1,2}] *)
Definition digits12 : regex := Rep is_digit 1 (Some 2%nat).

(** A text of digits with an optional fraction: [ip] or [ip.fp]. *)
Definition number_text (s : string) : Prop :=
  ∃ ip,
    all_in is_digit ip = true ∧ ip ≠ ""
    ∧ (s = ip
       ∨ ∃ fp, all_in is_digit fp = true ∧ fp ≠ "" ∧ s = ip ++ "." ++ fp).

(** A float that is a number and is not negative: zero, a positive finite
    value, or plus infinity (which [float] returns for a text too large). *)
Definition nonneg_number (f : float) : Prop :=
  match f with
  | S754_zero false | S754_finite false _ _ | S754_infinity false => True
  | _ => False
  end.

(** A list without its repeated entries, each kept where it is first seen. *)
Fixpoint first_occurrences (l : list string) : list string :=
  match l with
  | [] => []
  | a :: l' => a :: filter (fun b => b ≠ a) (first_occurrences l')
  end.

(** What one constraint adds to [violations] and [alternatives] in check A:
    a violation exactly when an hour is read from the request and it is
    after the allowed hour. *)
Definition meeting_outcome (req_hour : option Z) (c : normalized) (p : findings) : Prop :=
  if eq_str (n_type c) policy.NO_MEETINGS_AFTER_HOUR then
    ∃ h, max_hour_of c = Ok h ∧
      ((∃ r, req_hour = Some r ∧ h < r ∧
             p = ([(n_id c, meeting_reason r h)], _alternatives_for_meeting h))
       ∨ (¬ (∃ r, req_hour = Some r ∧ h < r) ∧ p = ([], [])))
  else p = ([], []).

(** What one constraint adds in check B. *)
Definition sharing_outcome (mentions : bool) (c : normalized) (p : findings) : Prop :=
  if eq_str (n_type c) policy.NO_SHARING_WITH_EXTERNALS then
    (mentions = true ∧ p = ([(n_id c, sharing_reason)], _alternatives_for_sharing))
    ∨ (mentions = false ∧ p = ([], []))
  else p = ([], []).

(** What one constraint adds in check C. *)
Definition budget_outcome (amt : option float) (c : normalized) (p : findings) : Prop :=
  if eq_str (n_type c) policy.BUDGET_CAP then
    ∃ cap, cap_of c = Ok cap ∧
      ((∃ a, amt = Some a ∧ float_gt cap (S754_zero false) = true ∧ float_gt a cap = true ∧
             p = ([(n_id c, budget_reason a cap)], _alternatives_for_budget cap))
       ∨ (¬ (∃ a, amt = Some a ∧ float_gt cap (S754_zero false) = true ∧ float_gt a cap = true)
          ∧ p = ([], [])))
  else p = ([], []).

(** The entries that the constraints add, one after the other. *)
Definition collected (per : list findings) : findings :=
  (concat per.*1, concat per.*2).

(** A constraint whose type is one of the three and whose parameters have
    the shape of that type: an integer hour from 0 to 23, a float amount
    that is a number and not negative, or a party name. *)
Definition well_formed (c : policy.ParsedConstraint) : Prop :=
  (policy.type c = policy.NO_MEETINGS_AFTER_HOUR
   ∧ ∃ h, policy.params c = {[ "hour" := VInt h ]} ∧ 0 ≤ h ≤ 23)
  ∨ (policy.type c = policy.BUDGET_CAP
     ∧ ∃ f, policy.params c = {[ "max_amount" := VFloat f ]} ∧ nonneg_number f)
  ∨ (policy.type c = policy.NO_SHARING_WITH_EXTERNALS
     ∧ ∃ s, policy.params c = {[ "banned_party" := VStr s ]}
            ∧ (s = "contractor" ∨ s = "external")).

(** Suggestions are only added together with a violation. *)
Definition quiet (st : findings) : Prop := st.1 = [] → st.2 = [].

(** The action that [evaluate_request] records first. *)
Definition recorded_action (req uuid_hex now : string) : ActionPayload :=
  {| id := "a-" ++ str_take 10 uuid_hex; type := classify_action req;
     text := req; ts := Some (now ++ "Z") |}.

(** A run of [evaluate_request] from the store [g] to the decision [d] and
    the store [g'] is decided by what each constraint adds: the action is
    recorded, then every violation in order; the request is approved exactly
    when there is no violation; and the suggestions returned are the first
    five of those added, without repetition. *)
Definition decided_by `{Neo4jClient G} (outcome : normalized -> findings -> Prop)
    (uid req : string) (cs : list dict) (uuid_hex now : string)
    (g : G) (d : Decision) (g' : G) : Prop :=
  ∃ per g1,
    Forall2 outcome (map normalize_constraint cs) per ∧
    record_action uid (recorded_action req uuid_hex now) g = Ok g1 ∧
    for_each (fun '(cid, reason) g => record_violation (action_id d) cid reason g)
      (collected per).1 g1 = Ok g' ∧
    ok d = bool_decide ((collected per).1 = []) ∧
    alternatives d = list.take 5 (first_occurrences (collected per).2).

(** The suggestion of [_alternatives_for_meeting] that names a time. *)
Definition safe_time_suggestion (max_hour : Z) : string :=
  "Schedule it at " ++ str_of_Z (Z.min max_hour 20)
  ++ ":00 (8pm) instead of after " ++ str_of_Z max_hour ++ ":00.".

(** What is read off a run on the graph model: the flag, the action type,
    the constraint named by each row of [violations], the suggestions, and
    the [VIOLATES] relationships of the store afterwards. *)
Definition summary (r : result (Decision * graph))
  : result (bool * string * list (option pyval) * list string
            * list (string * string * string)) :=
  '(d, g) ← r;
  Ok (ok d, action_type d, (fun row : dict => row !! "constraint_id") <$> violations d,
      alternatives d, map_to_list (violates g)).

(** *** Sample data *)

Definition uuid0 : string := "0123456789abcdef0123456789abcdef".
Definition now0 : string := "2026-01-01T00:00:00".
Definition uuid1 : string := "fedcba9876543210fedcba9876543210".
Definition now1 : string := "2026-01-02T08:30:00".

Definition constraint_record (cid type text : string) (params : dict) : dict :=
  {[ "id" := VStr cid; "type" := VStr type; "severity" := VStr "HARD";
     "text" := VStr text; "params" := VDict params ]}.

Definition no_meetings_after_21 : dict :=
  constraint_record "c-1" "NO_MEETINGS_AFTER_HOUR" "No meetings after 9pm"
    {[ "hour" := VInt 21 ]}.

(** The floats 1000.0 and 1200.0. *)
Definition float_1000 : float := S754_finite false 8796093022208000 (-43).
Definition float_1200 : float := S754_finite false 5277655813324800 (-42).

Definition budget_cap_1000 : dict :=
  constraint_record "c-2" "BUDGET_CAP" "Budget cap $1000"
    {[ "max_amount" := VFloat float_1000 ]}.

(** The float 300.0, and a budget constraint with that cap. *)
Definition float_300 : float := S754_finite false 5277655813324800 (-44).

Definition budget_cap_300 : dict :=
  constraint_record "c-2" "BUDGET_CAP" "Budget cap $300"
    {[ "max_amount" := VFloat float_300 ]}.

Definition no_sharing : dict :=
  constraint_record "c-3" "NO_SHARING_WITH_EXTERNALS"
    "Never share datasets with external contractors"
    {[ "banned_party" := VStr "contractor" ]}.

(** Texts with a time: an after-qualified meridiem hour, an after-qualified
    bare hour, and a bare hour in a request. *)
Definition after_pm_text (H : Z) : string := "no calls after " ++ str_of_Z H ++ "pm".
Definition after_bare_text (H : Z) : string := "no calls after " ++ str_of_Z H.
Definition call_at_text (H : Z) : string := "schedule a call at " ++ str_of_Z H.

(** Constraint records without the parameter their type needs. *)
Definition no_meetings_unset : dict :=
  {[ "id" := VStr "c-1"; "type" := VStr "NO_MEETINGS_AFTER_HOUR" ]}.

Definition budget_cap_unset : dict :=
  {[ "id" := VStr "c-2"; "type" := VStr "BUDGET_CAP"; "params" := VDict ∅ ]}.

(** Four meeting constraints with the hours 5, 6, 7 and 8, and two with the
    same hour. *)
Definition no_meetings_after (cid : string) (hour : Z) : dict :=
  constraint_record cid "NO_MEETINGS_AFTER_HOUR" "No meetings after" {[ "hour" := VInt hour ]}.

Definition four_hours : list dict :=
  [ no_meetings_after "c-5" 5; no_meetings_after "c-6" 6;
    no_meetings_after "c-7" 7; no_meetings_after "c-8" 8 ].

Definition same_hour_twice : list dict :=
  [ no_meetings_after "c-1" 21; no_meetings_after "c-9" 21 ].

(** A store that holds the user and a mirror of the given constraints,
    without their satellites. *)
Definition store_of (nodes : gmap string ConstraintNode) : graph :=
  {| users := {[ "demo_user" ]};
     constraint_nodes := nodes;
     action_nodes := ∅;
     time_windows := ∅;
     resources := ∅;
     has_constraint := set_map (fun cid => ("demo_user", cid)) (dom nodes);
     requested := ∅;
     violates := ∅;
     requires_timewindow := ∅;
     bans_resource := ∅ |}.

Definition node_of (type text : string) (params : dict) : ConstraintNode :=
  {| c_type := type; c_severity := "HARD"; c_text := text; c_params := params |}.

Definition store1 : graph :=
  store_of {[ "c-1" := node_of "NO_MEETINGS_AFTER_HOUR" "No meetings after 9pm"
                         {[ "hour" := VInt 21 ]};
              "c-2" := node_of "BUDGET_CAP" "Budget cap $1000"
                         {[ "max_amount" := VFloat float_1000 ]};
              "c-3" := node_of "NO_SHARING_WITH_EXTERNALS"
                         "Never share datasets with external contractors"
                         {[ "banned_party" := VStr "contractor" ]} ]}.

(** *** The normal form of a text *)

(** The text does not begin with white space. *)
Definition starts_clean (s : string) : bool :=
  match s with
  | "" => true
  | String c _ => negb (is_space c)
  end.

(** The text does not end with white space. *)
Fixpoint ends_clean (s : string) : bool :=
  match s with
  | "" => true
  | String c s' =>
      match s' with
      | "" => negb (is_space c)
      | String _ _ => ends_clean s'
      end
  end.

(** Every white-space character of the text is a space, and the character
    after it is not white space. *)
Fixpoint single_spaced (s : string) : bool :=
  match s with
  | "" => true
  | String c s' =>
      (if is_space c
       then is_char " " c
            && match s' with "" => false | String d _ => negb (is_space d) end
       else true)
      && single_spaced s'
  end.

(** A text in normal form: no white space at either end, words separated by
    one space, and no letter that [str.lower] changes. *)
Definition normal_form (s : string) : Prop :=
  starts_clean s = true ∧ single_spaced s = true ∧ lower s = s.

(** A parsed constraint with another identifier. *)
Definition with_id (c : policy.ParsedConstraint) (uuid_hex : string)
  : policy.ParsedConstraint :=
  {| policy.id := "c-" ++ str_take 8 uuid_hex;
     policy.type := policy.type c;
     policy.severity := policy.severity c;
     policy.text := policy.text c;
     policy.params := policy.params c |}.

(** *** The constraints a check examines *)

(** The constraint type that the check of an action type looks for. *)
Definition checked_type (action_type : string) : option string :=
  if String.eqb action_type SCHEDULE_MEETING then Some policy.NO_MEETINGS_AFTER_HOUR
  else if String.eqb action_type SHARE_DATA then Some policy.NO_SHARING_WITH_EXTERNALS
  else if String.eqb action_type SPEND_MONEY then Some policy.BUDGET_CAP
  else None.

Definition examined (action_type : string) (c : dict) : bool :=
  match checked_type action_type with
  | Some ty => eq_str (dict_get c "type" VNone) ty
  | None => false
  end.

(** The keys of a constraint that [evaluate_request] reads to decide. *)
Definition decisive_keys : list string :=
  ["constraint_id"; "id"; "constraintId"; "type"; "params"].

Definition same_decisive (c c' : dict) : Prop :=
  ∀ k, k ∈ decisive_keys → c !! k = c' !! k.

(** The decision for a request of unknown type. *)
Definition approved (uuid_hex action_type : string) : Decision :=
  {| ok := true; action_id := "a-" ++ str_take 10 uuid_hex; action_type := action_type;
     message := approved_message; violations := []; alternatives := [] |}.

(** *** Declared constraints and later requests *)


(** *** Sample stores for the endpoints *)

(** A remote service that cannot be reached. *)
#[export] Instance unreachable : memmachine_client.Requests unit := {
  memmachine_client.post _ _ _ _ := Raise (StoreError "connection refused");
  memmachine_client.get _ _ _ _ := Raise (StoreError "connection refused");
}.

(** A remote service that answers every call with the given status and an
    empty list of items. *)
Definition answer (status : Z) : memmachine_client.Response :=
  {| memmachine_client.status_code := status;
     memmachine_client.text := "";
     memmachine_client.json := Ok (VDict {[ "items" := VList [] ]}) |}.

(** The first statement of [upsert_constraint] on the graph model: the
    Constraint node with its properties, linked to the user.  The nodes for
    time windows and resources are left out. *)
Definition graph_upsert_node (user_id : string) (c : neo4j_mirror.ConstraintPayload)
    (g : graph) : graph :=
  {| users := users g ∪ {[ user_id ]};
     constraint_nodes :=
       <[ neo4j_mirror.id c :=
            {| c_type := neo4j_mirror.type c; c_severity := neo4j_mirror.severity c;
               c_text := neo4j_mirror.text c; c_params := neo4j_mirror.params c |} ]>
         (constraint_nodes g);
     action_nodes := action_nodes g;
     time_windows := time_windows g;
     resources := resources g;
     has_constraint := has_constraint g ∪ {[ (user_id, neo4j_mirror.id c) ]};
     requested := requested g;
     violates := violates g;
     requires_timewindow := requires_timewindow g;
     bans_resource := bans_resource g |}.

#[export] Instance graph_mirror : neo4j_mirror.Neo4jMirror graph := {
  neo4j_mirror.upsert_constraint u c g := Ok (graph_upsert_node u c g);
}.

(** A graph store that refuses every write. *)
Inductive offline := Offline.

#[export] Instance offline_client : Neo4jClient offline := {
  record_action _ _ _ := Raise (StoreError "service unavailable");
  record_violation _ _ _ _ := Raise (StoreError "service unavailable");
  explain_violations _ _ _ := Raise (StoreError "service unavailable");
}.

#[export] Instance offline_mirror : neo4j_mirror.Neo4jMirror offline := {
  neo4j_mirror.upsert_constraint _ _ _ := Raise (StoreError "service unavailable");
}.

Definition empty_graph : graph :=
  {| users := ∅; constraint_nodes := ∅; action_nodes := ∅; time_windows := ∅;
     resources := ∅; has_constraint := ∅; requested := ∅; violates := ∅;
     requires_timewindow := ∅; bans_resource := ∅ |}.

(** Settings without a remote memory, and settings whose endpoint is made of
    slashes. *)
Definition local_settings : app.Settings :=
  {| app.NEO4J_URI := "bolt://localhost:7687";
     app.MEMMACHINE_ENDPOINT := "";
     app.MEMMACHINE_API_KEY := "";
     app.MEMMACHINE_NAMESPACE := "memory_firewall_demo";
     app.USER_ID := "demo_user" |}.

Definition slash_settings : app.Settings :=
  {| app.NEO4J_URI := "bolt://localhost:7687";
     app.MEMMACHINE_ENDPOINT := "//";
     app.MEMMACHINE_API_KEY := "key";
     app.MEMMACHINE_NAMESPACE := "memory_firewall_demo";
     app.USER_ID := "demo_user" |}.

(** *** Further sample data *)

(** A meeting constraint whose hour is not a number, and one marked SOFT
    with another text. *)
Definition no_meetings_after_late : dict :=
  constraint_record "c-4" "NO_MEETINGS_AFTER_HOUR" "No meetings after late"
    {[ "hour" := VStr "late" ]}.

Definition soft_no_meetings_after_21 : dict :=
  {[ "id" := VStr "c-1"; "type" := VStr "NO_MEETINGS_AFTER_HOUR";
     "severity" := VStr "SOFT"; "text" := VStr "Prefer no late meetings";
     "params" := VDict {[ "hour" := VInt 21 ]} ]}.

Definition demo_client : memmachine_client.MemMachineClient :=
  memmachine_client.new "" "" "".

(** A fallback file with the given items for the user "demo_user". *)
Definition file_of (items : list pyval) : option pyval :=
  Some (VDict {[ "namespace" := VStr "memory_firewall_demo";
                 "users" := VDict {[ "demo_user" := VList items ]} ]}).

End spec.

(** ** Properties *)

Import neo4j_client orchestrator spec.

(** *** The error monad and loops *)

Lemma bind_Ok {A B} (m : result A) (f : A -> result B) (b : B) :
  (m ≫= f) = Ok b ↔ ∃ a, m = Ok a ∧ f a = Ok b.
Proof.
  destruct m as [a|e]; simpl; split.
  - intros H. by exists a.
  - by intros (a' & [= ->] & H).
  - intros [=].
  - by intros (a' & [=] & _).
Qed.

Section Loops.
Context {A : Type}.
Implicit Types (body : A -> findings -> result findings) (cs : list A).

(** A loop whose body only appends yields the initial lists followed by what
    each element added, in order. *)
Lemma for_each_appends body (outcome : A -> findings -> Prop) cs :
  (∀ c st st', body c st = Ok st' →
     ∃ p, outcome c p ∧ st' = ((st.1 ++ p.1)%list, (st.2 ++ p.2)%list)) →
  ∀ st st', for_each body cs st = Ok st' →
    ∃ per, Forall2 outcome cs per ∧
      st' = ((st.1 ++ (collected per).1)%list, (st.2 ++ (collected per).2)%list).
Proof.
  intros Hbody. induction cs as [|c cs IH]; intros st st' Hrun.
  - injection Hrun as <-. exists []. split; [constructor|].
    destruct st; simpl. by rewrite !app_nil_r.
  - cbn [for_each] in Hrun. apply bind_Ok in Hrun as (st1 & Hc & Hrest).
    destruct (Hbody _ _ _ Hc) as (p & Hp & ->).
    destruct (IH _ _ Hrest) as (per & Hper & ->).
    exists (p :: per). split; [by constructor|].
    unfold collected; cbn. by rewrite !app_assoc.
Qed.

End Loops.

(** A loop returns when its body returns on each element. *)
Lemma for_each_returns {A S} (body : A -> S -> result S) cs :
  (∀ c, c ∈ cs → ∀ st, ∃ st', body c st = Ok st') →
  ∀ st, ∃ st', for_each body cs st = Ok st'.
Proof.
  induction cs as [|c cs IH]; intros Hbody st.
  - by exists st.
  - destruct (Hbody c (list_elem_of_here _ _) st) as [st1 H1].
    destruct (IH (fun c' Hc' => Hbody c' (list_elem_of_further _ _ _ Hc')) st1) as [st' H'].
    exists st'. cbn [for_each]. by rewrite H1.
Qed.

Lemma meeting_body_outcome rh c st st' :
  meeting_body rh c st = Ok st' →
  ∃ p, meeting_outcome rh c p ∧ st' = ((st.1 ++ p.1)%list, (st.2 ++ p.2)%list).
Proof.
  unfold meeting_body, meeting_outcome.
  destruct (eq_str _ _).
  - intros H. apply bind_Ok in H as (h & Hh & H).
    destruct rh as [r|].
    + destruct (Z.gtb_spec r h) as [Hlt|Hge]; injection H as <-.
      * eexists (_, _). split; [|reflexivity]. exists h. split; [done|].
        left. by exists r.
      * exists ([], []). split.
        -- exists h. split; [done|]. right. split; [|done].
           intros (r' & [= <-] & ?). lia.
        -- destruct st; simpl. by rewrite !app_nil_r.
    + injection H as <-. exists ([], []). split.
      * exists h. split; [done|]. right. split; [|done]. by intros (r' & [=] & _).
      * destruct st; simpl. by rewrite !app_nil_r.
  - intros [= <-]. exists ([], []). split; [done|].
    destruct st; simpl. by rewrite !app_nil_r.
Qed.

Lemma sharing_body_outcome c st st' :
  sharing_body c st = Ok st' →
  ∃ p, sharing_outcome true c p ∧ st' = ((st.1 ++ p.1)%list, (st.2 ++ p.2)%list).
Proof.
  unfold sharing_body, sharing_outcome.
  destruct (eq_str _ _); intros [= <-].
  - eexists (_, _). split; [|reflexivity]. by left.
  - exists ([], []). split; [done|]. destruct st; simpl. by rewrite !app_nil_r.
Qed.

Lemma budget_body_outcome amt c st st' :
  budget_body amt c st = Ok st' →
  ∃ p, budget_outcome amt c p ∧ st' = ((st.1 ++ p.1)%list, (st.2 ++ p.2)%list).
Proof.
  unfold budget_body, budget_outcome.
  destruct (eq_str _ _).
  - intros H. apply bind_Ok in H as (cap & Hcap & H).
    destruct amt as [a|].
    + destruct (float_gt cap _ && float_gt a cap) eqn:Hgt; injection H as <-.
      * apply andb_prop in Hgt as [H0 Ha].
        eexists (_, _). split; [|reflexivity]. exists cap. split; [done|].
        left. by exists a.
      * exists ([], []). split.
        -- exists cap. split; [done|]. right. split; [|done].
           intros (a' & [= <-] & H0 & Ha). by rewrite H0, Ha in Hgt.
        -- destruct st; simpl. by rewrite !app_nil_r.
    + injection H as <-. exists ([], []). split.
      * exists cap. split; [done|]. right. split; [|done]. by intros (a' & [=] & _).
      * destruct st; simpl. by rewrite !app_nil_r.
  - intros [= <-]. exists ([], []). split; [done|].
    destruct st; simpl. by rewrite !app_nil_r.
Qed.

(** *** Deduplication of the suggestions *)

Lemma dedup_loop_spec l u (seen : gset string) :
  (∀ x, x ∈ seen ↔ x ∈ u) →
  (foldl dedup_step (u, seen) l).1
  = (u ++ filter (fun b => b ∉ u) (first_occurrences l))%list.
Proof.
  revert u seen. induction l as [|a l IH]; intros u seen Hseen.
  - simpl. by rewrite app_nil_r.
  - cbn [foldl first_occurrences]. unfold dedup_step at 2. cbn [fst snd].
    destruct (decide (a ∈ seen)) as [Hin|Hnin].
    + rewrite (IH _ _ Hseen). f_equal.
      rewrite filter_cons_False by (rewrite <- Hseen; auto).
      rewrite list_filter_filter. apply list_filter_iff.
      intros x. simpl. split; [|by intros [? _]]. intros Hx. split; [done|].
      intros ->. apply Hx. by apply Hseen.
    + rewrite IH.
      * rewrite <- app_assoc. f_equal. simpl.
        rewrite filter_cons_True by (by rewrite <- Hseen).
        f_equal. rewrite list_filter_filter. apply list_filter_iff.
        intros x. simpl. rewrite not_elem_of_app, list_elem_of_singleton. tauto.
      * intros x. rewrite elem_of_union, elem_of_singleton, elem_of_app,
          list_elem_of_singleton, Hseen. tauto.
Qed.

(** The loop with the [seen] set computes the list of first occurrences. *)
Lemma dedup_alternatives_spec l : dedup_alternatives l = first_occurrences l.
Proof.
  unfold dedup_alternatives. rewrite (dedup_loop_spec l [] ∅).
  - simpl. induction (first_occurrences l) as [|x k IHk]; [done|].
    rewrite filter_cons_True by apply not_elem_of_nil. by f_equal.
  - intros x. rewrite elem_of_empty, elem_of_nil. tauto.
Qed.

Lemma first_occurrences_elem_of l x : x ∈ first_occurrences l ↔ x ∈ l.
Proof.
  induction l as [|a l IH]; [done|]. simpl.
  rewrite !elem_of_cons, list_elem_of_filter, IH.
  destruct (decide (x = a)); tauto.
Qed.

Lemma first_occurrences_NoDup l : NoDup (first_occurrences l).
Proof.
  induction l as [|a l IH]; simpl; [constructor|].
  constructor.
  - rewrite list_elem_of_filter. tauto.
  - by apply NoDup_filter.
Qed.

Lemma first_occurrences_sublist l : first_occurrences l `sublist_of` l.
Proof.
  induction l as [|a l IH]; simpl; [done|].
  apply sublist_skip. etrans; [apply sublist_filter|done].
Qed.

(** A list without repetition is left as it is. *)
Lemma first_occurrences_id l : NoDup l → first_occurrences l = l.
Proof.
  induction 1 as [|a l Hnin Hnd IH]; simpl; [done|].
  rewrite IH. f_equal. clear -Hnin.
  induction l as [|b l IHl]; [done|].
  apply not_elem_of_cons in Hnin as [Hne Hnin].
  rewrite filter_cons_True by done. f_equal. auto.
Qed.

(** The first entry of a list is the first entry of its deduplication, and an
    entry comes before another one in the result only if its first
    occurrence does. *)
Lemma first_occurrences_app l k :
  first_occurrences (l ++ k)
  = (first_occurrences l ++ filter (fun b => b ∉ l) (first_occurrences k))%list.
Proof.
  induction l as [|a l IH]; simpl.
  - induction (first_occurrences k) as [|x k' IHk]; [done|].
    rewrite filter_cons_True by apply not_elem_of_nil. by f_equal.
  - f_equal. rewrite IH, filter_app. f_equal.
    rewrite list_filter_filter. apply list_filter_iff.
    intros x. simpl. rewrite not_elem_of_cons. tauto.
Qed.

(** *** The three checks *)

Lemma for_each_invariant {A S} (body : A -> S -> result S) (P : S -> Prop) cs :
  (∀ c st st', P st → body c st = Ok st' → P st') →
  ∀ st st', P st → for_each body cs st = Ok st' → P st'.
Proof.
  intros Hbody. induction cs as [|c cs IH]; intros st st' HP Hrun.
  - by injection Hrun as <-.
  - cbn [for_each] in Hrun. apply bind_Ok in Hrun as (st1 & Hc & Hrest). eauto.
Qed.

Lemma run_checks_meeting req ncs :
  run_checks SCHEDULE_MEETING req ncs
  = for_each (meeting_body (_parse_time_to_hour req)) ncs ([], []).
Proof.
  unfold run_checks.
  change (String.eqb SCHEDULE_MEETING SCHEDULE_MEETING) with true.
  change (String.eqb SCHEDULE_MEETING SHARE_DATA) with false.
  change (String.eqb SCHEDULE_MEETING SPEND_MONEY) with false.
  cbv iota. by destruct (for_each _ _ _).
Qed.

Lemma run_checks_sharing req ncs :
  run_checks SHARE_DATA req ncs
  = if _mentions_external_party req then for_each sharing_body ncs ([], [])
    else Ok ([], []).
Proof.
  unfold run_checks.
  change (String.eqb SHARE_DATA SCHEDULE_MEETING) with false.
  change (String.eqb SHARE_DATA SHARE_DATA) with true.
  change (String.eqb SHARE_DATA SPEND_MONEY) with false.
  cbv iota. simpl. destruct (_mentions_external_party req); [|done].
  by destruct (for_each _ _ _).
Qed.

Lemma run_checks_spending req ncs :
  run_checks SPEND_MONEY req ncs
  = for_each (budget_body (_parse_amount req)) ncs ([], []).
Proof.
  unfold run_checks.
  change (String.eqb SPEND_MONEY SCHEDULE_MEETING) with false.
  change (String.eqb SPEND_MONEY SHARE_DATA) with false.
  change (String.eqb SPEND_MONEY SPEND_MONEY) with true.
  cbv iota. reflexivity.
Qed.

Lemma run_checks_unknown req ncs : run_checks UNKNOWN req ncs = Ok ([], []).
Proof. reflexivity. Qed.

Lemma run_checks_quiet at_ req ncs st :
  run_checks at_ req ncs = Ok st → quiet st.
Proof.
  assert (Hnil : ∀ {X} (l : list X) x, (l ++ [x])%list = [] → False)
    by (intros X [|] ?; discriminate).
  assert (Hm : ∀ rh c st st', quiet st → meeting_body rh c st = Ok st' → quiet st').
  { intros rh c s s' Hq Hb. apply meeting_body_outcome in Hb as (p & Hp & ->).
    unfold meeting_outcome in Hp. destruct (eq_str _ _).
    - destruct Hp as (h & _ & [(r & _ & _ & ->)|(_ & ->)]).
      + intros Hs; simpl in Hs. by apply Hnil in Hs.
      + intros Hs; simpl in *. rewrite app_nil_r in *. auto.
    - subst p. intros Hs; simpl in *. rewrite app_nil_r in *. auto. }
  assert (Hs : ∀ c st st', quiet st → sharing_body c st = Ok st' → quiet st').
  { intros c s s' Hq Hb. apply sharing_body_outcome in Hb as (p & Hp & ->).
    unfold sharing_outcome in Hp. destruct (eq_str _ _).
    - destruct Hp as [(_ & ->)|([=] & _)].
      intros Hs; simpl in Hs. by apply Hnil in Hs.
    - subst p. intros Hs; simpl in *. rewrite app_nil_r in *. auto. }
  assert (Hb : ∀ amt c st st', quiet st → budget_body amt c st = Ok st' → quiet st').
  { intros amt c s s' Hq Hb. apply budget_body_outcome in Hb as (p & Hp & ->).
    unfold budget_outcome in Hp. destruct (eq_str _ _).
    - destruct Hp as (h & _ & [(r & _ & _ & _ & ->)|(_ & ->)]).
      + intros Hs'; simpl in Hs'. by apply Hnil in Hs'.
      + intros Hs'; simpl in *. rewrite app_nil_r in *. auto.
    - subst p. intros Hs'; simpl in *. rewrite app_nil_r in *. auto. }
  unfold run_checks. intros H.
  apply bind_Ok in H as (st1 & H1 & H). apply bind_Ok in H as (st2 & H2 & H3).
  assert (quiet st1) as Q1.
  { destruct (String.eqb at_ SCHEDULE_MEETING).
    - eapply for_each_invariant; [apply Hm| |exact H1]. done.
    - by injection H1 as <-. }
  assert (quiet st2) as Q2.
  { destruct (String.eqb at_ SHARE_DATA); [|by injection H2 as <-].
    destruct (_mentions_external_party req); [|by injection H2 as <-].
    eapply for_each_invariant; [apply Hs|exact Q1|exact H2]. }
  destruct (String.eqb at_ SPEND_MONEY); [|by injection H3 as <-].
  eapply for_each_invariant; [apply Hb|exact Q2|exact H3].
Qed.

(** *** The decision *)

Section Decision.
Context `{Neo4jClient G}.

(** How a returned decision comes from the checks and the store. *)
Lemma evaluate_request_inv uid req cs u t (g : G) d g' :
  evaluate_request uid req cs u t g = Ok (d, g') →
  ∃ g1 vs alts,
    record_action uid (recorded_action req u t) g = Ok g1 ∧
    run_checks (classify_action req) req (map normalize_constraint cs) = Ok (vs, alts) ∧
    for_each (fun '(cid, reason) g => record_violation ("a-" ++ str_take 10 u) cid reason g)
      vs g1 = Ok g' ∧
    action_id d = "a-" ++ str_take 10 u ∧
    action_type d = classify_action req ∧
    alternatives d = list.take 5 (dedup_alternatives alts) ∧
    ((vs = [] ∧ ok d = true ∧ message d = approved_message ∧ violations d = [])
     ∨ (vs ≠ [] ∧ ok d = false ∧ message d = blocked_message
        ∧ explain_violations uid (action_id d) g' = Ok (violations d))).
Proof.
  unfold evaluate_request. intros Hrun.
  apply bind_Ok in Hrun as (g1 & Hg1 & Hrun).
  apply bind_Ok in Hrun as ([vs alts] & Hchk & Hrun).
  exists g1, vs, alts. split; [exact Hg1|]. split; [exact Hchk|].
  destruct vs as [|v vs].
  - injection Hrun as <- <-. simpl.
    pose proof (run_checks_quiet _ _ _ _ Hchk eq_refl) as Hq. simpl in Hq. subst alts.
    repeat split; auto.
  - apply bind_Ok in Hrun as (g2 & Hg2 & Hrun).
    apply bind_Ok in Hrun as (rows & Hrows & Hrun).
    injection Hrun as <- <-. simpl.
    repeat split; auto.
Qed.

(** A returned decision is decided by the outcomes of the constraints, once
    the lists of the checks are known to be what the constraints add. *)
Lemma decided_by_intro (outcome : normalized -> findings -> Prop)
    uid req cs u t (g : G) d g' :
  evaluate_request uid req cs u t g = Ok (d, g') →
  (∀ st, run_checks (classify_action req) req (map normalize_constraint cs) = Ok st →
     ∃ per, Forall2 outcome (map normalize_constraint cs) per ∧ st = collected per) →
  decided_by outcome uid req cs u t g d g'.
Proof.
  intros Hrun Hout.
  apply evaluate_request_inv in Hrun
    as (g1 & vs & alts & Hg1 & Hchk & Hrec & Hid & _ & Halts & Hok).
  destruct (Hout _ Hchk) as (per & Hper & Hst).
  exists per, g1. rewrite <- Hst, Hid. cbn [fst snd].
  repeat split; try done.
  - destruct Hok as [(-> & -> & _)|(Hne & -> & _)]; symmetry.
    + by apply bool_decide_eq_true.
    + by apply bool_decide_eq_false.
  - by rewrite <- dedup_alternatives_spec.
Qed.

End Decision.

(** On the graph model the store never fails, so a run returns as soon as
    the checks do. *)
Lemma evaluate_request_returns uid req cs u t (g : graph) st :
  run_checks (classify_action req) req (map normalize_constraint cs) = Ok st →
  ∃ d g', evaluate_request uid req cs u t g = Ok (d, g').
Proof.
  intros Hchk. unfold evaluate_request. cbn [record_action graph_client mbind result_bind].
  rewrite Hchk. destruct st as [[|v vs] alts]; cbn [mbind result_bind]; [eauto|].
  match goal with |- context [for_each ?f ?l ?g0] =>
    assert (∃ g2, for_each f l g0 = Ok g2) as [g2 ->] end.
  { apply for_each_returns. intros [cid reason] _ g0. eauto. }
  cbn. eauto.
Qed.

(** *** Words survive normalization

    A word without white space that is already in lower case occurs in the
    normalized text whenever it occurs in the text. *)

Lemma is_char_eq a b : is_char a b = true ↔ a = b.
Proof. apply Ascii.eqb_eq. Qed.

Lemma contains_nil w : w ≠ "" → contains w "" = false.
Proof. by destruct w. Qed.

Lemma contains_cons w c s : contains w s = true → contains w (String c s) = true.
Proof. intros H. cbn [contains]. rewrite H. apply orb_true_r. Qed.

Lemma contains_startswith w s : startswith w s = true → contains w s = true.
Proof. intros H. destruct s; cbn [contains]; by rewrite H. Qed.

Lemma contains_inv w c s :
  contains w (String c s) = true →
  startswith w (String c s) = true ∨ contains w s = true.
Proof. cbn [contains]. intros H. by apply orb_prop in H. Qed.

Lemma startswith_lower w s :
  startswith w s = true → startswith (lower w) (lower s) = true.
Proof.
  revert s. induction w as [|a w IH]; intros [|b s]; simpl; try done.
  intros H. apply andb_prop in H as [Hab Hw]. apply is_char_eq in Hab as ->.
  apply andb_true_intro. split; [by apply is_char_eq | auto].
Qed.

Lemma contains_lower w s : contains w s = true → contains (lower w) (lower s) = true.
Proof.
  induction s as [|c s IH].
  - destruct w; [done|]. simpl. discriminate.
  - intros [H|H]%contains_inv.
    + apply contains_startswith. by apply (startswith_lower w (String c s)).
    + cbn [lower]. apply contains_cons. auto.
Qed.

Lemma startswith_rstrip w s :
  no_space w = true → startswith w s = true → startswith w (rstrip s) = true.
Proof.
  revert s. induction w as [|a w IH]; intros [|b s]; simpl; try done.
  intros [Ha Hw]%andb_prop [Hab Hs]%andb_prop.
  apply is_char_eq in Hab as <-. apply negb_true_iff in Ha.
  specialize (IH s Hw Hs).
  destruct (rstrip s) as [|c r] eqn:Hr.
  - rewrite Ha. simpl. rewrite (proj2 (is_char_eq a a) eq_refl). by destruct w.
  - simpl. by rewrite (proj2 (is_char_eq a a) eq_refl).
Qed.

Lemma contains_rstrip w s :
  w ≠ "" → no_space w = true → contains w s = true → contains w (rstrip s) = true.
Proof.
  intros Hne Hw. induction s as [|c s IH]; [done|].
  intros [H|H]%contains_inv.
  - apply contains_startswith. by apply startswith_rstrip.
  - specialize (IH H). cbn [rstrip].
    destruct (rstrip s) as [|c' r] eqn:Hr.
    + by rewrite contains_nil in IH.
    + by apply contains_cons.
Qed.

Lemma contains_lstrip w s :
  w ≠ "" → no_space w = true → contains w s = true → contains w (lstrip s) = true.
Proof.
  intros Hne Hw. induction s as [|c s IH]; [done|].
  intros Hc. cbn [lstrip]. destruct (is_space c) eqn:Hsp; [|done].
  apply contains_inv in Hc as [H|H]; [|auto].
  destruct w as [|a w]; [done|]. simpl in H, Hw.
  apply andb_prop in H as [->%is_char_eq _]. by rewrite Hsp in Hw.
Qed.

Lemma startswith_sub_spaces w s f :
  no_space w = true → startswith w s = true →
  startswith w (sub_spaces f s) = true.
Proof.
  revert s f. induction w as [|a w IH]; intros [|b s] f; simpl; try done.
  intros [Ha Hw]%andb_prop [Hab Hs]%andb_prop.
  apply is_char_eq in Hab as <-. apply negb_true_iff in Ha. rewrite Ha.
  simpl. rewrite (proj2 (is_char_eq a a) eq_refl). simpl. by apply IH.
Qed.

Lemma contains_sub_spaces w s f :
  no_space w = true → contains w s = true → contains w (sub_spaces f s) = true.
Proof.
  intros Hw. revert f. induction s as [|c s IH]; intros f; [done|].
  intros [H|H]%contains_inv.
  - apply contains_startswith. by apply startswith_sub_spaces.
  - cbn [sub_spaces]. destruct (is_space c); [destruct f|]; auto using contains_cons.
Qed.

Lemma contains_norm w s :
  w ≠ "" → no_space w = true → lower w = w →
  contains w s = true → contains w (_norm s) = true.
Proof.
  intros Hne Hsp Hlow H. unfold _norm, strip.
  apply contains_sub_spaces; [done|]. rewrite <- Hlow.
  apply contains_lower, contains_rstrip, contains_lstrip; auto.
Qed.

Lemma any_in_intro ws w t : w ∈ ws → contains w t = true → any_in ws t = true.
Proof.
  intros Hin Hc. unfold any_in. apply existsb_exists. exists w.
  split; [by apply list_elem_of_In | done].
Qed.

(** *** The extractors *)

Lemma is_hour_spec h : policy.is_hour h = true ↔ 0 ≤ h ≤ 23.
Proof. unfold policy.is_hour. rewrite andb_true_iff, !Z.leb_le. tauto. Qed.

Lemma after_meridiem_hour_range t h :
  policy.after_meridiem_hour t = Some h → 0 ≤ h ≤ 23.
Proof.
  unfold policy.after_meridiem_hour. destruct (re_search _ _) as [m|]; [|done].
  cbv zeta. destruct (policy.is_hour _) eqn:Hh; [|done].
  intros [= <-]. by apply is_hour_spec.
Qed.

Lemma after_bare_hour_range t h :
  policy.after_bare_hour t = Some h → 0 ≤ h ≤ 23.
Proof.
  unfold policy.after_bare_hour. destruct (re_search _ _) as [m|]; [|done].
  cbv zeta. destruct (policy.is_hour _) eqn:Hh; [|done].
  intros [= <-]. by apply is_hour_spec.
Qed.

Lemma policy_parse_time_range text h :
  policy._parse_time_to_hour text = Some h → 0 ≤ h ≤ 23.
Proof.
  unfold policy._parse_time_to_hour. cbv zeta.
  destruct (policy.after_meridiem_hour _) as [h'|] eqn:Hm.
  - intros [= <-]. eauto using after_meridiem_hour_range.
  - apply after_bare_hour_range.
Qed.

Lemma parse_time_range text h :
  _parse_time_to_hour text = Some h → 0 ≤ h ≤ 23.
Proof.
  unfold _parse_time_to_hour, meridiem_time_hour, clock_time_hour. cbv zeta.
  destruct (re_search meridiem_time_re _) as [m|].
  - destruct (policy.is_hour _) eqn:Hh.
    + intros [= <-]. by apply is_hour_spec.
    + destruct (re_search clock_time_re _) as [m2|]; [|done].
      destruct (policy.is_hour (decimal_value _)) eqn:Hh2; [|done].
      intros [= <-]. by apply is_hour_spec.
  - destruct (re_search clock_time_re _) as [m2|]; [|done].
    destruct (policy.is_hour (decimal_value _)) eqn:Hh2; [|done].
    intros [= <-]. by apply is_hour_spec.
Qed.

(** A pattern that begins with a literal character only matches in a text
    that has this character. *)
Lemma search_from_first_char a r prev s m :
  search_from (Cat (Chr a) r) prev s = Some m → contains (String a "") s = true.
Proof.
  revert prev. induction s as [|c s IH]; intros prev; cbn [search_from rmatch Chr].
  - done.
  - destruct (is_char a c) eqn:Hc.
    + intros _. apply contains_startswith. cbn. by rewrite Hc.
    + intros H. apply contains_cons. eauto.
Qed.

Lemma parse_amount_dollar text a :
  _parse_amount text = Some a → contains "$" (_norm text) = true.
Proof.
  unfold _parse_amount. cbv zeta.
  destruct (re_search policy.dollar_re _) as [m|] eqn:Hs; [|done].
  intros _. by apply search_from_first_char in Hs.
Qed.

Lemma meridiem_hour_pm h : h ≠ 12 → policy.meridiem_hour h "pm" = h + 12.
Proof.
  intros Hh. unfold policy.meridiem_hour. simpl.
  by rewrite (proj2 (Z.eqb_neq h 12) Hh).
Qed.

Lemma meridiem_hour_am h : h ≠ 12 → policy.meridiem_hour h "am" = h.
Proof.
  intros Hh. unfold policy.meridiem_hour. simpl.
  by rewrite (proj2 (Z.eqb_neq h 12) Hh).
Qed.

(** *** What a match consumes and captures *)

Lemma length_append (a b : string) :
  String.length (a ++ b) = (String.length a + String.length b)%nat.
Proof. induction a as [|c a IH]; [done|]. cbn. by rewrite <- IH. Qed.

Lemma str_take_app w s :
  str_take (String.length (w ++ s) - String.length s) (w ++ s) = w.
Proof.
  rewrite length_append. replace (_ + _ - _)%nat with (String.length w) by lia.
  induction w as [|c w IH]; simpl; [by destruct s|]. by rewrite IH.
Qed.

Lemma append_cons x (a b : string) : String x a ++ b = String x (a ++ b).
Proof. reflexivity. Qed.

Lemma append_assoc (a b c : string) : (a ++ b) ++ c = a ++ (b ++ c).
Proof. induction a as [|x a IH]; [done|]. by rewrite !append_cons, IH. Qed.

Lemma append_nil_r (a : string) : a ++ "" = a.
Proof. induction a as [|x a IH]; [done|]. by rewrite append_cons, IH. Qed.

Section Soundness.
Context {R : Type}.
Implicit Types (k : @cont R) (x : R).

Lemma rep_stop p lo hi prev s gs k x :
  match lo with O => k prev s gs | S _ => None end = Some x →
  ∃ w s' prev', s = w ++ s' ∧ lang (Rep p lo hi) w ∧ k prev' s' gs = Some x.
Proof.
  destruct lo; [|done]. intros H. exists "", s, prev.
  repeat split; try done. simpl. lia.
Qed.

Lemma rep_sound p k s : ∀ lo hi prev gs x,
  rep p lo hi prev s gs k = Some x →
  ∃ w s' prev', s = w ++ s' ∧ lang (Rep p lo hi) w ∧ k prev' s' gs = Some x.
Proof.
  induction s as [|c s IH]; intros lo hi prev gs x; cbn [rep].
  - destruct hi as [[|n]|]; apply rep_stop.
  - assert (Hmore : ∀ hi', (∀ n, hi = Some n → ∃ n', n = S n' ∧ hi' = Some n') →
              (hi = None → hi' = None) →
              rep p (Nat.pred lo) hi' (Some c) s gs k = Some x → p c = true →
              ∃ w s' prev', String c s = w ++ s' ∧ lang (Rep p lo hi) w
                            ∧ k prev' s' gs = Some x).
    { intros hi' Hsome Hnone Hr Hc.
      apply IH in Hr as (w & s' & prev' & -> & (Hall & Hlo & Hup) & Hk).
      exists (String c w), s', prev'. split; [done|]. split; [|done].
      simpl. rewrite Hc, Hall. split; [done|]. split; [lia|].
      intros n Hn. destruct (Hsome n Hn) as (n' & -> & Hn').
      specialize (Hup n' Hn'). lia. }
    destruct hi as [[|n]|]; [apply rep_stop| |];
      (destruct (p c) eqn:Hc; [|apply rep_stop]);
      (destruct (rep p (Nat.pred lo) _ (Some c) s gs k) as [r|] eqn:Hr; [|apply rep_stop]);
      intros [= ->]; refine (Hmore _ _ _ Hr eq_refl); try done.
    intros ? [= <-]. by exists n.
Qed.

Lemma rmatch_sound r : ∀ prev s gs k x,
  rmatch r prev s gs k = Some x →
  ∃ w s' prev' gs',
    s = w ++ s' ∧ lang r w ∧ k prev' s' gs' = Some x
    ∧ (∀ j, j ∉ group_ids r → gs' !! j = gs !! j)
    ∧ captured r w gs'.
Proof.
  induction r as [|p|r1 IH1 r2 IH2|r1 IH1 r2 IH2|r1 IH1|p lo hi|i r1 IH1|];
    intros prev s gs k x; cbn [rmatch].
  - intros H. exists "", s, prev, gs. repeat split; eauto.
  - destruct s as [|c s]; [done|]. destruct (p c) eqn:Hc; [|done].
    intros H. exists (String c ""), s, (Some c), gs.
    split; [done|]. split; [by exists c|]. repeat split; eauto.
  - intros H.
    apply IH1 in H as (w1 & s1 & p1 & g1 & -> & Hl1 & H & Hf1 & _).
    apply IH2 in H as (w2 & s2 & p2 & g2 & -> & Hl2 & H & Hf2 & _).
    exists (w1 ++ w2), s2, p2, g2. rewrite append_assoc.
    repeat split; eauto.
    + by exists w1, w2.
    + intros j Hj. simpl in Hj. apply not_elem_of_app in Hj as [? ?].
      rewrite Hf2, Hf1; auto.
  - destruct (rmatch r1 prev s gs k) as [y|] eqn:H1.
    + intros [= ->]. apply IH1 in H1 as (w & s' & p' & g' & -> & Hl & H & Hf & _).
      exists w, s', p', g'. repeat split; eauto; [by left|].
      intros j Hj. simpl in Hj. apply not_elem_of_app in Hj as [? ?]. auto.
    + intros H2. apply IH2 in H2 as (w & s' & p' & g' & -> & Hl & H & Hf & _).
      exists w, s', p', g'. repeat split; eauto; [by right|].
      intros j Hj. simpl in Hj. apply not_elem_of_app in Hj as [? ?]. auto.
  - destruct (rmatch r1 prev s gs k) as [y|] eqn:H1.
    + intros [= ->]. apply IH1 in H1 as (w & s' & p' & g' & -> & Hl & H & Hf & _).
      exists w, s', p', g'. repeat split; eauto. by left.
    + intros H. exists "", s, prev, gs. repeat split; eauto. by right.
  - intros H. apply rep_sound in H as (w & s' & p' & -> & Hl & H).
    exists w, s', p', gs. repeat split; eauto; apply Hl.
  - intros H. apply IH1 in H as (w & s' & p' & g' & -> & Hl & H & Hf & _).
    rewrite str_take_app in H.
    exists w, s', p', (<[i := w]> g'). repeat split; eauto.
    + intros j Hj. simpl in Hj. apply not_elem_of_cons in Hj as [? ?].
      rewrite lookup_insert_ne by done. auto.
    + simpl. apply lookup_insert_eq.
  - destruct (xorb _ _); [|done]. intros H. exists "", s, prev, gs. repeat split; eauto.
Qed.

End Soundness.

(** A search returns the groups of a match of the whole pattern at some
    position of the text. *)
Lemma search_from_inv r prev s m :
  search_from r prev s = Some m →
  ∃ prev' s', rmatch r prev' s' ∅ (fun _ _ gs => Some gs) = Some m.
Proof.
  revert prev. induction s as [|c s IH]; intros prev; cbn [search_from];
    destruct (rmatch r prev _ ∅ _) as [gs|] eqn:Hm; try done.
  - intros [= <-]. eauto.
  - intros [= <-]. eauto.
  - eauto.
Qed.

Lemma rmatch_cat {R} r1 r2 prev s gs (k : @cont R) x :
  rmatch (Cat r1 r2) prev s gs k = Some x →
  ∃ w s' prev' gs',
    s = w ++ s' ∧ lang r1 w ∧ rmatch r2 prev' s' gs' k = Some x
    ∧ (∀ j, j ∉ group_ids r1 → gs' !! j = gs !! j)
    ∧ captured r1 w gs'.
Proof. cbn [rmatch]. apply rmatch_sound. Qed.

Lemma rmatch_end prev s gs (m : groups) :
  rmatch Eps prev s gs (fun _ _ gs => Some gs) = Some m → m = gs.
Proof. by intros [= <-]. Qed.

(** One step through a sequence: the next component consumed [w], and
    [Hf] and [Hc] say what it did to the groups. *)
Ltac step H w Hl Hf Hc :=
  let s' := fresh "s" in let p' := fresh "p" in let g' := fresh "g" in
  let Hs := fresh "Hs" in
  apply rmatch_cat in H as (w & s' & p' & g' & Hs & Hl & H & Hf & Hc); clear Hs.

(** *** What the groups of the program's patterns hold *)

Lemma dollar_group t m :
  re_search policy.dollar_re t = Some m →
  ∃ w, m !! 1%nat = Some w ∧ lang policy.number_re w.
Proof.
  intros (prev & s & H)%search_from_inv.
  unfold policy.dollar_re, Seq in H. cbn [foldr] in H.
  step H w0 Hl0 Hf0 Hc0. step H w1 Hl1 Hf1 Hc1. step H w2 Hl2 Hf2 Hc2.
  apply rmatch_end in H as ->. exists w2. split; [exact Hc2|exact Hl2].
Qed.

Lemma labelled_group t m :
  re_search policy.labelled_re t = Some m →
  ∃ w, m !! 1%nat = Some w ∧ lang policy.number_re w.
Proof.
  intros (prev & s & H)%search_from_inv.
  unfold policy.labelled_re, Seq in H. cbn [foldr] in H.
  step H w0 Hl0 Hf0 Hc0. step H w1 Hl1 Hf1 Hc1. step H w2 Hl2 Hf2 Hc2.
  step H w3 Hl3 Hf3 Hc3. step H w4 Hl4 Hf4 Hc4. step H w5 Hl5 Hf5 Hc5.
  step H w6 Hl6 Hf6 Hc6.
  apply rmatch_end in H as ->. exists w5. split; [|exact Hl5].
  rewrite Hf6; [exact Hc5|]. apply not_elem_of_nil.
Qed.

Lemma after_meridiem_groups t m :
  re_search policy.after_meridiem_re t = Some m →
  ∃ w1 w2, m !! 1%nat = Some w1 ∧ lang digits12 w1
           ∧ m !! 2%nat = Some w2 ∧ lang policy.meridiem_re w2.
Proof.
  intros (prev & s & H)%search_from_inv.
  unfold policy.after_meridiem_re, Seq in H. cbn [foldr] in H.
  step H w0 Hl0 Hf0 Hc0. step H w1 Hl1 Hf1 Hc1. step H w2 Hl2 Hf2 Hc2.
  step H w3 Hl3 Hf3 Hc3. step H w4 Hl4 Hf4 Hc4. step H w5 Hl5 Hf5 Hc5.
  step H w6 Hl6 Hf6 Hc6.
  apply rmatch_end in H as ->. exists w3, w5. cbn in Hc3, Hc5.
  rewrite !Hf6 by apply not_elem_of_nil.
  split; [|split; [exact Hl3|split; [exact Hc5|exact Hl5]]].
  rewrite Hf5, Hf4; [done|apply not_elem_of_nil|].
  cbn. rewrite !elem_of_cons, elem_of_nil. lia.
Qed.

Lemma after_bare_group t m :
  re_search policy.after_bare_re t = Some m →
  ∃ w1, m !! 1%nat = Some w1 ∧ lang digits12 w1.
Proof.
  intros (prev & s & H)%search_from_inv.
  unfold policy.after_bare_re, Seq in H. cbn [foldr] in H.
  step H w0 Hl0 Hf0 Hc0. step H w1 Hl1 Hf1 Hc1. step H w2 Hl2 Hf2 Hc2.
  step H w3 Hl3 Hf3 Hc3. step H w4 Hl4 Hf4 Hc4. step H w5 Hl5 Hf5 Hc5.
  apply rmatch_end in H as ->. exists w3. cbn in Hc3.
  rewrite Hf5, Hf4 by apply not_elem_of_nil. split; [exact Hc3|exact Hl3].
Qed.

Lemma meridiem_time_groups t m :
  re_search meridiem_time_re t = Some m →
  ∃ w1 w3, m !! 1%nat = Some w1 ∧ lang digits12 w1
           ∧ m !! 3%nat = Some w3 ∧ lang policy.meridiem_re w3.
Proof.
  intros (prev & s & H)%search_from_inv.
  unfold meridiem_time_re, Seq in H. cbn [foldr] in H.
  step H w0 Hl0 Hf0 Hc0. step H w1 Hl1 Hf1 Hc1. step H w2 Hl2 Hf2 Hc2.
  step H w3 Hl3 Hf3 Hc3. step H w4 Hl4 Hf4 Hc4. step H w5 Hl5 Hf5 Hc5.
  apply rmatch_end in H as ->. exists w1, w4. cbn in Hc1, Hc4.
  rewrite !Hf5 by apply not_elem_of_nil.
  split; [|split; [exact Hl1|split; [exact Hc4|exact Hl4]]].
  rewrite Hf4, Hf3, Hf2; [done| |apply not_elem_of_nil|];
    cbn; rewrite !elem_of_cons, elem_of_nil; lia.
Qed.

Lemma clock_time_group t m :
  re_search clock_time_re t = Some m →
  ∃ w1, m !! 1%nat = Some w1 ∧ lang digits12 w1.
Proof.
  intros (prev & s & H)%search_from_inv.
  unfold clock_time_re, Seq in H. cbn [foldr] in H.
  step H w0 Hl0 Hf0 Hc0. step H w1 Hl1 Hf1 Hc1. step H w2 Hl2 Hf2 Hc2.
  step H w3 Hl3 Hf3 Hc3.
  apply rmatch_end in H as ->. exists w1. cbn in Hc1.
  rewrite Hf3, Hf2 by apply not_elem_of_nil. split; [exact Hc1|exact Hl1].
Qed.

(** *** The conversions of matched text

    [int] and [float] are applied to groups of digits; on such text they
    return the value that the embedding computes directly. *)

Lemma digit_facts c :
  is_digit c = true →
  is_space c = false ∧ is_number_space c = false ∧ lower_char c = c
  ∧ is_char "_" c = false ∧ is_char "." c = false ∧ is_char "," c = false
  ∧ is_char "-" c = false ∧ is_char "+" c = false
  ∧ is_char "i" c = false ∧ is_char "n" c = false
  ∧ 0 ≤ digit_value c ≤ 9.
Proof.
  destruct c as [b0 b1 b2 b3 b4 b5 b6 b7].
  destruct b0, b1, b2, b3, b4, b5, b6, b7; intros H; try discriminate H;
    vm_compute; repeat split; congruence.
Qed.

Lemma all_in_app p (a b : string) :
  all_in p (a ++ b) = all_in p a && all_in p b.
Proof.
  induction a as [|c a IH]; [done|]. rewrite append_cons. cbn [all_in].
  by rewrite IH, andb_assoc.
Qed.

Lemma number_lstrip_digit c w :
  is_digit c = true → number_lstrip (String c w) = String c w.
Proof. intros (_ & H & _)%digit_facts. cbn. by rewrite H. Qed.

Lemma split_sign_digit c w :
  is_digit c = true → split_sign (String c w) = (false, String c w).
Proof.
  intros (_ & _ & _ & _ & _ & _ & Hm & Hp & _)%digit_facts.
  unfold is_char in Hm, Hp. apply Ascii.eqb_neq in Hm, Hp.
  unfold split_sign.
  destruct c as [[] [] [] [] [] [] [] []]; try reflexivity; congruence.
Qed.

Lemma span_digits w : all_in is_digit w = true → span is_digit w = (w, "").
Proof.
  induction w as [|c w IH]; [done|]. cbn.
  intros [Hc Hw]%andb_prop. by rewrite Hc, (IH Hw).
Qed.

Lemma all_digits_spec w : all_in is_digit w = true → w ≠ "" → all_digits w = true.
Proof.
  intros Hw Hne. unfold all_digits. rewrite (span_digits _ Hw). by destruct w.
Qed.

Lemma decimal_from_nonneg w : ∀ acc,
  0 ≤ acc → all_in is_digit w = true → 0 ≤ decimal_from acc w.
Proof.
  induction w as [|c w IH]; intros acc Hacc Hw; [done|].
  cbn in Hw. apply andb_prop in Hw as [Hc Hw].
  cbn [decimal_from]. apply IH; [|done]. apply digit_facts in Hc. lia.
Qed.

Lemma decimal_value_nonneg w : all_in is_digit w = true → 0 ≤ decimal_value w.
Proof. by apply decimal_from_nonneg. Qed.

Lemma all_in_impl (p q : ascii -> bool) w :
  (∀ c, p c = true → q c = true) → all_in p w = true → all_in q w = true.
Proof.
  intros Hpq. induction w as [|c w IH]; [done|]. cbn.
  intros [Hc Hw]%andb_prop. by rewrite (Hpq c Hc), (IH Hw).
Qed.

Lemma number_rstrip_id w :
  all_in (fun c => negb (is_number_space c)) w = true → number_rstrip w = w.
Proof.
  induction w as [|c w IH]; [done|]. cbn.
  intros [Hc Hw]%andb_prop. rewrite (IH Hw). apply negb_true_iff in Hc.
  rewrite Hc. by destruct w.
Qed.

Lemma remove_char_id a w :
  all_in (fun c => negb (is_char a c)) w = true → remove_char a w = w.
Proof.
  induction w as [|c w IH]; [done|]. cbn.
  intros [Hc Hw]%andb_prop. apply negb_true_iff in Hc. by rewrite Hc, (IH Hw).
Qed.

Lemma underscores_ok_plain w : ∀ prev,
  all_in (fun c => negb (is_char "_" c)) w = true → underscores_ok prev w = true.
Proof.
  induction w as [|c w IH]; intros prev; [done|]. cbn [all_in underscores_ok].
  intros [Hc Hw]%andb_prop. apply negb_true_iff in Hc. rewrite Hc. by apply IH.
Qed.

Lemma lower_id w :
  all_in (fun c => Ascii.eqb (lower_char c) c) w = true → lower w = w.
Proof.
  induction w as [|c w IH]; [done|]. cbn.
  intros [Hc Hw]%andb_prop. apply Ascii.eqb_eq in Hc. by rewrite Hc, (IH Hw).
Qed.

(** [int(w)] for a text of digits is its decimal value. *)
Lemma int_of_str_digits w :
  all_in is_digit w = true → w ≠ "" → int_of_str w = Ok (decimal_value w).
Proof.
  intros Hw Hne. unfold int_of_str.
  destruct w as [|c w]; [done|].
  pose proof Hw as Hw'. cbn in Hw'. apply andb_prop in Hw' as [Hc _].
  rewrite number_lstrip_digit by done.
  rewrite number_rstrip_id
    by (apply (all_in_impl is_digit); [|done];
        by intros c' (_ & -> & _)%digit_facts).
  rewrite split_sign_digit by done.
  assert (all_in (fun c => negb (is_char "_" c)) (String c w) = true) as Hu.
  { apply (all_in_impl is_digit); [|done]. by intros c' (_ & _ & _ & -> & _)%digit_facts. }
  rewrite underscores_ok_plain, remove_char_id by done.
  by rewrite all_digits_spec.
Qed.

Lemma digits12_value w :
  lang digits12 w →
  int_of_str w = Ok (decimal_value w) ∧ 0 ≤ decimal_value w ≤ 99.
Proof.
  intros (Hall & Hlo & Hhi). specialize (Hhi 2%nat eq_refl).
  split.
  - apply int_of_str_digits; [done|]. destruct w; [simpl in Hlo; lia | done].
  - destruct w as [|a [|b [|c w]]]; cbn in Hlo, Hhi; try lia.
    + cbn in Hall. rewrite andb_true_r in Hall. apply digit_facts in Hall.
      unfold decimal_value; cbn. lia.
    + cbn in Hall. rewrite andb_true_r in Hall. apply andb_prop in Hall as [Ha Hb].
      apply digit_facts in Ha, Hb. unfold decimal_value; cbn. lia.
Qed.

Lemma remove_char_app a (x y : string) :
  remove_char a (x ++ y) = remove_char a x ++ remove_char a y.
Proof.
  induction x as [|c x IH]; [done|]. rewrite append_cons. cbn [remove_char].
  destruct (is_char a c); [done|]. by rewrite append_cons, IH.
Qed.

Lemma remove_commas_digits w :
  all_in (fun c => is_digit c || is_char "," c) w = true →
  all_in is_digit (remove_char "," w) = true.
Proof.
  induction w as [|c w IH]; [done|]. cbn [all_in remove_char].
  intros [Hc Hw]%andb_prop. destruct (is_char "," c) eqn:Hcomma; [auto|].
  rewrite orb_false_r in Hc. cbn [all_in]. by rewrite Hc, IH.
Qed.

Lemma span_digits_app ip r :
  all_in is_digit ip = true →
  match r with String c _ => is_digit c = false | "" => True end →
  span is_digit (ip ++ r) = (ip, r).
Proof.
  intros Hip Hr. induction ip as [|c ip IH].
  - destruct r as [|c r]; [done|].
    change ("" ++ String c r) with (String c r). cbn [span]. by rewrite Hr.
  - rewrite append_cons. cbn [span all_in] in Hip |- *.
    apply andb_prop in Hip as [Hc Hip]. by rewrite Hc, (IH Hip).
Qed.

(** The text of a match of [number_re], commas removed. *)
Lemma number_re_text w : lang policy.number_re w → number_text (remove_char "," w).
Proof.
  unfold policy.number_re, Seq. cbn [foldr lang].
  intros (w1 & r1 & -> & (c & -> & Hc) & w2 & r2 & -> & (Hw2 & _) & w3 & r3 & -> & Hw3 & ->).
  rewrite append_nil_r, !remove_char_app.
  pose proof (remove_commas_digits _ Hw2) as Hd2.
  assert (remove_char "," (String c "") = String c "") as ->.
  { cbn [remove_char]. by destruct (digit_facts c Hc) as (_ & _ & _ & _ & _ & -> & _). }
  exists (String c (remove_char "," w2)).
  split; [cbn [all_in]; by rewrite Hc|]. split; [done|].
  destruct Hw3 as [(d & fp & -> & (c' & -> & Hdot) & (Hfp & Hlen & _))| ->].
  - apply is_char_eq in Hdot as <-.
    assert (remove_char "," (String "." "" ++ fp) = "." ++ fp) as ->.
    { apply remove_char_id. change (String "." "" ++ fp) with (String "." fp).
      cbn [all_in]. change (negb (is_char "," ".")) with true. cbn [andb].
      apply (all_in_impl is_digit); [|done].
      by intros c' (_ & _ & _ & _ & _ & -> & _)%digit_facts. }
    right. exists fp. split; [done|]. split.
    + destruct fp; [simpl in Hlen; lia | done].
    + by rewrite <- append_assoc.
  - left. change (remove_char "," "") with "". by rewrite append_nil_r.
Qed.

Lemma eqb_digit_start c w (lit : string) :
  is_digit c = true →
  match lit with String a _ => is_digit a = false | "" => True end →
  String.eqb (String c w) lit = false.
Proof.
  intros Hc Hlit. destruct lit as [|a lit]; [done|]. cbn.
  destruct (Ascii.eqb_spec c a) as [->|]; [congruence|done].
Qed.

Lemma float_of_str_parts c ip fp frac :
  is_digit c = true → all_in is_digit ip = true → all_in is_digit fp = true →
  (frac = "" ∧ fp = "") ∨ (frac = "." ++ fp ∧ fp ≠ "") →
  float_of_str (String c ip ++ frac)
  = Ok (float_of_decimal false (decimal_value (String c ip ++ fp))
          (- Z.of_nat (String.length fp)))
  ∧ policy.float_of_number (String c ip ++ frac)
    = float_of_decimal false (decimal_value (String c ip ++ fp))
        (- Z.of_nat (String.length fp)).
Proof.
  intros Hc Hip Hfp Hfrac.
  assert (Hdot : ∀ a, is_digit a = true ∨ a = "."%char →
            is_number_space a = false ∧ is_char "_" a = false ∧ lower_char a = a).
  { intros a [Ha| ->]; [|by vm_compute].
    by destruct (digit_facts a Ha) as (_ & -> & -> & -> & _). }
  assert (Hchars : all_in (fun a => is_digit a || is_char "." a) (String c ip ++ frac) = true).
  { rewrite all_in_app. apply andb_true_intro. split.
    - apply (all_in_impl is_digit); [by intros a ->|]. cbn [all_in]. by rewrite Hc, Hip.
    - destruct Hfrac as [[-> _]|[-> _]]; [done|].
      change ("." ++ fp) with (String "." fp). cbn [all_in].
      change (is_digit "." || is_char "." ".") with true. cbn [andb].
      apply (all_in_impl is_digit); [by intros a ->|done]. }
  assert (Hcase : ∀ a, is_digit a || is_char "." a = true → is_digit a = true ∨ a = "."%char).
  { intros a [Ha|Ha%is_char_eq]%orb_prop; auto. }
  assert (Hspan : span is_digit (String c ip ++ frac) = (String c ip, frac)).
  { apply span_digits_app; [cbn [all_in]; by rewrite Hc, Hip|].
    destruct Hfrac as [[-> _]|[-> _]]; done. }
  assert (Hns : all_in (fun a => negb (is_number_space a)) (String c ip ++ frac) = true).
  { revert Hchars. apply all_in_impl. intros a Ha.
    by destruct (Hdot a (Hcase a Ha)) as (-> & _). }
  assert (Hlow : all_in (fun a => Ascii.eqb (lower_char a) a) (String c ip ++ frac) = true).
  { revert Hchars. apply all_in_impl. intros a Ha.
    destruct (Hdot a (Hcase a Ha)) as (_ & _ & ->). apply Ascii.eqb_refl. }
  assert (Hu : all_in (fun a => negb (is_char "_" a)) (String c ip ++ frac) = true).
  { revert Hchars. apply all_in_impl. intros a Ha.
    by destruct (Hdot a (Hcase a Ha)) as (_ & -> & _). }
  split.
  - unfold float_of_str. rewrite append_cons, number_lstrip_digit by done.
    rewrite <- append_cons, number_rstrip_id, lower_id by done.
    rewrite append_cons, split_sign_digit by done.
    rewrite !eqb_digit_start by done. cbn [orb].
    rewrite <- append_cons.
    rewrite underscores_ok_plain, remove_char_id by done. cbn [negb].
    rewrite Hspan.
    destruct Hfrac as [[-> ->]|[-> Hne]].
    + rewrite !append_nil_r. cbn. done.
    + change ("." ++ fp) with (String "." fp). cbv iota.
      rewrite (span_digits _ Hfp). rewrite append_cons. cbn [exponent_of_str].
      by rewrite Z.sub_0_l.
  - unfold policy.float_of_number. rewrite Hspan.
    by destruct Hfrac as [[-> ->]|[-> Hne]].
Qed.

(** [float(s)] for a text of digits with an optional fraction is the value
    that [float_of_number] computes. *)
Lemma float_of_str_number s :
  number_text s → float_of_str s = Ok (policy.float_of_number s).
Proof.
  intros (ip & Hip & Hne & Hs).
  destruct ip as [|c ip]; [done|]. clear Hne.
  cbn in Hip. apply andb_prop in Hip as [Hc Hip].
  destruct Hs as [->|(fp & Hfp & Hfpne & ->)].
  - destruct (float_of_str_parts c ip "" "" Hc Hip eq_refl) as [H1 H2]; [by left|].
    rewrite append_nil_r in H1, H2. by rewrite H1, H2.
  - destruct (float_of_str_parts c ip fp ("." ++ fp) Hc Hip Hfp) as [H1 H2]; [by right|].
    by rewrite H1, H2.
Qed.

(** *** The amount read from a text is a number *)

Lemma shr_1_nonneg mrs : 0 ≤ shr_m mrs → 0 ≤ shr_m (shr_1 mrs).
Proof. destruct mrs as [[|[p|p|]|[p|p|]] r s]; cbn; lia. Qed.

Lemma iter_shr_1_nonneg p : ∀ mrs,
  0 ≤ shr_m mrs → 0 ≤ shr_m (SpecFloat.iter_pos shr_1 p mrs).
Proof.
  induction p as [p IH|p IH|]; intros mrs Hm; cbn [SpecFloat.iter_pos];
    auto using shr_1_nonneg.
Qed.

Lemma shr_fexp_nonneg m e l :
  0 ≤ m → 0 ≤ shr_m (shr_fexp 53 1024 m e l).1.
Proof.
  intros Hm. unfold shr_fexp, shr.
  assert (0 ≤ shr_m (shr_record_of_loc m l)) as H0 by (by destruct l as [|[]]).
  destruct (_ - e) as [|p|p]; cbn [fst]; auto using iter_shr_1_nonneg.
Qed.

Lemma round_nearest_even_nonneg m l : 0 ≤ m → 0 ≤ round_nearest_even m l.
Proof.
  intros Hm. unfold round_nearest_even.
  destruct l as [|[]]; try destruct (Z.even m); lia.
Qed.

Lemma b64_round_nonneg m e l : 0 ≤ m → nonneg_number (b64_round false m e l).
Proof.
  intros Hm. unfold b64_round, binary_round_aux.
  pose proof (shr_fexp_nonneg m e l Hm) as H1.
  destruct (shr_fexp 53 1024 m e l) as [mrs' e']. cbn [fst] in H1.
  pose proof (shr_fexp_nonneg _ e' loc_Exact
                (round_nearest_even_nonneg _ (loc_of_shr_record mrs') H1)) as H2.
  destruct (shr_fexp 53 1024 _ e' loc_Exact) as [mrs'' e'']. cbn [fst] in H2.
  destruct (shr_m mrs'') as [|p|p]; [done| |lia].
  by destruct (_ <=? _).
Qed.

Lemma float_of_decimal_nonneg m e : 0 ≤ m → nonneg_number (float_of_decimal false m e).
Proof.
  intros Hm. unfold float_of_decimal.
  destruct (m =? 0) eqn:H0; [done|]. apply Z.eqb_neq in H0.
  destruct (0 <=? e) eqn:He.
  - apply Z.leb_le in He.
    assert (0 < m * 10 ^ e) as Hpos by (apply Z.mul_pos_pos; [lia|by apply Z.pow_pos_nonneg]).
    unfold binary_normalize. destruct (m * 10 ^ e) as [|p|p]; [lia| |lia].
    unfold binary_round. destruct (shl_align _ _ _) as [mz ez].
    by apply (b64_round_nonneg (Z.pos mz)).
  - apply Z.leb_gt in He. unfold SFdiv_core_binary.
    set (m' := match _ - _ with Z.pos _ => Z.shiftl m _ | Z0 => m | Z.neg _ => 0 end).
    assert (0 ≤ m') as Hm'.
    { subst m'. destruct (_ - _ - _) as [|p|p]; [lia| |lia]. by apply Z.shiftl_nonneg. }
    assert (0 < 10 ^ (- e)) as Hd by (apply Z.pow_pos_nonneg; lia).
    pose proof (Z.div_pos m' (10 ^ (- e)) Hm' Hd) as Hq.
    unfold Z.div in Hq. destruct (Z.div_eucl m' (10 ^ (- e))) as [q r].
    by apply b64_round_nonneg.
Qed.

Lemma float_of_number_nonneg s :
  number_text s → nonneg_number (policy.float_of_number s).
Proof.
  intros (ip & Hip & Hne & Hs).
  destruct ip as [|c ip]; [done|]. clear Hne.
  pose proof Hip as Hip'. cbn [all_in] in Hip'. apply andb_prop in Hip' as [Hc Hip'].
  destruct Hs as [->|(fp & Hfp & Hfpne & ->)].
  - destruct (float_of_str_parts c ip "" "" Hc Hip' eq_refl) as [_ H2]; [by left|].
    rewrite append_nil_r in H2. rewrite H2.
    by apply float_of_decimal_nonneg, decimal_value_nonneg.
  - destruct (float_of_str_parts c ip fp ("." ++ fp) Hc Hip' Hfp) as [_ H2]; [by right|].
    rewrite H2. apply float_of_decimal_nonneg, decimal_value_nonneg.
    by rewrite all_in_app, Hip, Hfp.
Qed.

(** The amount that the constraint parser reads is the value of [float] on
    the matched text, and it is a number that is not negative. *)
Lemma parse_money_amount_number text a :
  policy._parse_money_amount text = Some a →
  nonneg_number a
  ∧ ∃ w, number_text w ∧ float_of_str w = Ok a.
Proof.
  unfold policy._parse_money_amount. cbv zeta.
  destruct (re_search policy.dollar_re _) as [m|] eqn:H1.
  - intros [= <-]. apply dollar_group in H1 as (w & Hw & Hl).
    unfold group. rewrite Hw. cbn [default]. apply number_re_text in Hl.
    split; [by apply float_of_number_nonneg|].
    eexists. split; [done|]. by apply float_of_str_number.
  - destruct (re_search policy.labelled_re _) as [m|] eqn:H2; [|done].
    intros [= <-]. apply labelled_group in H2 as (w & Hw & Hl).
    unfold group. rewrite Hw. cbn [default]. apply number_re_text in Hl.
    split; [by apply float_of_number_nonneg|].
    eexists. split; [done|]. by apply float_of_str_number.
Qed.

Lemma parse_amount_number text a :
  _parse_amount text = Some a →
  nonneg_number a
  ∧ ∃ w, number_text w ∧ float_of_str w = Ok a.
Proof.
  unfold _parse_amount. cbv zeta.
  destruct (re_search policy.dollar_re _) as [m|] eqn:H1; [|done].
  intros [= <-]. apply dollar_group in H1 as (w & Hw & Hl).
  unfold group. rewrite Hw. cbn [default]. apply number_re_text in Hl.
  split; [by apply float_of_number_nonneg|].
  eexists. split; [done|]. by apply float_of_str_number.
Qed.

(** *** The hour read from a match *)

Lemma lang_chr a w : lang (Chr a) w → w = String a "".
Proof. by intros (c & -> & <-%is_char_eq). Qed.

Lemma lang_opt_chr a w : lang (Opt (Chr a)) w → w = String a "" ∨ w = "".
Proof. intros [H%lang_chr| ->]; auto. Qed.

(** The marker of a match, dots removed, is "am" or "pm". *)
Lemma meridiem_marker w :
  lang policy.meridiem_re w →
  remove_char "." w = "am" ∨ remove_char "." w = "pm".
Proof.
  unfold policy.meridiem_re, Seq. cbn [foldr].
  intros [H|H]; [left|right];
    destruct H as (w1 & r1 & -> & ->%lang_chr & w2 & r2 & -> & H2%lang_opt_chr
                   & w3 & r3 & -> & ->%lang_chr & w4 & r4 & -> & H4%lang_opt_chr & ->);
    destruct H2 as [-> | ->], H4 as [-> | ->]; reflexivity.
Qed.

(** In every match of the four time patterns, [int] applied to the first
    group returns its decimal value, a number from 0 to 99, and the marker
    of a meridiem pattern is "am" or "pm". *)
Lemma time_groups_read t m :
  (re_search policy.after_meridiem_re t = Some m →
     int_of_str (group m 1) = Ok (decimal_value (group m 1))
     ∧ 0 ≤ decimal_value (group m 1) ≤ 99
     ∧ (remove_char "." (group m 2) = "am" ∨ remove_char "." (group m 2) = "pm"))
  ∧ (re_search policy.after_bare_re t = Some m →
       int_of_str (group m 1) = Ok (decimal_value (group m 1))
       ∧ 0 ≤ decimal_value (group m 1) ≤ 99)
  ∧ (re_search meridiem_time_re t = Some m →
       int_of_str (group m 1) = Ok (decimal_value (group m 1))
       ∧ 0 ≤ decimal_value (group m 1) ≤ 99
       ∧ (remove_char "." (group m 3) = "am" ∨ remove_char "." (group m 3) = "pm"))
  ∧ (re_search clock_time_re t = Some m →
       int_of_str (group m 1) = Ok (decimal_value (group m 1))
       ∧ 0 ≤ decimal_value (group m 1) ≤ 99).
Proof.
  unfold group. split; [|split; [|split]]; intros H.
  - apply after_meridiem_groups in H as (w1 & w2 & -> & H1 & -> & H2). cbn [default].
    destruct (digits12_value _ H1). auto using meridiem_marker.
  - apply after_bare_group in H as (w1 & -> & H1). cbn [default].
    by apply digits12_value.
  - apply meridiem_time_groups in H as (w1 & w3 & -> & H1 & -> & H3). cbn [default].
    destruct (digits12_value _ H1). auto using meridiem_marker.
  - apply clock_time_group in H as (w1 & -> & H1). cbn [default].
    by apply digits12_value.
Qed.

(** *** What each check collects *)

Lemma meeting_checks req ncs st :
  run_checks SCHEDULE_MEETING req ncs = Ok st →
  ∃ per, Forall2 (meeting_outcome (_parse_time_to_hour req)) ncs per ∧ st = collected per.
Proof.
  rewrite run_checks_meeting. intros Hrun.
  apply (for_each_appends _ _ _ (meeting_body_outcome _)) in Hrun as (per & Hper & ->).
  by exists per.
Qed.

Lemma budget_checks req ncs st :
  run_checks SPEND_MONEY req ncs = Ok st →
  ∃ per, Forall2 (budget_outcome (_parse_amount req)) ncs per ∧ st = collected per.
Proof.
  rewrite run_checks_spending. intros Hrun.
  apply (for_each_appends _ _ _ (budget_body_outcome _)) in Hrun as (per & Hper & ->).
  by exists per.
Qed.

Lemma sharing_checks req ncs st :
  run_checks SHARE_DATA req ncs = Ok st →
  ∃ per, Forall2 (sharing_outcome (_mentions_external_party req)) ncs per
         ∧ st = collected per.
Proof.
  rewrite run_checks_sharing. destruct (_mentions_external_party req).
  - intros Hrun.
    apply (for_each_appends _ _ _ sharing_body_outcome) in Hrun as (per & Hper & ->).
    by exists per.
  - intros [= <-]. exists ((fun _ => ([], [])) <$> ncs). split.
    + apply Forall2_fmap_r, Forall_Forall2_diag, Forall_forall. intros c _.
      unfold sharing_outcome. destruct (eq_str _ _); auto.
    + unfold collected. induction ncs as [|c ncs IH]; [done|]. by cbn.
Qed.

Lemma meeting_checks_return req ncs :
  (∀ c, c ∈ ncs → eq_str (n_type c) policy.NO_MEETINGS_AFTER_HOUR = true →
        ∃ h, max_hour_of c = Ok h) →
  ∃ st, run_checks SCHEDULE_MEETING req ncs = Ok st.
Proof.
  intros Hwf. rewrite run_checks_meeting. apply for_each_returns.
  intros c Hc st. unfold meeting_body.
  destruct (eq_str _ _) eqn:Ht; [|eauto].
  destruct (Hwf c Hc Ht) as [h ->]. cbn.
  destruct (_parse_time_to_hour req) as [r|]; [|eauto].
  destruct (r >? h); eauto.
Qed.

Lemma budget_checks_return req ncs :
  (∀ c, c ∈ ncs → eq_str (n_type c) policy.BUDGET_CAP = true →
        ∃ cap, cap_of c = Ok cap) →
  ∃ st, run_checks SPEND_MONEY req ncs = Ok st.
Proof.
  intros Hwf. rewrite run_checks_spending. apply for_each_returns.
  intros c Hc st. unfold budget_body.
  destruct (eq_str _ _) eqn:Ht; [|eauto].
  destruct (Hwf c Hc Ht) as [cap ->]. cbn.
  destruct (_parse_amount req) as [a|]; [|eauto].
  destruct (_ && _); eauto.
Qed.

Lemma sharing_checks_return req ncs :
  ∃ st, run_checks SHARE_DATA req ncs = Ok st.
Proof.
  rewrite run_checks_sharing. destruct (_mentions_external_party req); [|eauto].
  apply for_each_returns. intros c _ st. unfold sharing_body.
  destruct (eq_str _ _); eauto.
Qed.

(** The parameters of a constraint that stores one are the stored ones, and
    the allowed hour and the cap are read from them. *)
Lemma params_stored (c : dict) (p : dict) k v :
  c !! "params" = Some (VDict p) → p !! k = Some v →
  n_params (normalize_constraint c) = VDict p.
Proof.
  intros Hc Hp. unfold normalize_constraint, dict_get. cbn [n_params].
  rewrite Hc. cbn [default]. unfold Datatypes.id, py_or, truthy.
  rewrite bool_decide_eq_false_2; [done|].
  intros ->. by rewrite lookup_empty in Hp.
Qed.

Lemma max_hour_stored (c : dict) (p : dict) v :
  c !! "params" = Some (VDict p) → p !! "hour" = Some v →
  max_hour_of (normalize_constraint c) = py_int v.
Proof.
  intros Hc Hp. unfold max_hour_of. rewrite (params_stored c p "hour" v Hc Hp).
  cbn [py_get mbind result_bind]. unfold dict_get. by rewrite Hp.
Qed.

Lemma cap_stored (c : dict) (p : dict) v :
  c !! "params" = Some (VDict p) → p !! "max_amount" = Some v →
  cap_of (normalize_constraint c) = py_float v.
Proof.
  intros Hc Hp. unfold cap_of. rewrite (params_stored c p "max_amount" v Hc Hp).
  cbn [py_get mbind result_bind]. unfold dict_get. by rewrite Hp.
Qed.

(** C1. For a request classified as SCHEDULE_MEETING, every returned run of
    [evaluate_request] is decided by the meeting rule: a constraint of type
    NO_MEETINGS_AFTER_HOUR with allowed hour [h] adds a violation exactly
    when an hour [r] is read from the request and [h < r]; the violation
    carries the reason that states [r] and [h], and the suggestions added with
    it include a time equal to [min h 20].  The run returns whenever the
    allowed hour of each such constraint can be read.  The allowed hour is
    the constraint's own: it is [int] of the value stored under "hour" in
    the parameters, so a constraint that stores the integer [h] adds a
    violation exactly for a requested hour after [h].  With the constraint
    of hour 21, "schedule a call at 10pm" (hour 22) is blocked with one
    violation, and "schedule a call at 8pm" is approved; with a constraint
    of hour 17, "schedule a call at 8pm" (hour 20) is blocked. *)
Theorem meeting_rule :
  (∀ G (client : Neo4jClient G) uid req cs u t (g : G) d g',
      classify_action req = SCHEDULE_MEETING →
      evaluate_request uid req cs u t g = Ok (d, g') →
      decided_by (meeting_outcome (_parse_time_to_hour req)) uid req cs u t g d g')
  ∧ (∀ uid req cs u t (g : graph),
      classify_action req = SCHEDULE_MEETING →
      (∀ c, c ∈ cs →
         eq_str (n_type (normalize_constraint c)) policy.NO_MEETINGS_AFTER_HOUR = true →
         ∃ h, max_hour_of (normalize_constraint c) = Ok h) →
      ∃ d g', evaluate_request uid req cs u t g = Ok (d, g'))
  ∧ (∀ r h, meeting_reason r h
            = "Requested meeting at " ++ str_of_Z r
              ++ ":00 exceeds allowed end hour " ++ str_of_Z h ++ ":00")
  ∧ (∀ h, safe_time_suggestion h ∈ _alternatives_for_meeting h ∧ Z.min h 20 ≤ 20)
  ∧ _parse_time_to_hour "schedule a call at 10pm" = Some 22
  ∧ summary (evaluate_request "demo_user" "schedule a call at 10pm"
               [no_meetings_after_21] uuid0 now0 store1)
    = Ok (false, SCHEDULE_MEETING, [Some (VStr "c-1")],
          [ "Schedule it at 20:00 (8pm) instead of after 21:00.";
            "Schedule it tomorrow at 8:00pm.";
            "If it must be late, ask for an explicit exception/override first." ],
          [ ("a-0123456789", "c-1",
             "Requested meeting at 22:00 exceeds allowed end hour 21:00") ])
  ∧ summary (evaluate_request "demo_user" "schedule a call at 8pm"
               [no_meetings_after_21] uuid0 now0 store1)
    = Ok (true, SCHEDULE_MEETING, [], [], [])
  ∧ (∀ (c : dict) (p : dict) v,
       c !! "params" = Some (VDict p) → p !! "hour" = Some v →
       max_hour_of (normalize_constraint c) = py_int v)
  ∧ (∀ (c : dict) (p : dict) h rq per,
       eq_str (n_type (normalize_constraint c)) policy.NO_MEETINGS_AFTER_HOUR = true →
       c !! "params" = Some (VDict p) → p !! "hour" = Some (VInt h) →
       meeting_outcome rq (normalize_constraint c) per →
       (∃ r, rq = Some r ∧ h < r
             ∧ per = ([(n_id (normalize_constraint c), meeting_reason r h)],
                      _alternatives_for_meeting h))
       ∨ (¬ (∃ r, rq = Some r ∧ h < r) ∧ per = ([], [])))
  ∧ summary (evaluate_request "demo_user" "schedule a call at 8pm"
               [no_meetings_after "c-1" 17] uuid0 now0 store1)
    = Ok (false, SCHEDULE_MEETING, [Some (VStr "c-1")],
          [ "Schedule it at 17:00 (8pm) instead of after 17:00.";
            "Schedule it tomorrow at 8:00pm.";
            "If it must be late, ask for an explicit exception/override first." ],
          [ ("a-0123456789", "c-1",
             "Requested meeting at 20:00 exceeds allowed end hour 17:00") ]).
Proof.
  split; [|split; [|split; [|split; [|split; [|split; [|split; [|split; [|split]]]]]]]].
  - intros G client uid req cs u t g d g' Hcls Hrun.
    apply (decided_by_intro _ _ _ _ _ _ _ _ _ Hrun).
    rewrite Hcls. apply meeting_checks.
  - intros uid req cs u t g Hcls Hwf.
    destruct (meeting_checks_return req (map normalize_constraint cs)) as [st Hst].
    { intros c (c0 & -> & Hc0)%list_elem_of_fmap. by apply Hwf. }
    apply (evaluate_request_returns _ _ _ _ _ _ st). by rewrite Hcls.
  - reflexivity.
  - intros h. split; [apply list_elem_of_here | apply Z.le_min_r].
  - vm_compute. reflexivity.
  - vm_compute. reflexivity.
  - vm_compute. reflexivity.
  - exact max_hour_stored.
  - intros c p h rq per Hty Hc Hp. unfold meeting_outcome. rewrite Hty.
    intros (h' & Hh' & Hper).
    rewrite (max_hour_stored c p (VInt h) Hc Hp) in Hh'.
    injection Hh' as <-. exact Hper.
  - vm_compute. reflexivity.
Qed.

(** C2. For a request classified as SPEND_MONEY, every returned run of
    [evaluate_request] is decided by the budget rule: a constraint of type
    BUDGET_CAP with cap [cap] adds a violation exactly when an amount [a] is
    read from the request, [cap > 0] and [a > cap]; the reason states both
    amounts.  The cap is the constraint's own: it is [float] of the value
    stored under "max_amount" in the parameters, so a constraint that stores
    the float [cap] adds a violation exactly for an amount above that
    positive [cap].  The extractor of the evaluator only reads an amount
    after a dollar sign, where the one of the constraint parser also reads a
    labelled number.  With the cap 1000, "buy a license for $1500" is
    blocked with a reason that names 1500 and 1000, and "buy a license for
    $500" is approved; with the cap 300, "buy a license for $500" is
    blocked. *)
Theorem budget_rule :
  (∀ G (client : Neo4jClient G) uid req cs u t (g : G) d g',
      classify_action req = SPEND_MONEY →
      evaluate_request uid req cs u t g = Ok (d, g') →
      decided_by (budget_outcome (_parse_amount req)) uid req cs u t g d g')
  ∧ (∀ uid req cs u t (g : graph),
      classify_action req = SPEND_MONEY →
      (∀ c, c ∈ cs →
         eq_str (n_type (normalize_constraint c)) policy.BUDGET_CAP = true →
         ∃ cap, cap_of (normalize_constraint c) = Ok cap) →
      ∃ d g', evaluate_request uid req cs u t g = Ok (d, g'))
  ∧ (∀ a cap, budget_reason a cap
              = "Requested spend $" ++ format_fixed 2 a
                ++ " exceeds budget cap $" ++ format_fixed 2 cap)
  ∧ (∀ text a, _parse_amount text = Some a →
       contains "$" (_norm text) = true ∧ nonneg_number a)
  ∧ (_parse_amount "spend max 1200 on tools" = None
     ∧ policy._parse_money_amount "spend max 1200 on tools" = Some float_1200)
  ∧ summary (evaluate_request "demo_user" "buy a license for $1500"
               [budget_cap_1000] uuid0 now0 store1)
    = Ok (false, SPEND_MONEY, [Some (VStr "c-2")],
          [ "Reduce scope to stay within the $1000 budget cap.";
            "Request approval to increase budget (one-time exception).";
            "Split the purchase into phases or use a lower-cost alternative." ],
          [ ("a-0123456789", "c-2",
             "Requested spend $1500.00 exceeds budget cap $1000.00") ])
  ∧ summary (evaluate_request "demo_user" "buy a license for $500"
               [budget_cap_1000] uuid0 now0 store1)
    = Ok (true, SPEND_MONEY, [], [], [])
  ∧ (∀ (c : dict) (p : dict) v,
       c !! "params" = Some (VDict p) → p !! "max_amount" = Some v →
       cap_of (normalize_constraint c) = py_float v)
  ∧ (∀ (c : dict) (p : dict) cap amt per,
       eq_str (n_type (normalize_constraint c)) policy.BUDGET_CAP = true →
       c !! "params" = Some (VDict p) → p !! "max_amount" = Some (VFloat cap) →
       budget_outcome amt (normalize_constraint c) per →
       (∃ a, amt = Some a ∧ float_gt cap (S754_zero false) = true
             ∧ float_gt a cap = true
             ∧ per = ([(n_id (normalize_constraint c), budget_reason a cap)],
                      _alternatives_for_budget cap))
       ∨ (¬ (∃ a, amt = Some a ∧ float_gt cap (S754_zero false) = true
                  ∧ float_gt a cap = true)
          ∧ per = ([], [])))
  ∧ summary (evaluate_request "demo_user" "buy a license for $500"
               [budget_cap_300] uuid0 now0 store1)
    = Ok (false, SPEND_MONEY, [Some (VStr "c-2")],
          [ "Reduce scope to stay within the $300 budget cap.";
            "Request approval to increase budget (one-time exception).";
            "Split the purchase into phases or use a lower-cost alternative." ],
          [ ("a-0123456789", "c-2",
             "Requested spend $500.00 exceeds budget cap $300.00") ]).
Proof.
  split; [|split; [|split; [|split; [|split; [|split; [|split; [|split; [|split]]]]]]]].
  - intros G client uid req cs u t g d g' Hcls Hrun.
    apply (decided_by_intro _ _ _ _ _ _ _ _ _ Hrun).
    rewrite Hcls. apply budget_checks.
  - intros uid req cs u t g Hcls Hwf.
    destruct (budget_checks_return req (map normalize_constraint cs)) as [st Hst].
    { intros c (c0 & -> & Hc0)%list_elem_of_fmap. by apply Hwf. }
    apply (evaluate_request_returns _ _ _ _ _ _ st). by rewrite Hcls.
  - reflexivity.
  - intros text a Ha. split; [by apply parse_amount_dollar in Ha|].
    by apply parse_amount_number in Ha as [? _].
  - split; vm_compute; reflexivity.
  - vm_compute. reflexivity.
  - vm_compute. reflexivity.
  - exact cap_stored.
  - intros c p cap amt per Hty Hc Hp. unfold budget_outcome. rewrite Hty.
    intros (cap' & Hcap' & Hper).
    rewrite (cap_stored c p (VFloat cap) Hc Hp) in Hcap'.
    injection Hcap' as <-. exact Hper.
  - vm_compute. reflexivity.
Qed.

Lemma sharing_body_params c c' st :
  n_id c = n_id c' → n_type c = n_type c' → sharing_body c st = sharing_body c' st.
Proof. unfold sharing_body. by intros -> ->. Qed.

(** C3. For a request classified as SHARE_DATA, every returned run of
    [evaluate_request] is decided by the sharing rule: every constraint of
    type NO_SHARING_WITH_EXTERNALS adds a violation when the normalized
    request has one of the five keywords, and none does otherwise; the
    parameters of the constraint, [banned_party] among them, are not read.
    Such a run always returns on the graph model.  With a sharing
    constraint that names the contractor, a request that mentions a contractor
    or a vendor is blocked, and one that mentions no keyword is approved. *)
Theorem sharing_rule :
  (∀ G (client : Neo4jClient G) uid req cs u t (g : G) d g',
      classify_action req = SHARE_DATA →
      evaluate_request uid req cs u t g = Ok (d, g') →
      decided_by (sharing_outcome (_mentions_external_party req)) uid req cs u t g d g')
  ∧ (∀ uid req cs u t (g : graph),
      classify_action req = SHARE_DATA →
      ∃ d g', evaluate_request uid req cs u t g = Ok (d, g'))
  ∧ (∀ req, _mentions_external_party req
            = any_in ["contractor"; "external"; "third party"; "3rd party"; "vendor"]
                (_norm req))
  ∧ (∀ c c' st, n_id c = n_id c' → n_type c = n_type c' →
                sharing_body c st = sharing_body c' st)
  ∧ summary (evaluate_request "demo_user" "export the customer dataset to our contractor"
               [no_sharing] uuid0 now0 store1)
    = Ok (false, SHARE_DATA, [Some (VStr "c-3")], _alternatives_for_sharing,
          [ ("a-0123456789", "c-3", sharing_reason) ])
  ∧ summary (evaluate_request "demo_user" "send the data file to the vendor"
               [no_sharing] uuid0 now0 store1)
    = Ok (false, SHARE_DATA, [Some (VStr "c-3")], _alternatives_for_sharing,
          [ ("a-0123456789", "c-3", sharing_reason) ])
  ∧ summary (evaluate_request "demo_user" "export the customer dataset internally"
               [no_sharing] uuid0 now0 store1)
    = Ok (true, SHARE_DATA, [], [], []).
Proof.
  split; [|split; [|split; [|split; [|split; [|split]]]]].
  - intros G client uid req cs u t g d g' Hcls Hrun.
    apply (decided_by_intro _ _ _ _ _ _ _ _ _ Hrun).
    rewrite Hcls. apply sharing_checks.
  - intros uid req cs u t g Hcls.
    destruct (sharing_checks_return req (map normalize_constraint cs)) as [st Hst].
    apply (evaluate_request_returns _ _ _ _ _ _ st). by rewrite Hcls.
  - reflexivity.
  - apply sharing_body_params.
  - vm_compute. reflexivity.
  - vm_compute. reflexivity.
  - vm_compute. reflexivity.
Qed.

(** *** Defaults for missing parameters *)

Lemma normalize_params_missing (c : dict) :
  c !! "params" = None → n_params (normalize_constraint c) = VDict ∅.
Proof. unfold normalize_constraint, dict_get. cbn. by intros ->. Qed.

Lemma normalize_params_falsy (c : dict) v :
  c !! "params" = Some v → truthy v = false →
  n_params (normalize_constraint c) = VDict ∅.
Proof.
  unfold normalize_constraint, dict_get, py_or. cbn. intros -> Hv. cbn. by rewrite Hv.
Qed.

Lemma max_hour_default c (p : dict) :
  n_params c = VDict p → p !! "hour" = None → max_hour_of c = Ok 21.
Proof. unfold max_hour_of, dict_get. intros -> Hp. cbn. unfold dict_get. by rewrite Hp. Qed.

Lemma cap_default c (p : dict) :
  n_params c = VDict p → p !! "max_amount" = None → cap_of c = Ok (S754_zero false).
Proof. unfold cap_of. intros -> Hp. cbn. unfold dict_get. by rewrite Hp. Qed.

(** C10. A missing parameter is replaced by a default and the check goes on.
    A constraint of type NO_MEETINGS_AFTER_HOUR without "hour" (also without
    "params", or with an empty or null "params") is checked with the allowed
    hour 21, so it adds a violation exactly for a requested hour after 21.  A
    constraint of type BUDGET_CAP without "max_amount" gets the cap 0 and
    adds nothing, whatever the amount. *)
Theorem missing_parameter_defaults :
  (∀ c : dict, c !! "params" = None → n_params (normalize_constraint c) = VDict ∅)
  ∧ (∀ (c : dict) v, c !! "params" = Some v → truthy v = false →
       n_params (normalize_constraint c) = VDict ∅)
  ∧ (∀ rh c (p : dict) st,
       eq_str (n_type c) policy.NO_MEETINGS_AFTER_HOUR = true →
       n_params c = VDict p → p !! "hour" = None →
       max_hour_of c = Ok 21
       ∧ meeting_body rh c st
         = Ok (match rh with
               | Some r =>
                   if r >? 21
                   then ((st.1 ++ [(n_id c, meeting_reason r 21)])%list,
                         (st.2 ++ _alternatives_for_meeting 21)%list)
                   else st
               | None => st
               end))
  ∧ (∀ amt c (p : dict) st,
       eq_str (n_type c) policy.BUDGET_CAP = true →
       n_params c = VDict p → p !! "max_amount" = None →
       cap_of c = Ok (S754_zero false) ∧ budget_body amt c st = Ok st)
  ∧ summary (evaluate_request "demo_user" "schedule a call at 10pm"
               [no_meetings_unset] uuid0 now0 store1)
    = Ok (false, SCHEDULE_MEETING, [Some (VStr "c-1")],
          [ "Schedule it at 20:00 (8pm) instead of after 21:00.";
            "Schedule it tomorrow at 8:00pm.";
            "If it must be late, ask for an explicit exception/override first." ],
          [ ("a-0123456789", "c-1",
             "Requested meeting at 22:00 exceeds allowed end hour 21:00") ])
  ∧ summary (evaluate_request "demo_user" "buy a license for $1500"
               [budget_cap_unset] uuid0 now0 store1)
    = Ok (true, SPEND_MONEY, [], [], []).
Proof.
  split; [|split; [|split; [|split; [|split]]]].
  - apply normalize_params_missing.
  - apply normalize_params_falsy.
  - intros rh c p st Ht Hp Hh.
    pose proof (max_hour_default c p Hp Hh) as Hmax. split; [done|].
    unfold meeting_body. rewrite Ht, Hmax. destruct rh as [r|]; [|done].
    cbn. by destruct (r >? 21).
  - intros amt c p st Ht Hp Hm.
    pose proof (cap_default c p Hp Hm) as Hcap. split; [done|].
    unfold budget_body. rewrite Ht, Hcap. destruct amt; reflexivity.
  - vm_compute. reflexivity.
  - vm_compute. reflexivity.
Qed.

(** C7. The suggestions of a blocked decision are the suggestions that the
    checks added, each kept where it is first seen and later copies dropped,
    cut after the fifth: the loop with the [seen] set computes exactly the
    list of first occurrences; the result has no repetition, keeps the order
    of the added list, and has at most five entries.  Two constraints with the
    same hour give three suggestions out of six added, and four constraints
    with different hours give the first five of six distinct ones. *)
Theorem alternatives_deduplicated :
  (∀ G (client : Neo4jClient G) uid req cs u t (g : G) d g',
      evaluate_request uid req cs u t g = Ok (d, g') →
      ok d = false →
      ∃ vs alts,
        run_checks (classify_action req) req (map normalize_constraint cs) = Ok (vs, alts) ∧
        alternatives d = list.take 5 (first_occurrences alts) ∧
        (length (alternatives d) ≤ 5)%nat ∧
        NoDup (alternatives d) ∧
        alternatives d `sublist_of` alts ∧
        ((length (first_occurrences alts) ≤ 5)%nat →
           alternatives d = first_occurrences alts
           ∧ ∀ a, a ∈ alternatives d ↔ a ∈ alts))
  ∧ (∀ alts, dedup_alternatives alts = first_occurrences alts)
  ∧ summary (evaluate_request "demo_user" "schedule a call at 10pm"
               same_hour_twice uuid0 now0 store1)
    = Ok (false, SCHEDULE_MEETING, [Some (VStr "c-1")],
          [ "Schedule it at 20:00 (8pm) instead of after 21:00.";
            "Schedule it tomorrow at 8:00pm.";
            "If it must be late, ask for an explicit exception/override first." ],
          [ ("a-0123456789", "c-1",
             "Requested meeting at 22:00 exceeds allowed end hour 21:00") ])
  ∧ (alternatives <$> (fst <$> evaluate_request "demo_user" "schedule a call at 10pm"
                                  four_hours uuid0 now0 store1))
    = Ok [ "Schedule it at 5:00 (8pm) instead of after 5:00.";
           "Schedule it tomorrow at 8:00pm.";
           "If it must be late, ask for an explicit exception/override first.";
           "Schedule it at 6:00 (8pm) instead of after 6:00.";
           "Schedule it at 7:00 (8pm) instead of after 7:00." ].
Proof.
  split; [|split; [|split]].
  - intros G client uid req cs u t g d g' Hrun Hblocked.
    apply evaluate_request_inv in Hrun
      as (g1 & vs & alts & _ & Hchk & _ & _ & _ & Halts & _).
    rewrite dedup_alternatives_spec in Halts.
    exists vs, alts. split; [done|]. split; [done|]. rewrite Halts.
    split; [rewrite length_take; lia|].
    split; [apply (sublist_NoDup _ _ (first_occurrences_NoDup alts)), sublist_take|].
    split; [etrans; [apply sublist_take | apply first_occurrences_sublist]|].
    intros Hlen. rewrite take_ge by done. split; [done|].
    apply first_occurrences_elem_of.
  - apply dedup_alternatives_spec.
  - vm_compute. reflexivity.
  - vm_compute. reflexivity.
Qed.

(** C8. Two runs of [evaluate_request] on the same constraints and the same
    request, with any two fresh identifiers, clocks and stores, return the
    same flag, action type, message and ordered suggestions, and record the
    same violations in the same order; their [violations] fields are equal
    when the store gives the same answer to the two explain queries.  Only
    the action id (and the time stamp of the recorded action) follows the
    identifier drawn. *)
Theorem evaluate_request_deterministic
    G (client : Neo4jClient G) uid req cs
    u1 t1 (g1 : G) d1 g1' u2 t2 (g2 : G) d2 g2' :
  evaluate_request uid req cs u1 t1 g1 = Ok (d1, g1') →
  evaluate_request uid req cs u2 t2 g2 = Ok (d2, g2') →
  ok d1 = ok d2
  ∧ action_type d1 = action_type d2
  ∧ message d1 = message d2
  ∧ alternatives d1 = alternatives d2
  ∧ (∃ vs ga gb,
       record_action uid (recorded_action req u1 t1) g1 = Ok ga
       ∧ record_action uid (recorded_action req u2 t2) g2 = Ok gb
       ∧ for_each (fun '(cid, reason) g => record_violation (action_id d1) cid reason g)
           vs ga = Ok g1'
       ∧ for_each (fun '(cid, reason) g => record_violation (action_id d2) cid reason g)
           vs gb = Ok g2')
  ∧ (explain_violations uid (action_id d1) g1' = explain_violations uid (action_id d2) g2' →
     violations d1 = violations d2)
  ∧ action_id d1 = "a-" ++ str_take 10 u1
  ∧ action_id d2 = "a-" ++ str_take 10 u2.
Proof.
  intros Hrun1 Hrun2.
  apply evaluate_request_inv in Hrun1
    as (ga & vs & alts & Hga & Hchk1 & Hrec1 & Hid1 & Hty1 & Halts1 & Hok1).
  apply evaluate_request_inv in Hrun2
    as (gb & vs' & alts' & Hgb & Hchk2 & Hrec2 & Hid2 & Hty2 & Halts2 & Hok2).
  rewrite Hchk1 in Hchk2. injection Hchk2 as <- <-.
  assert (ok d1 = ok d2 ∧ message d1 = message d2
          ∧ (explain_violations uid (action_id d1) g1'
             = explain_violations uid (action_id d2) g2' →
             violations d1 = violations d2)) as (Hok & Hmsg & Hviol).
  { destruct Hok1 as [(Hvs & -> & -> & ->)|(Hvs & -> & -> & Hex1)];
      destruct Hok2 as [(Hvs' & -> & -> & ->)|(Hvs' & -> & -> & Hex2)];
      try done.
    repeat split. rewrite Hex1, Hex2. by intros [= ->]. }
  split; [exact Hok|]. split; [congruence|]. split; [exact Hmsg|].
  split; [congruence|]. split; [|by repeat split].
  exists vs, ga, gb. rewrite Hid1, Hid2. by repeat split.
Qed.

(** C8, on the graph model: two runs with different identifiers and clocks
    on a blocked request. *)
Lemma evaluate_request_deterministic_example :
  ∃ d1 g1' d2 g2',
    evaluate_request "demo_user" "schedule a call at 10pm" [no_meetings_after_21]
      uuid0 now0 store1 = Ok (d1, g1')
    ∧ evaluate_request "demo_user" "schedule a call at 10pm" [no_meetings_after_21]
        uuid1 now1 store1 = Ok (d2, g2')
    ∧ ok d1 = ok d2
    ∧ action_type d1 = action_type d2
    ∧ message d1 = message d2
    ∧ alternatives d1 = alternatives d2
    ∧ violations d1 = violations d2
    ∧ action_id d1 = "a-0123456789"
    ∧ action_id d2 = "a-fedcba9876".
Proof.
  destruct (evaluate_request "demo_user" "schedule a call at 10pm"
              [no_meetings_after_21] uuid0 now0 store1) as [[d1 g1']|e] eqn:H1;
    [|vm_compute in H1; discriminate].
  destruct (evaluate_request "demo_user" "schedule a call at 10pm"
              [no_meetings_after_21] uuid1 now1 store1) as [[d2 g2']|e] eqn:H2;
    [|vm_compute in H2; discriminate].
  exists d1, g1', d2, g2'. split; [reflexivity|]. split; [reflexivity|].
  destruct (evaluate_request_deterministic _ _ _ _ _ _ _ _ _ _ _ _ _ _ _ H1 H2)
    as (Hok & Hty & Hmsg & Halts & _ & Hviol & Hid1 & Hid2).
  repeat split; try assumption.
  apply Hviol.
  vm_compute in H1. vm_compute in H2.
  injection H1 as <- <-. injection H2 as <- <-.
  vm_compute. reflexivity.
Defined.

(** *** The constraint parser *)

Lemma forallb_range (P : Z -> bool) lo n :
  forallb P (seqZ lo n) = true → ∀ z, lo ≤ z < lo + n → P z = true.
Proof.
  intros Hall z Hz. rewrite forallb_forall in Hall.
  apply Hall, list_elem_of_In, elem_of_seqZ. lia.
Qed.

(** C4. [parse_constraint] returns either a constraint and no message, or a
    message and no constraint.  A returned constraint has one of the three
    types with the parameter of that type: an integer hour from 0 to 23, a
    float amount that is a number and not negative, or the party name
    "contractor" or "external".  The
    message is the one for an unrecognized constraint exactly when the
    normalized text meets none of the three recognition conditions; this
    message lists the three example phrasings, each of which parses. *)
Theorem parse_constraint_outcome :
  (∀ text u,
      (∃ c, policy.parse_constraint text u = (Some c, None) ∧ well_formed c)
      ∨ (∃ e, policy.parse_constraint text u = (None, Some e)
              ∧ (e = policy.time_error ∨ e = policy.amount_error
                 ∨ e = policy.unrecognized_error)))
  ∧ (∀ text u,
      policy.parse_constraint text u = (None, Some policy.unrecognized_error)
      ↔ policy.meeting_trigger (policy._normalize (strip text)) = false
        ∧ policy.budget_trigger (policy._normalize (strip text)) = false
        ∧ policy.sharing_trigger (policy._normalize (strip text)) = false)
  ∧ (contains "1) No meetings after 9pm" policy.unrecognized_error = true
     ∧ contains "2) Budget cap $1000" policy.unrecognized_error = true
     ∧ contains "3) Never share datasets with external contractors"
         policy.unrecognized_error = true)
  ∧ policy.parse_constraint "No meetings after 9pm" uuid0
    = (Some {| policy.id := "c-01234567"; policy.type := policy.NO_MEETINGS_AFTER_HOUR;
               policy.severity := policy.HARD; policy.text := "No meetings after 9pm";
               policy.params := {[ "hour" := VInt 21 ]} |}, None)
  ∧ policy.parse_constraint "Budget cap $1000" uuid0
    = (Some {| policy.id := "c-01234567"; policy.type := policy.BUDGET_CAP;
               policy.severity := policy.HARD; policy.text := "Budget cap $1000";
               policy.params := {[ "max_amount" := VFloat float_1000 ]} |}, None)
  ∧ policy.parse_constraint "Never share datasets with external contractors" uuid0
    = (Some {| policy.id := "c-01234567"; policy.type := policy.NO_SHARING_WITH_EXTERNALS;
               policy.severity := policy.HARD;
               policy.text := "Never share datasets with external contractors";
               policy.params := {[ "banned_party" := VStr "contractor" ]} |}, None)
  ∧ policy.parse_constraint "Be nice to everybody" uuid0
    = (None, Some policy.unrecognized_error).
Proof.
  assert (Htime : policy.time_error ≠ policy.unrecognized_error) by (vm_compute; discriminate).
  assert (Hamount : policy.amount_error ≠ policy.unrecognized_error)
    by (vm_compute; discriminate).
  split; [|split; [|split; [|split; [|split; [|split]]]]].
  - intros text u. unfold policy.parse_constraint. cbv zeta.
    destruct (policy.meeting_trigger _).
    { destruct (policy._parse_time_to_hour _) as [h|] eqn:Hh.
      - left. eexists. split; [reflexivity|]. left. split; [done|].
        exists h. split; [done|]. by apply policy_parse_time_range in Hh.
      - right. eexists. split; [reflexivity|]. auto. }
    destruct (policy.budget_trigger _).
    { destruct (policy._parse_money_amount _) as [a|] eqn:Ha.
      - left. eexists. split; [reflexivity|]. right. left. split; [done|].
        exists a. split; [done|]. by apply parse_money_amount_number in Ha as [? _].
      - right. eexists. split; [reflexivity|]. auto. }
    destruct (policy.sharing_trigger _).
    { left. eexists. split; [reflexivity|]. right. right. split; [done|].
      eexists. split; [reflexivity|]. destruct (contains _ _); auto. }
    right. eexists. split; [reflexivity|]. auto.
  - intros text u. unfold policy.parse_constraint. cbv zeta.
    destruct (policy.meeting_trigger _).
    { destruct (policy._parse_time_to_hour _); split; try (intros [=]; done);
        intros ([=] & _). }
    destruct (policy.budget_trigger _).
    { destruct (policy._parse_money_amount _); split; try (intros [=]; done);
        intros (_ & [=] & _). }
    destruct (policy.sharing_trigger _).
    { split; [intros [=] | intros (_ & _ & [=])]. }
    done.
  - repeat split; vm_compute; reflexivity.
  - vm_compute. reflexivity.
  - vm_compute. reflexivity.
  - vm_compute. reflexivity.
  - vm_compute. reflexivity.
Qed.

(** *** The classifier *)

Lemma meeting_words_plain w :
  w ∈ meeting_words → w ≠ "" ∧ no_space w = true ∧ lower w = w.
Proof.
  unfold meeting_words. rewrite !elem_of_cons, elem_of_nil.
  intros [->|[->|[->|[->|[->|[]]]]]]; by vm_compute.
Qed.

(** C6. [classify_action] is a function of the normalized request that tries
    its rules in a fixed order: a meeting word gives SCHEDULE_MEETING;
    otherwise a share word together with a data noun gives SHARE_DATA;
    otherwise a spend word or a dollar sign gives SPEND_MONEY; otherwise the
    result is UNKNOWN.  So a request with a meeting word, in the normalized
    text or as written, is a meeting whatever else it contains, sharing
    vocabulary included.  Being a function, it has no effect. *)
Theorem classify_action_order :
  (∀ req,
      classify_action req
      = if any_in ["meeting"; "call"; "schedule"; "book"; "invite"] (_norm req)
        then SCHEDULE_MEETING
        else if any_in ["share"; "send"; "export"; "forward"; "upload"] (_norm req)
                && any_in ["dataset"; "data"; "file"; "files"; "csv"] (_norm req)
        then SHARE_DATA
        else if any_in ["buy"; "purchase"; "spend"; "pay"; "order"] (_norm req)
                || contains "$" (_norm req)
        then SPEND_MONEY
        else UNKNOWN)
  ∧ (∀ req, any_in meeting_words (_norm req) = true →
            classify_action req = SCHEDULE_MEETING)
  ∧ (∀ req w, w ∈ meeting_words → contains w req = true →
              classify_action req = SCHEDULE_MEETING)
  ∧ (∀ req, any_in meeting_words (_norm req) = false →
            any_in share_words (_norm req) = true →
            any_in data_words (_norm req) = true →
            classify_action req = SHARE_DATA)
  ∧ classify_action "Share the data file from the meeting with the vendor"
    = SCHEDULE_MEETING
  ∧ classify_action "Share the data file with the vendor" = SHARE_DATA
  ∧ classify_action "Pay the vendor" = SPEND_MONEY
  ∧ classify_action "What is the weather" = UNKNOWN.
Proof.
  assert (Hmeet : ∀ req, any_in meeting_words (_norm req) = true →
                         classify_action req = SCHEDULE_MEETING).
  { intros req H. unfold classify_action. cbv zeta. by rewrite H. }
  split; [reflexivity|]. split; [exact Hmeet|]. split; [|split].
  - intros req w Hw Hc. apply Hmeet.
    destruct (meeting_words_plain w Hw) as (Hne & Hsp & Hlow).
    apply (any_in_intro _ w); [done|]. by apply contains_norm.
  - intros req Hm Hs Hd. unfold classify_action. cbv zeta. by rewrite Hm, Hs, Hd.
  - repeat split; vm_compute; reflexivity.
Qed.

(** *** Hours *)

(** C9. In the constraint parser, "after Hpm" gives [H + 12] for [H] other
    than 12 (and nothing when that is more than 23), "after 12pm" gives 12
    and "after 12am" gives 0.  The after-qualified meridiem form is tried
    first: its hour is returned whatever after-qualified bare time the text
    also has.  Every hour returned is from 0 to 23, and a meridiem match
    whose derived hour is outside this range returns nothing from that
    form. *)
Theorem after_meridiem_conversion :
  (∀ h, h ≠ 12 → policy.meridiem_hour h "pm" = h + 12)
  ∧ policy.meridiem_hour 12 "pm" = 12
  ∧ policy.meridiem_hour 12 "am" = 0
  ∧ (∀ H, 0 ≤ H ≤ 99 → H ≠ 12 →
       policy._parse_time_to_hour (after_pm_text H)
       = if H + 12 <=? 23 then Some (H + 12) else None)
  ∧ policy._parse_time_to_hour "no calls after 12pm" = Some 12
  ∧ policy._parse_time_to_hour "no calls after 12am" = Some 0
  ∧ (∀ text h,
       policy.after_meridiem_hour (policy._normalize text) = Some h →
       policy._parse_time_to_hour text = Some h)
  ∧ (policy.after_bare_hour "no calls after 20:00 and none after 9pm" = Some 20
     ∧ policy._parse_time_to_hour "no calls after 20:00 and none after 9pm" = Some 21)
  ∧ (∀ text h, policy._parse_time_to_hour text = Some h → 0 ≤ h ≤ 23)
  ∧ (∀ t m,
       re_search policy.after_meridiem_re t = Some m →
       ¬ 0 ≤ policy.meridiem_hour (decimal_value (group m 1))
                (remove_char "." (group m 2)) ≤ 23 →
       policy.after_meridiem_hour t = None).
Proof.
  split; [exact meridiem_hour_pm|]. split; [reflexivity|]. split; [reflexivity|].
  split; [|split; [|split; [|split; [|split; [|split]]]]].
  - intros H HH Hne.
    assert (forallb (fun H =>
              bool_decide (H ≠ 12 →
                policy._parse_time_to_hour (after_pm_text H)
                = if H + 12 <=? 23 then Some (H + 12) else None)) (seqZ 0 100) = true) as Hall.
    { vm_compute. reflexivity. }
    pose proof (forallb_range _ _ _ Hall H ltac:(lia)) as Hb.
    apply bool_decide_eq_true in Hb. by apply Hb.
  - vm_compute. reflexivity.
  - vm_compute. reflexivity.
  - intros text h Hm. unfold policy._parse_time_to_hour. cbv zeta. by rewrite Hm.
  - split; vm_compute; reflexivity.
  - exact policy_parse_time_range.
  - intros t m Hm Hout. unfold policy.after_meridiem_hour. rewrite Hm. cbv zeta.
    destruct (policy.is_hour _) eqn:Hh; [|done].
    by apply is_hour_spec in Hh.
Qed.

(** C5. The hour extractor of the evaluator reads a 12-hour time with a
    meridiem marker and a 24-hour time with minutes, and every hour it
    returns is from 0 to 23.  A bare hour without minutes is not read: for
    "schedule a call at 21" it returns nothing, as for every bare hour from
    0 to 23, where the extractor of the constraint parser reads the same
    hour after "after". *)
Theorem bare_hour_not_read :
  _parse_time_to_hour "schedule a call at 21" = None
  ∧ (∀ H, 0 ≤ H ≤ 23 →
       _parse_time_to_hour (call_at_text H) = None
       ∧ policy._parse_time_to_hour (after_bare_text H) = Some H)
  ∧ _parse_time_to_hour "schedule a call at 21:00" = Some 21
  ∧ _parse_time_to_hour "schedule a call at 9 p.m." = Some 21
  ∧ _parse_time_to_hour "schedule a call at 10:30pm" = Some 22
  ∧ _parse_time_to_hour "schedule a call at 12am" = Some 0
  ∧ _parse_time_to_hour "schedule a call at 25:00" = None
  ∧ (∀ text h, _parse_time_to_hour text = Some h → 0 ≤ h ≤ 23).
Proof.
  split; [vm_compute; reflexivity|]. split.
  - intros H HH.
    assert (forallb (fun H =>
              bool_decide (_parse_time_to_hour (call_at_text H) = None
                           ∧ policy._parse_time_to_hour (after_bare_text H) = Some H))
              (seqZ 0 24) = true) as Hall.
    { vm_compute. reflexivity. }
    pose proof (forallb_range _ _ _ Hall H ltac:(lia)) as Hb.
    by apply bool_decide_eq_true in Hb.
  - do 5 (split; [vm_compute; reflexivity|]). exact parse_time_range.
Qed.

(** *** Instances of the general statements

    Each general statement above, applied to a run on the graph model or to
    a concrete text. *)

(** C1 at "schedule a call at 10pm" with the constraint of hour 21. *)
Lemma meeting_rule_example :
  ∃ d g',
    evaluate_request "demo_user" "schedule a call at 10pm" [no_meetings_after_21]
      uuid0 now0 store1 = Ok (d, g')
    ∧ decided_by (meeting_outcome (_parse_time_to_hour "schedule a call at 10pm"))
        "demo_user" "schedule a call at 10pm" [no_meetings_after_21] uuid0 now0
        store1 d g'.
Proof.
  destruct (evaluate_request "demo_user" "schedule a call at 10pm"
              [no_meetings_after_21] uuid0 now0 store1) as [[d g']|e] eqn:H;
    [|vm_compute in H; discriminate].
  exists d, g'. split; [reflexivity|].
  apply (proj1 meeting_rule); [vm_compute; reflexivity | exact H].
Defined.

(** C2 at "buy a license for $1500" with the cap 1000. *)
Lemma budget_rule_example :
  ∃ d g',
    evaluate_request "demo_user" "buy a license for $1500" [budget_cap_1000]
      uuid0 now0 store1 = Ok (d, g')
    ∧ decided_by (budget_outcome (_parse_amount "buy a license for $1500"))
        "demo_user" "buy a license for $1500" [budget_cap_1000] uuid0 now0
        store1 d g'.
Proof.
  destruct (evaluate_request "demo_user" "buy a license for $1500"
              [budget_cap_1000] uuid0 now0 store1) as [[d g']|e] eqn:H;
    [|vm_compute in H; discriminate].
  exists d, g'. split; [reflexivity|].
  apply (proj1 budget_rule); [vm_compute; reflexivity | exact H].
Defined.

(** C3 at "export the customer dataset to our contractor". *)
Lemma sharing_rule_example :
  ∃ d g',
    evaluate_request "demo_user" "export the customer dataset to our contractor"
      [no_sharing] uuid0 now0 store1 = Ok (d, g')
    ∧ decided_by
        (sharing_outcome
           (_mentions_external_party "export the customer dataset to our contractor"))
        "demo_user" "export the customer dataset to our contractor" [no_sharing]
        uuid0 now0 store1 d g'.
Proof.
  destruct (evaluate_request "demo_user" "export the customer dataset to our contractor"
              [no_sharing] uuid0 now0 store1) as [[d g']|e] eqn:H;
    [|vm_compute in H; discriminate].
  exists d, g'. split; [reflexivity|].
  apply (proj1 sharing_rule); [vm_compute; reflexivity | exact H].
Defined.

(** C7 at a request blocked by four constraints with different hours. *)
Lemma alternatives_deduplicated_example :
  ∃ d g',
    evaluate_request "demo_user" "schedule a call at 10pm" four_hours
      uuid0 now0 store1 = Ok (d, g')
    ∧ ok d = false
    ∧ ∃ vs alts,
        run_checks (classify_action "schedule a call at 10pm") "schedule a call at 10pm"
          (map normalize_constraint four_hours) = Ok (vs, alts)
        ∧ length alts = 12%nat
        ∧ alternatives d = list.take 5 (first_occurrences alts)
        ∧ (length (alternatives d) ≤ 5)%nat
        ∧ NoDup (alternatives d)
        ∧ alternatives d `sublist_of` alts.
Proof.
  destruct (evaluate_request "demo_user" "schedule a call at 10pm" four_hours
              uuid0 now0 store1) as [[d g']|e] eqn:H;
    [|vm_compute in H; discriminate].
  assert (ok d = false) as Hblocked.
  { vm_compute in H. by injection H as <- _. }
  exists d, g'. split; [reflexivity|]. split; [exact Hblocked|].
  destruct (proj1 alternatives_deduplicated _ _ _ _ _ _ _ _ _ _ H Hblocked)
    as (vs & alts & Hchk & Halts & Hlen & Hnd & Hsub & _).
  exists vs, alts. split; [exact Hchk|].
  split; [|by repeat split].
  vm_compute in Hchk. by injection Hchk as _ <-.
Defined.

(** C10 at a meeting constraint without parameters and a request for 22:00. *)
Lemma missing_parameter_defaults_example :
  max_hour_of (normalize_constraint no_meetings_unset) = Ok 21
  ∧ meeting_body (Some 22) (normalize_constraint no_meetings_unset) ([], [])
    = Ok ([(VStr "c-1", meeting_reason 22 21)], _alternatives_for_meeting 21).
Proof.
  apply (proj1 (proj2 (proj2 missing_parameter_defaults))
           (Some 22) (normalize_constraint no_meetings_unset) ∅ ([], []));
    reflexivity.
Defined.

(** C6 at a request with meeting and sharing vocabulary. *)
Lemma classify_action_order_example :
  classify_action "Share the data file from the meeting with the vendor"
  = SCHEDULE_MEETING.
Proof.
  apply (proj1 (proj2 (proj2 classify_action_order)) _ "meeting");
    [apply list_elem_of_here | vm_compute; reflexivity].
Defined.

(** C9 at "after 9pm". *)
Lemma after_meridiem_conversion_example :
  policy._parse_time_to_hour (after_pm_text 9) = Some 21.
Proof.
  apply (proj1 (proj2 (proj2 (proj2 after_meridiem_conversion))) 9); lia.
Defined.

(** ** Further properties of the code *)

(** *** Normalization *)

Lemma is_space_lower_char c : is_space (lower_char c) = is_space c.
Proof. destruct c as [[] [] [] [] [] [] [] []]; reflexivity. Qed.

Lemma lower_char_idem c : lower_char (lower_char c) = lower_char c.
Proof. destruct c as [[] [] [] [] [] [] [] []]; reflexivity. Qed.

Lemma lower_idem s : lower (lower s) = lower s.
Proof. induction s as [|c s IH]; [done|]. cbn [lower]. by rewrite lower_char_idem, IH. Qed.

Lemma starts_clean_lstrip s : starts_clean (lstrip s) = true.
Proof.
  induction s as [|c s IH]; [done|]. cbn [lstrip].
  destruct (is_space c) eqn:Hc; [done|]. cbn [starts_clean]. by rewrite Hc.
Qed.

Lemma starts_clean_rstrip s : starts_clean s = true → starts_clean (rstrip s) = true.
Proof.
  destruct s as [|c s]; [done|]. cbn [rstrip starts_clean]. intros Hc.
  destruct (rstrip s); [|exact Hc].
  destruct (is_space c) eqn:E; [done|]. cbn. by rewrite E.
Qed.

Lemma ends_clean_rstrip s : ends_clean (rstrip s) = true.
Proof.
  induction s as [|c s IH]; [done|]. cbn [rstrip].
  destruct (rstrip s) as [|d r]; [|done].
  destruct (is_space c) eqn:Hc; [done|]. cbn. by rewrite Hc.
Qed.

Lemma starts_clean_lower s : starts_clean (lower s) = starts_clean s.
Proof. destruct s as [|c s]; [done|]. cbn. by rewrite is_space_lower_char. Qed.

Lemma ends_clean_lower s : ends_clean (lower s) = ends_clean s.
Proof.
  induction s as [|c s IH]; [done|]. cbn [lower ends_clean].
  destruct s as [|d s]; [cbn; by rewrite is_space_lower_char|]. exact IH.
Qed.

Lemma lstrip_clean s : starts_clean s = true → lstrip s = s.
Proof. destruct s as [|c s]; [done|]. cbn. by destruct (is_space c). Qed.

Lemma rstrip_clean s : ends_clean s = true → rstrip s = s.
Proof.
  induction s as [|c s IH]; [done|]. cbn [ends_clean rstrip].
  destruct s as [|d s].
  - cbn. by destruct (is_space c).
  - intros Hs. by rewrite (IH Hs).
Qed.

(** Stripping a stripped text changes nothing. *)
Lemma strip_idem s : strip (strip s) = strip s.
Proof.
  unfold strip.
  rewrite (lstrip_clean (rstrip _)) by apply starts_clean_rstrip, starts_clean_lstrip.
  apply rstrip_clean, ends_clean_rstrip.
Qed.

Lemma ends_clean_tail c s : ends_clean (String c s) = true → ends_clean s = true.
Proof. by destruct s. Qed.

Lemma sub_spaces_nonempty f s :
  ends_clean s = true → s ≠ "" → sub_spaces f s ≠ "".
Proof.
  revert f. induction s as [|c s IH]; intros f Hs Hne; [done|].
  cbn [sub_spaces]. destruct (is_space c) eqn:Hc; [|done].
  assert (s ≠ "") as Hs' by (intros ->; cbn in Hs; by rewrite Hc in Hs).
  destruct f; [|done]. apply IH; [by eapply ends_clean_tail|done].
Qed.

Lemma starts_clean_sub_spaces s : starts_clean (sub_spaces true s) = true.
Proof.
  induction s as [|c s IH]; [done|]. cbn [sub_spaces].
  destruct (is_space c) eqn:Hc; [done|]. cbn. by rewrite Hc.
Qed.

Lemma single_spaced_sub_spaces f s :
  ends_clean s = true → single_spaced (sub_spaces f s) = true.
Proof.
  revert f. induction s as [|c s IH]; intros f Hs; [done|].
  pose proof (ends_clean_tail _ _ Hs) as Hs'.
  cbn [sub_spaces]. destruct (is_space c) eqn:Hc.
  - destruct f; [by apply IH|].
    cbn [single_spaced]. rewrite (IH true Hs'), andb_true_r.
    change (is_space " ") with true. cbv iota.
    change (is_char " " " ") with true. cbn [andb].
    assert (s ≠ "") as Hne by (intros ->; cbn in Hs; by rewrite Hc in Hs).
    pose proof (sub_spaces_nonempty true s Hs' Hne) as Hout.
    pose proof (starts_clean_sub_spaces s) as Hst.
    by destruct (sub_spaces true s).
  - cbn [single_spaced]. rewrite Hc. by apply IH.
Qed.

Lemma lower_sub_spaces f s : lower s = s → lower (sub_spaces f s) = sub_spaces f s.
Proof.
  revert f. induction s as [|c s IH]; intros f Hs; [done|].
  cbn [lower] in Hs. injection Hs as Hc Hs.
  cbn [sub_spaces]. destruct (is_space c).
  - destruct f; [by apply IH|]. cbn [lower]. by rewrite (IH true Hs).
  - cbn [lower]. by rewrite Hc, (IH false Hs).
Qed.

Lemma norm_normal s : normal_form (_norm s).
Proof.
  unfold _norm, strip. split; [|split].
  - pose proof (starts_clean_rstrip _ (starts_clean_lstrip s)) as Hst.
    rewrite <- starts_clean_lower in Hst.
    destruct (lower _) as [|c r]; [done|]. cbn in Hst |- *.
    destruct (is_space c) eqn:E; [done|]. cbn. by rewrite E.
  - apply single_spaced_sub_spaces. rewrite ends_clean_lower. apply ends_clean_rstrip.
  - apply lower_sub_spaces, lower_idem.
Qed.

Lemma single_spaced_ends_clean s : single_spaced s = true → ends_clean s = true.
Proof.
  induction s as [|c s IH]; [done|]. cbn [single_spaced ends_clean].
  intros [Hc Hs]%andb_prop. destruct s as [|d s]; [|by apply IH].
  destruct (is_space c); [|done]. by rewrite andb_false_r in Hc.
Qed.

Lemma sub_spaces_single_spaced s :
  single_spaced s = true →
  sub_spaces false s = s ∧ (starts_clean s = true → sub_spaces true s = s).
Proof.
  induction s as [|c s IH]; [done|]. cbn [single_spaced].
  intros [Hc Hs]%andb_prop. destruct (IH Hs) as [IH0 IH1].
  cbn [sub_spaces starts_clean]. destruct (is_space c) eqn:Hsp.
  - apply andb_prop in Hc as [Hc Hd]. apply is_char_eq in Hc as <-.
    split; [|done]. f_equal. apply IH1. by destruct s.
  - by rewrite IH0.
Qed.

(** A text in normal form is left as it is. *)
Lemma norm_of_normal s : normal_form s → _norm s = s.
Proof.
  intros (Hst & Hsp & Hlow). unfold _norm, strip.
  rewrite (lstrip_clean s Hst), (rstrip_clean s (single_spaced_ends_clean s Hsp)), Hlow.
  by apply sub_spaces_single_spaced.
Qed.

(** X1. Normalizing a text twice gives what normalizing it once gives, in
    the evaluator ([_norm]) and in the constraint parser ([_normalize]). *)
Theorem norm_idempotent s :
  _norm (_norm s) = _norm s
  ∧ policy._normalize (policy._normalize s) = policy._normalize s.
Proof. split; apply norm_of_normal, norm_normal. Qed.

(** X2. A normalized text has no white space at either end, its only
    white-space characters are single spaces between other characters, and
    it has no letter that [str.lower] would change. *)
Theorem norm_normal_form s :
  let t := _norm s in
  starts_clean t = true ∧ ends_clean t = true ∧ single_spaced t = true ∧ lower t = t.
Proof.
  destruct (norm_normal s) as (Hst & Hsp & Hlow).
  cbv zeta. auto using single_spaced_ends_clean.
Qed.

(** *** The text kept with a constraint *)

Lemma parse_constraint_strip s u :
  policy.parse_constraint (strip s) u = policy.parse_constraint s u.
Proof. unfold policy.parse_constraint. by rewrite strip_idem. Qed.

Lemma parse_constraint_fields s u c e :
  policy.parse_constraint s u = (Some c, e) →
  policy.text c = strip s ∧ policy.id c = "c-" ++ str_take 8 u ∧ e = None.
Proof.
  unfold policy.parse_constraint.
  destruct (policy.meeting_trigger _).
  { destruct (policy._parse_time_to_hour _); [|done]. by intros [= <- <-]. }
  destruct (policy.budget_trigger _).
  { destruct (policy._parse_money_amount _); [|done]. by intros [= <- <-]. }
  destruct (policy.sharing_trigger _); [|done]. by intros [= <- <-].
Qed.

Lemma parse_constraint_uuid s u u' c :
  policy.parse_constraint s u = (Some c, None) →
  policy.parse_constraint s u' = (Some (with_id c u'), None).
Proof.
  unfold policy.parse_constraint.
  destruct (policy.meeting_trigger _).
  { destruct (policy._parse_time_to_hour _); [|done]. by intros [= <-]. }
  destruct (policy.budget_trigger _).
  { destruct (policy._parse_money_amount _); [|done]. by intros [= <-]. }
  destruct (policy.sharing_trigger _); [|done]. by intros [= <-].
Qed.

(** X3. The text kept with a parsed constraint parses again to the same
    constraint: the same type, severity, text and parameters, under the
    identifier that the later call draws. *)
Theorem parse_constraint_reparse s u u' c :
  policy.parse_constraint s u = (Some c, None) →
  policy.parse_constraint (policy.text c) u' = (Some (with_id c u'), None).
Proof.
  intros Hc. destruct (parse_constraint_fields _ _ _ _ Hc) as (-> & _ & _).
  rewrite parse_constraint_strip. exact (parse_constraint_uuid s u u' c Hc).
Qed.

(** *** The checks over a list of constraints *)

Lemma for_each_app {A S} (body : A -> S -> result S) l1 l2 st :
  for_each body (l1 ++ l2)%list st = (for_each body l1 st ≫= for_each body l2).
Proof.
  revert st. induction l1 as [|c l1 IH]; intros st; [done|].
  cbn [for_each app]. destruct (body c st) as [st1|e]; [|done]. apply IH.
Qed.

Lemma for_each_shift {A} (body : A -> findings -> result findings) l :
  (∀ c st, body c st
           = (fun p : findings => ((st.1 ++ p.1)%list, (st.2 ++ p.2)%list)) <$> body c ([], [])) →
  ∀ st, for_each body l st
        = (fun p : findings => ((st.1 ++ p.1)%list, (st.2 ++ p.2)%list))
            <$> for_each body l ([], []).
Proof.
  intros Hbody. induction l as [|c l IH]; intros st.
  - cbn. destruct st. by rewrite !app_nil_r.
  - cbn [for_each]. rewrite (Hbody c st).
    destruct (body c ([], [])) as [[v a]|e]; [|done]. cbn.
    rewrite IH. rewrite (IH (v, a)).
    destruct (for_each body l ([], [])) as [[v' a']|e]; [|done]. cbn.
    by rewrite !app_assoc.
Qed.

Lemma meeting_body_shift rh c st :
  meeting_body rh c st
  = (fun p : findings => ((st.1 ++ p.1)%list, (st.2 ++ p.2)%list))
      <$> meeting_body rh c ([], []).
Proof.
  unfold meeting_body. destruct st as [v a].
  destruct (eq_str _ _); [|cbn; by rewrite !app_nil_r].
  destruct (max_hour_of c) as [h|e]; [|done]. cbn.
  destruct rh as [r|]; [|cbn; by rewrite !app_nil_r].
  destruct (r >? h); cbn; [done|by rewrite !app_nil_r].
Qed.

Lemma sharing_body_shift c st :
  sharing_body c st
  = (fun p : findings => ((st.1 ++ p.1)%list, (st.2 ++ p.2)%list))
      <$> sharing_body c ([], []).
Proof.
  unfold sharing_body. destruct st as [v a].
  destruct (eq_str _ _); cbn; [done|by rewrite !app_nil_r].
Qed.

Lemma budget_body_shift amt c st :
  budget_body amt c st
  = (fun p : findings => ((st.1 ++ p.1)%list, (st.2 ++ p.2)%list))
      <$> budget_body amt c ([], []).
Proof.
  unfold budget_body. destruct st as [v a].
  destruct (eq_str _ _); [|cbn; by rewrite !app_nil_r].
  destruct (cap_of c) as [h|e]; [|done]. cbn.
  destruct amt as [r|]; [|cbn; by rewrite !app_nil_r].
  destruct (_ && _); cbn; [done|by rewrite !app_nil_r].
Qed.

Lemma for_each_app_shift {A} (body : A -> findings -> result findings) l1 l2 :
  (∀ c st, body c st
           = (fun p : findings => ((st.1 ++ p.1)%list, (st.2 ++ p.2)%list)) <$> body c ([], [])) →
  for_each body (l1 ++ l2)%list ([], [])
  = (p1 ← for_each body l1 ([], []);
     p2 ← for_each body l2 ([], []);
     Ok ((p1.1 ++ p2.1)%list, (p1.2 ++ p2.2)%list)).
Proof.
  intros Hbody. rewrite for_each_app.
  destruct (for_each body l1 ([], [])) as [p1|e]; [|done]. cbn.
  rewrite (for_each_shift body l2 Hbody p1).
  by destruct (for_each body l2 ([], [])).
Qed.

(** The action type is one of the four. *)
Lemma classify_action_cases req :
  classify_action req = SCHEDULE_MEETING ∨ classify_action req = SHARE_DATA
  ∨ classify_action req = SPEND_MONEY ∨ classify_action req = UNKNOWN.
Proof.
  unfold classify_action.
  destruct (any_in meeting_words _); [by left|].
  destruct (_ && _); [by right; left|].
  destruct (_ || _); [by right; right; left|by right; right; right].
Qed.

Lemma run_checks_other t req ncs :
  t ≠ SCHEDULE_MEETING → t ≠ SHARE_DATA → t ≠ SPEND_MONEY →
  run_checks t req ncs = Ok ([], []).
Proof.
  intros H1 H2 H3. unfold run_checks.
  apply String.eqb_neq in H1, H2, H3. by rewrite H1, H2, H3.
Qed.

Lemma run_checks_app t req l1 l2 :
  run_checks t req (l1 ++ l2)
  = (p1 ← run_checks t req l1;
     p2 ← run_checks t req l2;
     Ok ((p1.1 ++ p2.1)%list, (p1.2 ++ p2.2)%list)).
Proof.
  destruct (decide (t = SCHEDULE_MEETING)) as [->|H1].
  { rewrite !run_checks_meeting. apply for_each_app_shift, meeting_body_shift. }
  destruct (decide (t = SHARE_DATA)) as [->|H2].
  { rewrite !run_checks_sharing. destruct (_mentions_external_party req); [|done].
    apply for_each_app_shift, sharing_body_shift. }
  destruct (decide (t = SPEND_MONEY)) as [->|H3].
  { rewrite !run_checks_spending. apply for_each_app_shift, budget_body_shift. }
  by rewrite !run_checks_other.
Qed.

(** X4. The checks judge each constraint on its own: over two lists of
    constraints one after the other they collect what they collect over the
    first, followed by what they collect over the second, and they raise
    when they raise on either. *)
Theorem checks_compose t req (cs1 cs2 : list dict) :
  run_checks t req (map normalize_constraint (cs1 ++ cs2))
  = (p1 ← run_checks t req (map normalize_constraint cs1);
     p2 ← run_checks t req (map normalize_constraint cs2);
     Ok ((p1.1 ++ p2.1)%list, (p1.2 ++ p2.2)%list)).
Proof. rewrite map_app. apply run_checks_app. Qed.

(** X5. More constraints never unblock a request: when a request is blocked
    under some constraints, every run that returns under these constraints
    with others before or after them blocks it too. *)
Theorem more_constraints_never_unblock `{Neo4jClient G}
    uid req cs before after u t (g : G) d g' uid2 u2 t2 (g2 : G) d2 g2' :
  evaluate_request uid req cs u t g = Ok (d, g') →
  ok d = false →
  evaluate_request uid2 req (before ++ cs ++ after) u2 t2 g2 = Ok (d2, g2') →
  ok d2 = false.
Proof.
  intros Hrun Hok Hrun2.
  apply evaluate_request_inv in Hrun as (_ & vs & alts & _ & Hchk & _ & _ & _ & _ & Hd).
  apply evaluate_request_inv in Hrun2 as (_ & vs2 & alts2 & _ & Hchk2 & _ & _ & _ & _ & Hd2).
  destruct Hd as [(_ & Hd & _)|(Hvs & _)]; [congruence|].
  destruct Hd2 as [(Hvs2 & _)|(_ & Hd2 & _)]; [|done].
  exfalso. rewrite !map_app, !run_checks_app, Hchk in Hchk2.
  destruct (run_checks _ _ (map _ before)) as [[v0 a0]|]; [|done].
  destruct (run_checks _ _ (map _ after)) as [[v1 a1]|]; [|done].
  cbn in Hchk2. rewrite Hvs2 in Hchk2. injection Hchk2 as Hv _.
  apply app_eq_nil in Hv as [_ Hv]. by apply app_eq_nil in Hv as [Hv _].
Qed.

(** X6. A request that is none of a meeting, a sharing of data or a spending
    is approved whatever the constraints are, also when they are malformed:
    the run records the action, reads no constraint and returns the approval
    with no violation and no suggestion. *)
Theorem unknown_request_approved `{Neo4jClient G} uid req cs u t (g : G) :
  classify_action req = UNKNOWN →
  evaluate_request uid req cs u t g
  = (g1 ← record_action uid (recorded_action req u t) g; Ok (approved u UNKNOWN, g1)).
Proof.
  intros Hty. unfold evaluate_request, recorded_action. rewrite Hty.
  by rewrite run_checks_unknown.
Qed.

Lemma for_each_filter {A S} (body : A -> S -> result S) (p : A -> bool) l :
  (∀ c st, p c = false → body c st = Ok st) →
  ∀ st, for_each body (filter (fun c => p c = true) l) st = for_each body l st.
Proof.
  intros Hbody. induction l as [|c l IH]; intros st; [done|].
  destruct (p c) eqn:Hp.
  - rewrite filter_cons_True by done. cbn [for_each].
    destruct (body c st); [|done]. apply IH.
  - rewrite filter_cons_False by (by rewrite Hp). cbn [for_each].
    rewrite (Hbody c st Hp). apply IH.
Qed.

Lemma map_filter_normalize (p : pyval -> bool) (cs : list dict) :
  map normalize_constraint (filter (fun c => p (dict_get c "type" VNone) = true) cs)
  = filter (fun c => p (n_type c) = true) (map normalize_constraint cs).
Proof.
  induction cs as [|c cs IH]; [done|]. cbn [map].
  destruct (p (dict_get c "type" VNone)) eqn:Hp.
  - rewrite !filter_cons_True by done. cbn [map]. by rewrite IH.
  - rewrite !filter_cons_False by (cbn; by rewrite Hp). done.
Qed.

Lemma run_checks_examined t req cs :
  run_checks t req (map normalize_constraint (filter (fun c => examined t c = true) cs))
  = run_checks t req (map normalize_constraint cs).
Proof.
  destruct (decide (t = SCHEDULE_MEETING)) as [->|H1].
  { rewrite !run_checks_meeting.
    rewrite (map_filter_normalize (fun v => eq_str v policy.NO_MEETINGS_AFTER_HOUR)).
    apply (for_each_filter _ (fun c => eq_str (n_type c) policy.NO_MEETINGS_AFTER_HOUR)).
    intros c st Hc. unfold meeting_body. by rewrite Hc. }
  destruct (decide (t = SHARE_DATA)) as [->|H2].
  { rewrite !run_checks_sharing. destruct (_mentions_external_party req); [|done].
    rewrite (map_filter_normalize (fun v => eq_str v policy.NO_SHARING_WITH_EXTERNALS)).
    apply (for_each_filter _ (fun c => eq_str (n_type c) policy.NO_SHARING_WITH_EXTERNALS)).
    intros c st Hc. unfold sharing_body. by rewrite Hc. }
  destruct (decide (t = SPEND_MONEY)) as [->|H3].
  { rewrite !run_checks_spending.
    rewrite (map_filter_normalize (fun v => eq_str v policy.BUDGET_CAP)).
    apply (for_each_filter _ (fun c => eq_str (n_type c) policy.BUDGET_CAP)).
    intros c st Hc. unfold budget_body. by rewrite Hc. }
  by rewrite !run_checks_other.
Qed.

(** X7. A request is judged only against the constraints of the type that
    goes with its action type (a meeting against NO_MEETINGS_AFTER_HOUR, a
    sharing against NO_SHARING_WITH_EXTERNALS, a spending against
    BUDGET_CAP): the run is the same with the other constraints removed,
    whatever they hold. *)
Theorem other_constraints_ignored `{Neo4jClient G} uid req cs u t (g : G) :
  evaluate_request uid req cs u t g
  = evaluate_request uid req
      (filter (fun c => examined (classify_action req) c = true) cs) u t g.
Proof. unfold evaluate_request. by rewrite run_checks_examined. Qed.

Lemma for_each_raises {A S} (body : A -> S -> result S) l c :
  c ∈ l → (∀ st, ∃ e, body c st = Raise e) →
  ∀ st, ∃ e, for_each body l st = Raise e.
Proof.
  intros Hin Hc. induction l as [|c' l IH]; intros st; [by apply elem_of_nil in Hin|].
  cbn [for_each]. apply elem_of_cons in Hin as [<-|Hin].
  - destruct (Hc st) as [e ->]. by exists e.
  - destruct (body c' st) as [st1|e]; [|by exists e]. by apply IH.
Qed.

(** X8. A parameter that cannot be converted makes the run raise: a meeting
    request raises when a NO_MEETINGS_AFTER_HOUR constraint has an hour that
    [int] rejects, and a spending request raises when a BUDGET_CAP constraint
    has an amount that [float] rejects, whether or not the request names a
    time or an amount. *)
Theorem unreadable_parameter_raises `{Neo4jClient G} uid req cs c e u t (g : G) :
  c ∈ cs →
  (classify_action req = SCHEDULE_MEETING
   ∧ eq_str (dict_get c "type" VNone) policy.NO_MEETINGS_AFTER_HOUR = true
   ∧ max_hour_of (normalize_constraint c) = Raise e)
  ∨ (classify_action req = SPEND_MONEY
     ∧ eq_str (dict_get c "type" VNone) policy.BUDGET_CAP = true
     ∧ cap_of (normalize_constraint c) = Raise e) →
  ∃ e', evaluate_request uid req cs u t g = Raise e'.
Proof.
  intros Hin Hbad. unfold evaluate_request.
  destruct (record_action _ _ _) as [g1|e1]; [|by exists e1]. cbn.
  assert (∃ e', run_checks (classify_action req) req (map normalize_constraint cs)
                = Raise e') as [e' ->]; [|by exists e'].
  assert (normalize_constraint c ∈ map normalize_constraint cs) as Hin'
    by (apply list_elem_of_fmap; eauto).
  destruct Hbad as [(-> & Hty & Hh)|(-> & Hty & Hcap)].
  - rewrite run_checks_meeting. eapply for_each_raises; [exact Hin'|].
    intros st. exists e. unfold meeting_body.
    change (n_type (normalize_constraint c)) with (dict_get c "type" VNone).
    by rewrite Hty, Hh.
  - rewrite run_checks_spending. eapply for_each_raises; [exact Hin'|].
    intros st. exists e. unfold budget_body.
    change (n_type (normalize_constraint c)) with (dict_get c "type" VNone).
    by rewrite Hty, Hcap.
Qed.

(** *** The suggestions of a blocked request *)

Lemma meeting_suggestions h :
  ∃ x y z, _alternatives_for_meeting h = [x; y; z] ∧ x ≠ y ∧ x ≠ z ∧ y ≠ z.
Proof.
  unfold _alternatives_for_meeting. do 3 eexists. split; [reflexivity|].
  repeat split; rewrite ?append_cons; discriminate.
Qed.

Lemma sharing_suggestions :
  ∃ x y z, _alternatives_for_sharing = [x; y; z] ∧ x ≠ y ∧ x ≠ z ∧ y ≠ z.
Proof. do 3 eexists. split; [reflexivity|]. repeat split; discriminate. Qed.

Lemma budget_suggestions cap :
  ∃ x y z, _alternatives_for_budget cap = [x; y; z] ∧ x ≠ y ∧ x ≠ z ∧ y ≠ z.
Proof.
  unfold _alternatives_for_budget. do 3 eexists. split; [reflexivity|].
  repeat split; rewrite ?append_cons; discriminate.
Qed.

(** Nothing is collected yet, or the suggestions begin with three different
    ones. *)
Lemma three_suggestions_step (st p : findings) :
  (st = ([], []) ∨ ∃ x y z rest, st.2 = x :: y :: z :: rest ∧ x ≠ y ∧ x ≠ z ∧ y ≠ z) →
  (p = ([], []) ∨ ∃ v x y z, p = ([v], [x; y; z]) ∧ x ≠ y ∧ x ≠ z ∧ y ≠ z) →
  let st' : findings := ((st.1 ++ p.1)%list, (st.2 ++ p.2)%list) in
  st' = ([], []) ∨ ∃ x y z rest, st'.2 = x :: y :: z :: rest ∧ x ≠ y ∧ x ≠ z ∧ y ≠ z.
Proof.
  intros [->|(x & y & z & rest & Hst & Hd)] [->|(v & x' & y' & z' & -> & Hd')]; cbn.
  - by left.
  - right. by exists x', y', z', [].
  - right. exists x, y, z, rest. by rewrite app_nil_r.
  - right. exists x, y, z, (rest ++ [x'; y'; z'])%list. by rewrite Hst.
Qed.

Lemma run_checks_three t req ncs vs alts :
  run_checks t req ncs = Ok (vs, alts) → vs ≠ [] →
  ∃ x y z rest, alts = x :: y :: z :: rest ∧ x ≠ y ∧ x ≠ z ∧ y ≠ z.
Proof.
  intros Hrun Hvs.
  set (P := fun st : findings =>
              st = ([], []) ∨ ∃ x y z rest, st.2 = x :: y :: z :: rest ∧ x ≠ y ∧ x ≠ z ∧ y ≠ z).
  assert (P (vs, alts)) as [[= -> _]|Hthree]; [|done|exact Hthree].
  assert (P ([], [])) as Hnil by (by left).
  revert Hrun.
  destruct (decide (t = SCHEDULE_MEETING)) as [->|H1].
  { rewrite run_checks_meeting.
    apply (for_each_invariant _ P); [|done].
    intros c st st' Hst Hb. apply meeting_body_outcome in Hb as (p & Hp & ->).
    apply three_suggestions_step; [done|].
    unfold meeting_outcome in Hp. destruct (eq_str _ _); [|by left].
    destruct Hp as (h & _ & [(r & _ & _ & ->)|(_ & ->)]); [|by left].
    right. destruct (meeting_suggestions h) as (x & y & z & -> & Hd). by eexists _, x, y, z. }
  destruct (decide (t = SHARE_DATA)) as [->|H2].
  { rewrite run_checks_sharing.
    destruct (_mentions_external_party req); [|by intros [= <- <-]].
    apply (for_each_invariant _ P); [|done].
    intros c st st' Hst Hb. apply sharing_body_outcome in Hb as (p & Hp & ->).
    apply three_suggestions_step; [done|].
    unfold sharing_outcome in Hp. destruct (eq_str _ _); [|by left].
    destruct Hp as [(_ & ->)|(_ & ->)]; [|by left].
    right. destruct sharing_suggestions as (x & y & z & -> & Hd). by eexists _, x, y, z. }
  destruct (decide (t = SPEND_MONEY)) as [->|H3].
  { rewrite run_checks_spending.
    apply (for_each_invariant _ P); [|done].
    intros c st st' Hst Hb. apply budget_body_outcome in Hb as (p & Hp & ->).
    apply three_suggestions_step; [done|].
    unfold budget_outcome in Hp. destruct (eq_str _ _); [|by left].
    destruct Hp as (cap & _ & [(r & _ & _ & _ & ->)|(_ & ->)]); [|by left].
    right. destruct (budget_suggestions cap) as (x & y & z & -> & Hd). by eexists _, x, y, z. }
  rewrite run_checks_other by done. by intros [= <- <-].
Qed.

(** X9. A blocked request comes with at least three and at most five
    suggestions. *)
Theorem blocked_suggestions_count `{Neo4jClient G} uid req cs u t (g : G) d g' :
  evaluate_request uid req cs u t g = Ok (d, g') →
  ok d = false →
  (3 ≤ length (alternatives d) ≤ 5)%nat.
Proof.
  intros Hrun Hok.
  apply evaluate_request_inv in Hrun as (_ & vs & alts & _ & Hchk & _ & _ & _ & -> & Hd).
  destruct Hd as [(_ & Hd & _)|(Hvs & _)]; [congruence|].
  destruct (run_checks_three _ _ _ _ _ Hchk Hvs) as (x & y & z & rest & -> & Hxy & Hxz & Hyz).
  rewrite dedup_alternatives_spec, length_take. cbn [first_occurrences].
  rewrite (filter_cons_True _ z) by done.
  rewrite (filter_cons_True _ y) by done.
  rewrite (filter_cons_True _ z) by done.
  cbn [length]. lia.
Qed.

(** *** What the decision reads of a constraint *)

Lemma normalize_same_decisive c c' :
  same_decisive c c' →
  n_id (normalize_constraint c) = n_id (normalize_constraint c')
  ∧ n_type (normalize_constraint c) = n_type (normalize_constraint c')
  ∧ n_params (normalize_constraint c) = n_params (normalize_constraint c').
Proof.
  intros Hk. unfold normalize_constraint, dict_get. cbn.
  rewrite (Hk "constraint_id"), (Hk "id"), (Hk "constraintId"), (Hk "type"), (Hk "params");
    [done|unfold decisive_keys; set_solver..].
Qed.

Lemma for_each_ext {A S} (body : A -> S -> result S) (R : A -> A -> Prop) l l' :
  (∀ a b st, R a b → body a st = body b st) →
  Forall2 R l l' → ∀ st, for_each body l st = for_each body l' st.
Proof.
  intros Hbody. induction 1 as [|a b l l' Hab _ IH]; intros st; [done|].
  cbn [for_each]. rewrite (Hbody a b st Hab). destruct (body b st); [|done]. apply IH.
Qed.

Lemma run_checks_ext t req ncs ncs' :
  Forall2 (fun c c' => n_id c = n_id c' ∧ n_type c = n_type c' ∧ n_params c = n_params c')
    ncs ncs' →
  run_checks t req ncs = run_checks t req ncs'.
Proof.
  intros Hcs.
  destruct (decide (t = SCHEDULE_MEETING)) as [->|H1].
  { rewrite !run_checks_meeting. eapply for_each_ext; [|exact Hcs].
    intros a b st (Hid & Hty & Hp). unfold meeting_body, max_hour_of.
    by rewrite Hid, Hty, Hp. }
  destruct (decide (t = SHARE_DATA)) as [->|H2].
  { rewrite !run_checks_sharing. destruct (_mentions_external_party req); [|done].
    eapply for_each_ext; [|exact Hcs].
    intros a b st (Hid & Hty & Hp). unfold sharing_body. by rewrite Hid, Hty. }
  destruct (decide (t = SPEND_MONEY)) as [->|H3].
  { rewrite !run_checks_spending. eapply for_each_ext; [|exact Hcs].
    intros a b st (Hid & Hty & Hp). unfold budget_body, cap_of.
    by rewrite Hid, Hty, Hp. }
  by rewrite !run_checks_other.
Qed.

(** X10. The decision reads a constraint only through its identifier (the
    keys "constraint_id", "id" and "constraintId"), its type and its
    parameters: two lists of constraints that agree on these keys, entry by
    entry, give the same run.  The severity and the text of a constraint
    play no role, so a constraint marked SOFT blocks like one marked HARD. *)
Theorem severity_not_consulted `{Neo4jClient G} uid req cs cs' u t (g : G) :
  Forall2 same_decisive cs cs' →
  evaluate_request uid req cs u t g = evaluate_request uid req cs' u t g.
Proof.
  intros Hcs. unfold evaluate_request.
  rewrite (run_checks_ext _ _ (map normalize_constraint cs) (map normalize_constraint cs'));
    [done|].
  apply Forall2_fmap. eapply Forall2_impl; [exact Hcs|].
  intros c c'. apply normalize_same_decisive.
Qed.

(** *** The run on the graph model *)

(** Recording a violation of an action writes a [VIOLATES] relationship from
    that action and nothing else. *)
Lemma record_violation_frame aid cid reason (g : graph) :
  let g' := graph_record_violation aid cid reason g in
  users g' = users g ∧ constraint_nodes g' = constraint_nodes g
  ∧ action_nodes g' = action_nodes g ∧ time_windows g' = time_windows g
  ∧ resources g' = resources g ∧ has_constraint g' = has_constraint g
  ∧ requested g' = requested g ∧ requires_timewindow g' = requires_timewindow g
  ∧ bans_resource g' = bans_resource g
  ∧ (∀ a c, a ≠ aid → violates g' !! (a, c) = violates g !! (a, c))
  ∧ (∀ c, is_Some (violates g !! (aid, c)) → is_Some (violates g' !! (aid, c))).
Proof.
  cbv zeta. unfold graph_record_violation.
  destruct cid as [| | | |cid| |]; try (repeat split; auto; fail).
  destruct (_ && _); [|repeat split; auto].
  cbn. repeat split; auto.
  - intros a c Ha. apply lookup_insert_ne. congruence.
  - intros c Hc.
    destruct (decide ((aid, cid) = (aid, c))) as [->|Hne].
    + rewrite lookup_insert_eq. eauto.
    + by rewrite lookup_insert_ne.
Qed.

Lemma record_violations_frame aid (vs : list (pyval * string)) (g g' : graph) :
  for_each (fun '(cid, reason) g => record_violation aid cid reason g) vs g = Ok g' →
  users g' = users g ∧ constraint_nodes g' = constraint_nodes g
  ∧ action_nodes g' = action_nodes g ∧ time_windows g' = time_windows g
  ∧ resources g' = resources g ∧ has_constraint g' = has_constraint g
  ∧ requested g' = requested g ∧ requires_timewindow g' = requires_timewindow g
  ∧ bans_resource g' = bans_resource g
  ∧ (∀ a c, a ≠ aid → violates g' !! (a, c) = violates g !! (a, c))
  ∧ (∀ c, is_Some (violates g !! (aid, c)) → is_Some (violates g' !! (aid, c))).
Proof.
  revert g. induction vs as [|[cid reason] vs IH]; intros g Hrun.
  - injection Hrun as <-. repeat split; auto.
  - cbn [for_each] in Hrun. cbn in Hrun.
    apply IH in Hrun as (-> & -> & -> & -> & -> & -> & -> & -> & -> & Hv & Hk).
    destruct (record_violation_frame aid cid reason g)
      as (-> & -> & -> & -> & -> & -> & -> & -> & -> & Hv1 & Hk1).
    repeat split; auto.
    intros a c Ha. by rewrite Hv, Hv1.
Qed.

(** A recorded violation of a constraint that the graph holds stays
    recorded. *)
Lemma record_violations_recorded aid (vs : list (pyval * string)) (g g' : graph) cid reason :
  for_each (fun '(cid, reason) g => record_violation aid cid reason g) vs g = Ok g' →
  (VStr cid, reason) ∈ vs →
  is_Some (action_nodes g !! aid) → is_Some (constraint_nodes g !! cid) →
  is_Some (violates g' !! (aid, cid)).
Proof.
  revert g. induction vs as [|[cid' reason'] vs IH]; intros g Hrun Hin Ha Hc.
  - by apply elem_of_nil in Hin.
  - cbn [for_each] in Hrun. cbn in Hrun.
    apply elem_of_cons in Hin as [[= <- <-]|Hin].
    + apply record_violations_frame in Hrun as (_ & _ & _ & _ & _ & _ & _ & _ & _ & _ & Hk).
      apply Hk. unfold graph_record_violation.
      rewrite !bool_decide_eq_true_2 by done. cbn.
      rewrite lookup_insert_eq. eauto.
    + destruct (record_violation_frame aid cid' reason' g) as (_ & Hcn & Han & _).
      apply (IH _ Hrun Hin); [by rewrite Han|by rewrite Hcn].
Qed.

Lemma optional_match_nonempty {V} edges (nodes : gmap string V) cid :
  optional_match edges nodes cid ≠ [].
Proof. unfold optional_match. by destruct (omap _ _). Qed.

Lemma explain_row_fields cid c tw r :
  explain_row cid c tw r !! "constraint_id" = Some (VStr cid)
  ∧ explain_row cid c tw r !! "type" = Some (VStr (c_type c))
  ∧ explain_row cid c tw r !! "severity" = Some (VStr (c_severity c))
  ∧ explain_row cid c tw r !! "text" = Some (VStr (c_text c))
  ∧ explain_row cid c tw r !! "params" = Some (VDict (c_params c)).
Proof. repeat split; reflexivity. Qed.

(** The rows of the explanation query. *)
Lemma explain_violations_rows uid aid (g : graph) row :
  row ∈ graph_explain_violations uid aid g ↔
  ∃ cid c tw r,
    constraint_nodes g !! cid = Some c ∧ (uid, cid) ∈ has_constraint g
    ∧ uid ∈ users g ∧ is_Some (action_nodes g !! aid)
    ∧ is_Some (violates g !! (aid, cid))
    ∧ tw ∈ optional_match (requires_timewindow g) (time_windows g) cid
    ∧ r ∈ optional_match (bans_resource g) (resources g) cid
    ∧ row = explain_row cid c tw r.
Proof.
  unfold graph_explain_violations. rewrite list_elem_of_bind. split.
  - intros ([cid c] & Hrow & Hc). apply elem_of_map_to_list in Hc.
    destruct (_ && _) eqn:Hcond; [|by apply elem_of_nil in Hrow].
    apply andb_prop in Hcond as [Hcond H4]. apply andb_prop in Hcond as [Hcond H3].
    apply andb_prop in Hcond as [H1 H2].
    apply bool_decide_eq_true in H1, H2, H3, H4.
    apply list_elem_of_bind in Hrow as (tw & Hrow & Htw).
    apply list_elem_of_bind in Hrow as (r & Hrow & Hr).
    apply list_elem_of_singleton in Hrow.
    by exists cid, c, tw, r.
  - intros (cid & c & tw & r & Hc & H1 & H2 & H3 & H4 & Htw & Hr & ->).
    exists (cid, c). split; [|by apply elem_of_map_to_list].
    rewrite !bool_decide_eq_true_2 by done. cbn.
    apply list_elem_of_bind. exists tw. split; [|done].
    apply list_elem_of_bind. exists r. split; [|done].
    by apply list_elem_of_singleton.
Qed.

(** The store after a returned run. *)
Lemma evaluate_request_graph uid req cs u t (g : graph) d g' :
  evaluate_request uid req cs u t g = Ok (d, g') →
  ∃ vs alts,
    run_checks (classify_action req) req (map normalize_constraint cs) = Ok (vs, alts)
    ∧ for_each (fun '(cid, reason) g => record_violation (action_id d) cid reason g)
        vs (graph_record_action uid (recorded_action req u t) g) = Ok g'
    ∧ action_id d = "a-" ++ str_take 10 u
    ∧ ((vs = [] ∧ ok d = true ∧ violations d = [])
       ∨ (vs ≠ [] ∧ ok d = false
          ∧ violations d = graph_explain_violations uid (action_id d) g')).
Proof.
  intros Hrun.
  apply evaluate_request_inv in Hrun
    as (g1 & vs & alts & Hg1 & Hchk & Hrec & Hid & _ & _ & Hd).
  injection Hg1 as <-. exists vs, alts. rewrite Hid. repeat split; try done.
  destruct Hd as [(-> & -> & _ & ->)|(Hvs & -> & _ & Hex)]; [by left|right].
  injection Hex as <-. by rewrite Hid.
Qed.

(** X11. On the graph model, each row of [violations] in a decision is read
    from the graph, not from the constraints that were passed in: it names a
    Constraint node that the graph holds for the user and that the action
    violates, with the type, severity, text and parameters of that node. *)
Theorem explanation_from_graph uid req cs u t (g : graph) d g' row :
  evaluate_request uid req cs u t g = Ok (d, g') →
  row ∈ violations d →
  ∃ cid c,
    constraint_nodes g !! cid = Some c
    ∧ (uid, cid) ∈ has_constraint g
    ∧ is_Some (violates g' !! (action_id d, cid))
    ∧ row !! "constraint_id" = Some (VStr cid)
    ∧ row !! "type" = Some (VStr (c_type c))
    ∧ row !! "severity" = Some (VStr (c_severity c))
    ∧ row !! "text" = Some (VStr (c_text c))
    ∧ row !! "params" = Some (VDict (c_params c)).
Proof.
  intros Hrun Hrow.
  apply evaluate_request_graph in Hrun as (vs & alts & _ & Hrec & _ & Hd).
  destruct Hd as [(_ & _ & Hv)|(_ & _ & Hv)]; rewrite Hv in Hrow;
    [by apply elem_of_nil in Hrow|].
  apply explain_violations_rows in Hrow
    as (cid & c & tw & r & Hc & Hhas & _ & _ & Hvio & _ & _ & ->).
  apply record_violations_frame in Hrec as (_ & Hcn & _ & _ & _ & Hhc & _).
  rewrite Hcn in Hc. rewrite Hhc in Hhas. cbn in Hc, Hhas.
  exists cid, c. split; [done|]. split; [done|]. split; [done|].
  apply explain_row_fields.
Qed.

(** X12. On the graph model, every violation that the checks collect for a
    constraint that the graph holds for the user is explained: [violations]
    has a row that names the constraint.  A violation of a constraint
    without a node in the graph gets no row. *)
Theorem mirrored_violation_explained uid req cs u t (g : graph) d g' vs alts cid reason c :
  evaluate_request uid req cs u t g = Ok (d, g') →
  run_checks (classify_action req) req (map normalize_constraint cs) = Ok (vs, alts) →
  (VStr cid, reason) ∈ vs →
  constraint_nodes g !! cid = Some c →
  (uid, cid) ∈ has_constraint g →
  ∃ row, row ∈ violations d ∧ row !! "constraint_id" = Some (VStr cid).
Proof.
  intros Hrun Hchk Hin Hc Hhas.
  apply evaluate_request_graph in Hrun as (vs' & alts' & Hchk' & Hrec & Hid & Hd).
  rewrite Hchk in Hchk'. injection Hchk' as <- <-.
  destruct Hd as [(-> & _)|(_ & _ & ->)]; [by apply elem_of_nil in Hin|].
  pose proof (record_violations_recorded _ _ _ _ _ _ Hrec Hin) as Hvio.
  apply record_violations_frame in Hrec as (Hu & Hcn & Han & _ & _ & Hhc & _).
  destruct (optional_match (requires_timewindow g') (time_windows g') cid) as [|tw tws] eqn:Htw;
    [by apply optional_match_nonempty in Htw|].
  destruct (optional_match (bans_resource g') (resources g') cid) as [|r rs] eqn:Hr;
    [by apply optional_match_nonempty in Hr|].
  exists (explain_row cid c tw r). split; [|apply explain_row_fields].
  apply explain_violations_rows. exists cid, c, tw, r.
  rewrite Hcn, Hhc, Hu, Han, Htw, Hr. cbn.
  split; [done|]. split; [done|].
  split; [apply elem_of_union; right; by apply elem_of_singleton|].
  split; [rewrite Hid, lookup_insert_eq; eauto|].
  split; [apply Hvio; cbn; [rewrite Hid, lookup_insert_eq; eauto | eauto]|].
  split; [apply list_elem_of_here|]. split; [apply list_elem_of_here|done].
Qed.

(** X13. On the graph model, a run writes the user, the action with its
    [REQUESTED] relationship, and [VIOLATES] relationships from that action;
    it changes no Constraint node, no link of a constraint to its user, no
    TimeWindow or Resource with its link, and no violation of another
    action. *)
Theorem evaluation_preserves_constraints uid req cs u t (g : graph) d g' :
  evaluate_request uid req cs u t g = Ok (d, g') →
  constraint_nodes g' = constraint_nodes g
  ∧ has_constraint g' = has_constraint g
  ∧ time_windows g' = time_windows g
  ∧ resources g' = resources g
  ∧ requires_timewindow g' = requires_timewindow g
  ∧ bans_resource g' = bans_resource g
  ∧ users g' = users g ∪ {[ uid ]}
  ∧ requested g' = requested g ∪ {[ (uid, action_id d) ]}
  ∧ (∀ a, a ≠ action_id d → action_nodes g' !! a = action_nodes g !! a)
  ∧ (∀ a c, a ≠ action_id d → violates g' !! (a, c) = violates g !! (a, c)).
Proof.
  intros Hrun.
  apply evaluate_request_graph in Hrun as (vs & alts & _ & Hrec & Hid & _).
  apply record_violations_frame in Hrec
    as (-> & -> & -> & -> & -> & -> & -> & -> & -> & Hv & _).
  cbn. rewrite Hid. repeat split; try done.
  - intros a Ha. by apply lookup_insert_ne.
  - intros a c Ha. apply Hv. by rewrite Hid.
Qed.

(** *** The fallback store of the memory client *)

Import memmachine_client.

Lemma keep_others_dicts cid (ds : list dict) :
  keep_others cid (VDict <$> ds)
  = Ok (VDict <$> filter (fun d => py_eq (dict_get d "id" VNone) cid = false) ds).
Proof.
  induction ds as [|d ds IH]; [done|].
  rewrite fmap_cons. cbn [keep_others py_get mbind result_bind]. rewrite IH.
  cbn [mbind result_bind].
  destruct (py_eq (dict_get d "id" VNone) cid) eqn:Heq.
  - by rewrite filter_cons_False by (by rewrite Heq).
  - by rewrite filter_cons_True by done.
Qed.

(** What a returned call of the comprehension keeps: dictionaries with
    another identifier, which a second call keeps all. *)
Lemma keep_others_idem cid xs kept :
  keep_others cid xs = Ok kept → keep_others cid kept = Ok kept.
Proof.
  revert kept. induction xs as [|x xs IH]; intros kept Hk.
  - by injection Hk as <-.
  - cbn [keep_others] in Hk.
    apply bind_Ok in Hk as (v & Hv & Hk). apply bind_Ok in Hk as (rest & Hrest & Hk).
    injection Hk as <-. specialize (IH _ Hrest).
    destruct (py_eq v cid) eqn:Heq; [done|].
    cbn [keep_others]. rewrite Hv. cbn. rewrite IH. cbn. by rewrite Heq.
Qed.

Lemma keep_others_app cid xs ys :
  keep_others cid (xs ++ ys)
  = (a ← keep_others cid xs; b ← keep_others cid ys; Ok (a ++ b)%list).
Proof.
  induction xs as [|x xs IH].
  - cbn. by destruct (keep_others cid ys).
  - cbn [app keep_others]. destruct (py_get x "id" VNone) as [v|e]; [|done]. cbn.
    rewrite IH. destruct (keep_others cid xs) as [a|e]; [|done]. cbn.
    destruct (keep_others cid ys) as [b|e]; [|done]. cbn.
    by destruct (py_eq v cid).
Qed.

Lemma keep_others_not_dict cid xs x :
  x ∈ xs → (∀ d, x ≠ VDict d) → keep_others cid xs = Raise AttributeError.
Proof.
  intros Hin Hx. induction xs as [|y xs IH]; [by apply elem_of_nil in Hin|].
  cbn [keep_others]. apply elem_of_cons in Hin as [Heq|Hin].
  - subst y. destruct x as [| | | | | |d]; try reflexivity. by destruct (Hx d).
  - rewrite (IH Hin). by destruct y.
Qed.

(** What a returned listing says of the document in the file. *)
Lemma _list_local_inv self user_id file items :
  _list_local self user_id file = Ok items →
  ∃ data users,
    _read_local self file = VDict data
    ∧ dict_get data "users" (VDict ∅) = VDict users
    ∧ dict_get users user_id (VList []) = items.
Proof.
  unfold _list_local. intros H.
  apply bind_Ok in H as (us & Hus & H).
  destruct (_read_local self file) as [| | | | | |data]; try discriminate Hus.
  injection Hus as <-.
  destruct (dict_get data "users" (VDict ∅)) as [| | | | | |users] eqn:Hu;
    try discriminate H.
  injection H as <-. by exists data, users.
Qed.

(** What a returned store leaves in the file. *)
Lemma _store_local_inv self user_id cd file file' :
  _store_local self user_id cd file = Ok file' →
  ∃ data users xs kept,
    _read_local self file = VDict data
    ∧ dict_get data "users" (VDict ∅) = VDict users
    ∧ py_iter (dict_get users user_id (VList [])) = Ok xs
    ∧ keep_others (dict_get cd "id" VNone) xs = Ok kept
    ∧ file' = Some (VDict (<[ "users" :=
                 VDict (<[ user_id := VList (kept ++ [VDict cd]) ]> users) ]> data)).
Proof.
  unfold _store_local. intros H.
  destruct (_read_local self file) as [| | | | | |data]; try discriminate H.
  destruct (dict_get data "users" (VDict ∅)) as [| | | | | |users] eqn:Hu;
    try discriminate H.
  apply bind_Ok in H as (xs & Hxs & H). apply bind_Ok in H as (kept & Hkept & H).
  injection H as <-. by exists data, users, xs, kept.
Qed.

Lemma _list_local_written self user_id (data users : dict) items :
  _list_local self user_id
    (Some (VDict (<[ "users" := VDict (<[ user_id := items ]> users) ]> data)))
  = Ok items.
Proof.
  unfold _list_local, _read_local. cbn. unfold dict_get.
  rewrite lookup_insert_eq. cbn. unfold dict_get. by rewrite lookup_insert_eq.
Qed.

(** X14. The fallback store inserts or replaces by identifier.  When the
    entry of a user is a list of dictionaries, storing a constraint returns,
    and the user's list is then the former one without the items whose "id"
    is equal to the new one's, followed by the new constraint. *)
Theorem store_local_upsert self user_id cd file (ds : list dict) :
  _list_local self user_id file = Ok (VList (VDict <$> ds)) →
  ∃ file',
    _store_local self user_id cd file = Ok file'
    ∧ _list_local self user_id file'
      = Ok (VList (VDict <$>
              (filter (fun d => py_eq (dict_get d "id" VNone) (dict_get cd "id" VNone) = false) ds
               ++ [cd])%list)).
Proof.
  intros Hlist. apply _list_local_inv in Hlist as (data & users & Hdata & Husers & Hitems).
  unfold _store_local. rewrite Hdata, Husers, Hitems. cbn [py_iter mbind result_bind].
  rewrite keep_others_dicts. cbn [mbind result_bind].
  eexists. split; [reflexivity|].
  unfold _write_local. rewrite _list_local_written. by rewrite fmap_app.
Qed.

(** X15. Storing a constraint for a user leaves the list of every other user
    as it was. *)
Theorem store_local_other_users self user_id cd file file' other :
  _store_local self user_id cd file = Ok file' →
  other ≠ user_id →
  _list_local self other file' = _list_local self other file.
Proof.
  intros Hstore Hne.
  apply _store_local_inv in Hstore as (data & users & xs & kept & Hdata & Husers & _ & _ & ->).
  unfold _list_local. rewrite Hdata. cbn. rewrite Husers.
  unfold dict_get at 1. rewrite lookup_insert_eq. cbn.
  unfold dict_get. by rewrite lookup_insert_ne.
Qed.

Lemma _store_local_written self user_id cd (data users : dict) :
  _store_local self user_id cd (Some (VDict (<[ "users" := VDict users ]> data)))
  = (xs ← py_iter (dict_get users user_id (VList []));
     kept ← keep_others (dict_get cd "id" VNone) xs;
     Ok (Some (VDict (<[ "users" :=
           VDict (<[ user_id := VList (kept ++ [VDict cd]) ]> users) ]> data)))).
Proof.
  unfold _store_local, _read_local, _write_local.
  replace (dict_get (<[ "users" := VDict users ]> data) "users" (VDict ∅))
    with (VDict users) by (unfold dict_get; by rewrite lookup_insert_eq).
  destruct (py_iter _) as [xs|e]; [|done]. cbn.
  destruct (keep_others _ xs) as [kept|e]; [|done]. cbn.
  by rewrite insert_insert_eq.
Qed.

(** X16. Storing the same constraint a second time changes nothing, when its
    identifier is equal to itself, as a string is (a NaN is not). *)
Theorem store_local_idempotent self user_id cd file file' :
  _store_local self user_id cd file = Ok file' →
  py_eq (dict_get cd "id" VNone) (dict_get cd "id" VNone) = true →
  _store_local self user_id cd file' = Ok file'.
Proof.
  intros Hstore Hid.
  apply _store_local_inv in Hstore
    as (data & users & xs & kept & Hdata & Husers & _ & Hkept & ->).
  rewrite _store_local_written.
  replace (dict_get (<[ user_id := VList (kept ++ [VDict cd]) ]> users) user_id (VList []))
    with (VList (kept ++ [VDict cd])) by (unfold dict_get; by rewrite lookup_insert_eq).
  cbn [py_iter mbind result_bind].
  rewrite keep_others_app, (keep_others_idem _ _ _ Hkept).
  cbn [mbind result_bind keep_others py_get]. rewrite Hid.
  by rewrite app_nil_r, insert_insert_eq.
Qed.

(** X17. One item that is not a dictionary in the list of a user makes every
    later store for that user raise [AttributeError], while listing still
    returns. *)
Theorem store_local_corrupt_item self user_id cd file items x :
  _list_local self user_id file = Ok (VList items) →
  x ∈ items → (∀ d, x ≠ VDict d) →
  _store_local self user_id cd file = Raise AttributeError.
Proof.
  intros Hlist Hin Hx.
  apply _list_local_inv in Hlist as (data & users & Hdata & Husers & Hitems).
  unfold _store_local. rewrite Hdata, Husers, Hitems. cbn [py_iter mbind result_bind].
  by rewrite (keep_others_not_dict _ _ _ Hin Hx).
Qed.

(** *** The endpoints *)

Import neo4j_mirror app.

Lemma rstrip_char_empty a s : rstrip_char a s = "" ↔ all_in (is_char a) s = true.
Proof.
  induction s as [|c s IH]; [done|]. cbn [rstrip_char all_in].
  destruct (rstrip_char a s) as [|d r].
  - destruct (is_char a c); cbn; [tauto|]. split; [done|]. intros [=].
  - split; [done|]. intros [_ Hs]%andb_prop. by apply IH in Hs.
Qed.

(** X18. The flag "memmachine_enabled" of [/health] and the mode of the
    memory client differ for one kind of setting: with an API key and an
    endpoint made only of slashes, [/health] reports the remote memory as
    enabled while the client, which strips the slashes, uses the fallback
    file.  For every other setting the two agree. *)
Theorem health_flag_and_client_mode env :
  ∃ flag,
    health env !! "memmachine_enabled" = Some (VBool flag)
    ∧ (flag ≠ _enabled (mem env)
       ↔ MEMMACHINE_API_KEY env ≠ ""
         ∧ MEMMACHINE_ENDPOINT env ≠ ""
         ∧ all_in (is_char "/") (MEMMACHINE_ENDPOINT env) = true).
Proof.
  eexists. split; [reflexivity|].
  unfold mem, new, _enabled. cbn.
  destruct (String.eqb_spec (MEMMACHINE_API_KEY env) "") as [Hk|Hk].
  { rewrite !andb_false_r. split; [done|]. by intros [? _]. }
  destruct (String.eqb_spec (MEMMACHINE_ENDPOINT env) "") as [He|He].
  { rewrite He. cbn. split; [done|]. by intros (_ & ? & _). }
  destruct (String.eqb_spec (rstrip_char "/" (MEMMACHINE_ENDPOINT env)) "") as [Hs|Hs]; cbn.
  - apply rstrip_char_empty in Hs. split; [done|]. by intros _.
  - split; [done|]. intros (_ & _ & Hall). by apply rstrip_char_empty in Hall.
Qed.

(** The two shapes of what [parse_constraint] returns. *)
Lemma parse_constraint_shape s u :
  (∃ c, policy.parse_constraint s u = (Some c, None))
  ∨ (∃ msg, policy.parse_constraint s u = (None, Some msg) ∧ String.eqb msg "" = false).
Proof.
  unfold policy.parse_constraint.
  destruct (policy.meeting_trigger _).
  { destruct (policy._parse_time_to_hour _); [left|right]; eauto. }
  destruct (policy.budget_trigger _).
  { destruct (policy._parse_money_amount _); [left|right]; eauto. }
  destruct (policy.sharing_trigger _); [left|right]; eauto.
Qed.

Section Answers.
Context `{Requests R} `{Neo4jClient G} `{Neo4jMirror G}.

(** X19. [add_constraint] answers with an HTTP error exactly when the text
    does not parse: the status is 400 and the detail is the message of the
    parser.  The stores play no role in it: the answer is the same whatever
    they hold and whether or not they can be reached. *)
Theorem add_constraint_rejects env text u (st : stores) code detail :
  add_constraint env text u st = HTTPException code detail
  ↔ code = 400 ∧ policy.parse_constraint text u = (None, Some detail).
Proof.
  unfold add_constraint.
  destruct (parse_constraint_shape text u) as [[c ->]|(msg & -> & Hmsg)].
  - cbn. split; [|by intros [_ [=]]].
    destruct (store_constraint _ _ _ _); [|done].
    by destruct (upsert_constraint _ _ _).
  - cbn. rewrite Hmsg. cbn. split.
    + by intros [= <- <-].
    + by intros [-> [= ->]].
Qed.


End Answers.

(** *** A declared constraint and a later request *)





Section Declared.
Context `{Requests R} `{Neo4jClient G} `{Neo4jMirror G}.


Lemma run_checks_nil t req : run_checks t req [] = Ok ([], []).
Proof.
  unfold run_checks. cbn [for_each].
  destruct (String.eqb t SCHEDULE_MEETING); cbn [mbind result_bind];
    (destruct (String.eqb t SHARE_DATA); cbn [mbind result_bind];
     [destruct (_mentions_external_party req)|]);
    by destruct (String.eqb t SPEND_MONEY).
Qed.

Lemma _list_local_none self user_id : _list_local self user_id None = Ok (VList []).
Proof. reflexivity. Qed.

Lemma evaluate_request_nil uid req u now (g : G) :
  evaluate_request uid req [] u now g
  = (g1 ← record_action uid (recorded_action req u now) g;
     Ok (approved u (classify_action req), g1)).
Proof.
  unfold evaluate_request, recorded_action.
  destruct (record_action _ _ _) as [g1|e]; [|reflexivity].
  cbn [mbind result_bind map]. by rewrite run_checks_nil.
Qed.

(** X21. With the fallback file as memory and no file written yet, every
    request is approved: the answer is the approval for the action type of
    the request, once the action is recorded, and the memory is left as it
    is. *)
Theorem empty_memory_approves env req u now (remote : R) (g : G) :
  _enabled (mem env) = false →
  process_request env req u now ((None, remote), g)
  = match record_action (USER_ID env) (recorded_action req u now) g with
    | Ok g1 =>
        Returned (decision_dict (approved u (classify_action req)), ((None, remote), g1))
    | Raise e => Uncaught e
    end.
Proof.
  intros Hlocal. unfold process_request, list_constraints. rewrite Hlocal.
  cbn [fst snd]. rewrite _list_local_none. cbn [mbind result_bind].
  change (evaluate_stored (USER_ID env) req (VList []) u now g)
    with (evaluate_request (USER_ID env) req [] u now g).
  rewrite evaluate_request_nil.
  by destruct (record_action _ _ _).
Qed.

End Declared.

(** *** Instances of the further properties *)

(** X3 at a text with capitals and spaces around it. *)
Lemma parse_constraint_reparse_example :
  ∃ c,
    policy.parse_constraint "  No Meetings   after 9PM  " uuid0 = (Some c, None)
    ∧ policy.text c = "No Meetings   after 9PM"
    ∧ policy.parse_constraint (policy.text c) uuid1 = (Some (with_id c uuid1), None).
Proof.
  destruct (policy.parse_constraint "  No Meetings   after 9PM  " uuid0)
    as [[c|] [e|]] eqn:H; try (vm_compute in H; discriminate H).
  exists c. split; [reflexivity|]. split.
  - pose proof H as H'. vm_compute in H'. by injection H' as <-.
  - exact (parse_constraint_reparse _ uuid0 uuid1 c H).
Defined.

(** X5 at the late call, with a budget cap before the meeting constraint and
    a sharing constraint after it. *)
Lemma more_constraints_never_unblock_example :
  ∃ d g' d2 g2',
    evaluate_request "demo_user" "schedule a call at 10pm" [no_meetings_after_21]
      uuid0 now0 store1 = Ok (d, g')
    ∧ ok d = false
    ∧ evaluate_request "demo_user" "schedule a call at 10pm"
        ([budget_cap_1000] ++ [no_meetings_after_21] ++ [no_sharing])
        uuid1 now1 store1 = Ok (d2, g2')
    ∧ ok d2 = false.
Proof.
  assert (match evaluate_request "demo_user" "schedule a call at 10pm"
                  [no_meetings_after_21] uuid0 now0 store1 with
          | Ok (d, _) => negb (ok d)
          | Raise _ => false
          end = true) as Hok by (vm_compute; reflexivity).
  assert (match evaluate_request "demo_user" "schedule a call at 10pm"
                  ([budget_cap_1000] ++ [no_meetings_after_21] ++ [no_sharing])
                  uuid1 now1 store1 with
          | Ok _ => true
          | Raise _ => false
          end = true) as Hret by (vm_compute; reflexivity).
  destruct (evaluate_request "demo_user" "schedule a call at 10pm" [no_meetings_after_21]
              uuid0 now0 store1) as [[d g']|e] eqn:H; [|discriminate Hok].
  destruct (evaluate_request "demo_user" "schedule a call at 10pm"
              ([budget_cap_1000] ++ [no_meetings_after_21] ++ [no_sharing])
              uuid1 now1 store1) as [[d2 g2']|e] eqn:H2; [|discriminate Hret].
  apply negb_true_iff in Hok.
  exists d, g', d2, g2'. split; [reflexivity|]. split; [exact Hok|]. split; [reflexivity|].
  exact (more_constraints_never_unblock _ _ _ _ _ _ _ _ _ _ _ _ _ _ _ _ H Hok H2).
Defined.

(** X6 at a question, with a constraint whose hour cannot be read. *)
Lemma unknown_request_approved_example :
  evaluate_request "demo_user" "What is the weather today?" [no_meetings_after_late]
    uuid0 now0 store1
  = (g1 ← record_action "demo_user"
            (recorded_action "What is the weather today?" uuid0 now0) store1;
     Ok (approved uuid0 UNKNOWN, g1)).
Proof.
  apply (unknown_request_approved "demo_user" "What is the weather today?").
  vm_compute. reflexivity.
Defined.

(** X8 at a call without a time, against a constraint whose hour is the text
    "late". *)
Lemma unreadable_parameter_raises_example :
  ∃ e', evaluate_request "demo_user" "schedule a call tomorrow"
          [no_meetings_after_21; no_meetings_after_late] uuid0 now0 store1 = Raise e'.
Proof.
  apply (unreadable_parameter_raises _ _ _ no_meetings_after_late ValueError).
  - apply list_elem_of_further, list_elem_of_here.
  - left. split; [vm_compute; reflexivity|]. split; vm_compute; reflexivity.
Defined.

(** X9 at the late call. *)
Lemma blocked_suggestions_count_example :
  ∃ d g',
    evaluate_request "demo_user" "schedule a call at 10pm" [no_meetings_after_21]
      uuid0 now0 store1 = Ok (d, g')
    ∧ ok d = false
    ∧ (3 ≤ length (alternatives d) ≤ 5)%nat.
Proof.
  assert (match evaluate_request "demo_user" "schedule a call at 10pm"
                  [no_meetings_after_21] uuid0 now0 store1 with
          | Ok (d, _) => negb (ok d)
          | Raise _ => false
          end = true) as Hok by (vm_compute; reflexivity).
  destruct (evaluate_request "demo_user" "schedule a call at 10pm" [no_meetings_after_21]
              uuid0 now0 store1) as [[d g']|e] eqn:H; [|discriminate Hok].
  apply negb_true_iff in Hok.
  exists d, g'. split; [reflexivity|]. split; [exact Hok|].
  exact (blocked_suggestions_count _ _ _ _ _ _ _ _ H Hok).
Defined.

(** X10 at the meeting constraint marked HARD and the one marked SOFT. *)
Lemma severity_not_consulted_example :
  evaluate_request "demo_user" "schedule a call at 10pm" [no_meetings_after_21]
    uuid0 now0 store1
  = evaluate_request "demo_user" "schedule a call at 10pm" [soft_no_meetings_after_21]
      uuid0 now0 store1.
Proof.
  apply severity_not_consulted. constructor; [|constructor].
  intros k Hk. unfold decisive_keys in Hk.
  repeat (apply elem_of_cons in Hk as [->|Hk]; [vm_compute; reflexivity|]).
  by apply elem_of_nil in Hk.
Defined.

(** X11 at the late call, with the constraint passed in as SOFT and under
    another text: the one row comes from the node "c-1" of the graph. *)
Lemma explanation_from_graph_example :
  ∃ d g' row,
    evaluate_request "demo_user" "schedule a call at 10pm" [soft_no_meetings_after_21]
      uuid0 now0 store1 = Ok (d, g')
    ∧ violations d = [row]
    ∧ ∃ cid c,
        constraint_nodes store1 !! cid = Some c
        ∧ ("demo_user", cid) ∈ has_constraint store1
        ∧ is_Some (violates g' !! (action_id d, cid))
        ∧ row !! "constraint_id" = Some (VStr cid)
        ∧ row !! "type" = Some (VStr (c_type c))
        ∧ row !! "severity" = Some (VStr (c_severity c))
        ∧ row !! "text" = Some (VStr (c_text c))
        ∧ row !! "params" = Some (VDict (c_params c)).
Proof.
  assert (match evaluate_request "demo_user" "schedule a call at 10pm"
                  [soft_no_meetings_after_21] uuid0 now0 store1 with
          | Ok (d, _) => length (violations d)
          | Raise _ => 0%nat
          end = 1%nat) as Hlen by (vm_compute; reflexivity).
  destruct (evaluate_request "demo_user" "schedule a call at 10pm"
              [soft_no_meetings_after_21] uuid0 now0 store1)
    as [[d g']|e] eqn:H; [|discriminate Hlen].
  destruct (violations d) as [|row [|row' rows]] eqn:Hrows;
    [discriminate Hlen| |discriminate Hlen].
  exists d, g', row. split; [reflexivity|]. split; [exact Hrows|].
  apply (explanation_from_graph _ _ _ _ _ _ _ _ row H).
  rewrite Hrows. apply list_elem_of_here.
Defined.

(** X12 at the late call: the violation of "c-1" is explained. *)
Lemma mirrored_violation_explained_example :
  ∃ d g' row,
    evaluate_request "demo_user" "schedule a call at 10pm" [no_meetings_after_21]
      uuid0 now0 store1 = Ok (d, g')
    ∧ row ∈ violations d ∧ row !! "constraint_id" = Some (VStr "c-1").
Proof.
  assert (match evaluate_request "demo_user" "schedule a call at 10pm"
                  [no_meetings_after_21] uuid0 now0 store1 with
          | Ok _ => true
          | Raise _ => false
          end = true) as Hret by (vm_compute; reflexivity).
  destruct (evaluate_request "demo_user" "schedule a call at 10pm" [no_meetings_after_21]
              uuid0 now0 store1) as [[d g']|e] eqn:H; [|discriminate Hret].
  destruct (run_checks (classify_action "schedule a call at 10pm") "schedule a call at 10pm"
              (map normalize_constraint [no_meetings_after_21]))
    as [[vs alts]|e] eqn:Hchk; [|vm_compute in Hchk; discriminate Hchk].
  assert ((VStr "c-1", meeting_reason 22 21) ∈ vs) as Hin.
  { pose proof Hchk as H'. vm_compute in H'. injection H' as <- _.
    apply list_elem_of_here. }
  assert (constraint_nodes store1 !! "c-1"
          = Some (node_of "NO_MEETINGS_AFTER_HOUR" "No meetings after 9pm"
                    {[ "hour" := VInt 21 ]})) as Hc
    by (vm_compute; reflexivity).
  assert (("demo_user", "c-1") ∈ has_constraint store1) as Hhas
    by (apply (bool_decide_unpack _); vm_compute; exact I).
  destruct (mirrored_violation_explained "demo_user" "schedule a call at 10pm"
              [no_meetings_after_21] uuid0 now0 store1 d g' vs alts "c-1"
              (meeting_reason 22 21)
              (node_of "NO_MEETINGS_AFTER_HOUR" "No meetings after 9pm" {[ "hour" := VInt 21 ]})
              H Hchk Hin Hc Hhas) as (row & Hrow & Hcid).
  exists d, g', row. split; [reflexivity|]. split; [exact Hrow|exact Hcid].
Defined.

(** X13 at the late call. *)
Lemma evaluation_preserves_constraints_example :
  ∃ d g',
    evaluate_request "demo_user" "schedule a call at 10pm" [no_meetings_after_21]
      uuid0 now0 store1 = Ok (d, g')
    ∧ constraint_nodes g' = constraint_nodes store1
    ∧ has_constraint g' = has_constraint store1.
Proof.
  assert (match evaluate_request "demo_user" "schedule a call at 10pm"
                  [no_meetings_after_21] uuid0 now0 store1 with
          | Ok _ => true
          | Raise _ => false
          end = true) as Hret by (vm_compute; reflexivity).
  destruct (evaluate_request "demo_user" "schedule a call at 10pm" [no_meetings_after_21]
              uuid0 now0 store1) as [[d g']|e] eqn:H; [|discriminate Hret].
  exists d, g'. split; [reflexivity|].
  destruct (evaluation_preserves_constraints _ _ _ _ _ _ _ _ H) as (Hc & Hh & _).
  split; [exact Hc|exact Hh].
Defined.

(** X14 at a file that holds the constraint "c-1" with the hour 21: storing
    "c-1" with the hour 22 replaces it. *)
Lemma store_local_upsert_example :
  ∃ file',
    _store_local demo_client "demo_user" (no_meetings_after "c-1" 22)
      (file_of [VDict no_meetings_after_21; VDict budget_cap_1000]) = Ok file'
    ∧ _list_local demo_client "demo_user" file'
      = Ok (VList [VDict budget_cap_1000; VDict (no_meetings_after "c-1" 22)]).
Proof.
  destruct (store_local_upsert demo_client "demo_user" (no_meetings_after "c-1" 22)
              (file_of [VDict no_meetings_after_21; VDict budget_cap_1000])
              [no_meetings_after_21; budget_cap_1000]) as (file' & Hstore & Hlist).
  - vm_compute. reflexivity.
  - exists file'. split; [exact Hstore|]. rewrite Hlist. vm_compute. reflexivity.
Defined.

(** X15 at the same file and another user. *)
Lemma store_local_other_users_example :
  ∃ file',
    _store_local demo_client "someone_else" budget_cap_1000
      (file_of [VDict no_meetings_after_21]) = Ok file'
    ∧ _list_local demo_client "demo_user" file' = Ok (VList [VDict no_meetings_after_21]).
Proof.
  destruct (_store_local demo_client "someone_else" budget_cap_1000
              (file_of [VDict no_meetings_after_21])) as [file'|e] eqn:H;
    [|vm_compute in H; discriminate H].
  exists file'. split; [reflexivity|].
  rewrite (store_local_other_users _ _ _ _ _ "demo_user" H) by discriminate.
  vm_compute. reflexivity.
Defined.

(** X16 on a file that does not exist yet. *)
Lemma store_local_idempotent_example :
  ∃ file',
    _store_local demo_client "demo_user" no_meetings_after_21 None = Ok file'
    ∧ _store_local demo_client "demo_user" no_meetings_after_21 file' = Ok file'.
Proof.
  destruct (_store_local demo_client "demo_user" no_meetings_after_21 None)
    as [file'|e] eqn:H; [|vm_compute in H; discriminate H].
  exists file'. split; [reflexivity|].
  apply (store_local_idempotent _ _ _ _ _ H). vm_compute. reflexivity.
Defined.

(** X17 at a list with a string among the constraints. *)
Lemma store_local_corrupt_item_example :
  _list_local demo_client "demo_user" (file_of [VDict no_meetings_after_21; VStr "c-2"])
  = Ok (VList [VDict no_meetings_after_21; VStr "c-2"])
  ∧ _store_local demo_client "demo_user" budget_cap_1000
      (file_of [VDict no_meetings_after_21; VStr "c-2"]) = Raise AttributeError.
Proof.
  split; [vm_compute; reflexivity|].
  apply (store_local_corrupt_item _ _ _ _ [VDict no_meetings_after_21; VStr "c-2"]
           (VStr "c-2")).
  - vm_compute. reflexivity.
  - apply list_elem_of_further, list_elem_of_here.
  - discriminate.
Defined.

(** X18 at an endpoint of two slashes. *)
Lemma health_flag_and_client_mode_example :
  health slash_settings !! "memmachine_enabled" = Some (VBool true)
  ∧ _enabled (mem slash_settings) = false.
Proof.
  destruct (health_flag_and_client_mode slash_settings) as (flag & Hflag & Hdiff).
  split; [|vm_compute; reflexivity].
  rewrite Hflag. destruct flag; [reflexivity|].
  assert (false ≠ _enabled (mem slash_settings)) as Hne.
  { apply (proj2 Hdiff). split; [discriminate|]. split; [discriminate|].
    vm_compute. reflexivity. }
  exfalso. apply Hne. vm_compute. reflexivity.
Defined.

(** X19 at a text that is no constraint, with stores that cannot be
    reached. *)
Lemma add_constraint_rejects_example :
  add_constraint local_settings "hello" uuid0 ((None, tt), Offline)
  = HTTPException 400 policy.unrecognized_error.
Proof.
  apply (proj2 (add_constraint_rejects local_settings "hello" uuid0 ((None, tt), Offline)
                  400 policy.unrecognized_error)).
  split; [reflexivity|vm_compute; reflexivity].
Defined.


(** X21 at a first request. *)
Lemma empty_memory_approves_example :
  ∃ g1,
    process_request local_settings "Schedule a call at 10pm" uuid0 now0
      ((None, tt), empty_graph)
    = Returned (decision_dict (approved uuid0 SCHEDULE_MEETING), ((None, tt), g1)).
Proof.
  eexists.
  rewrite (empty_memory_approves local_settings "Schedule a call at 10pm" uuid0 now0
             tt empty_graph) by (vm_compute; reflexivity).
  cbn [record_action graph_client].
  change (classify_action "Schedule a call at 10pm") with SCHEDULE_MEETING.
  reflexivity.
Defined.
